(** * Crawl-and-filter core of the customer-persona pipeline

    A shallow embedding of the circuit breaker, the URL validator and
    normaliser, the crawl frontier and the adaptive rate limiter of
    [webfill.py], and of the retry wrapper, the comment relevance
    pipeline, the search-query builder, the topic filter, the video
    search and the video details of [youtube.py], followed by the
    properties established about them.

    Conventions of the embedding.
    - Python [str] is [string]; the model covers ASCII text, on which
      UTF-8 encoding is the identity.
    - Python [int] is [Z]; clock readings, delays and similarity scores
      (Python [float]) are rationals [Q] with exact arithmetic.
    - A Python callable with side effects is a function [W -> outcome A * W]
      over an explicit world [W]; [time.time()] reads the clock of the
      world.
    - Exceptions are values of [exn]; a computation that may raise returns
      an [outcome]. Only subclasses of [Exception] are modelled.
    - The functions are embedded as one thread runs them; the worker
      threads of [run] are modelled where they meet in [smart_delay]
      (module [WorkerPool]). *)

From Stdlib Require Import ZArith QArith Lqa List String Ascii Bool Lia.
From Stdlib Require Import Sorted Permutation.
From stdpp Require Import base gmap strings list pretty.
Import ListNotations.

Local Open Scope string_scope.

(** ** Exceptions and outcomes *)

(** The exception classes the two programs distinguish. [HttpError] is
    [googleapiclient.errors.HttpError] with the status of its response
    ([None] when [err.resp] has no status); [OSError] stands for the
    family [socket.timeout], [TimeoutError], [OSError]; [Exception] is any
    other subclass of [Exception], with its message. *)
Inductive exn : Type :=
| HttpError (status : option Z) (msg : string)
| OSError (msg : string)
| LangDetectException (msg : string)
| TypeError (msg : string)
| ValueError (msg : string)
| KeyError (msg : string)
| Exception (msg : string).

(** [str(e)] *)
Definition str (e : exn) : string :=
  match e with
  | HttpError _ m | OSError m | LangDetectException m
  | TypeError m | ValueError m | KeyError m | Exception m => m
  end.

Inductive outcome (A : Type) : Type :=
| Returned (a : A)
| Raised (e : exn).
Arguments Returned {A} a.
Arguments Raised {A} e.

Definition is_raised {A} (o : outcome A) : bool :=
  match o with Raised _ => true | Returned _ => false end.

(** A wrapped callable: it reads and changes the world and either returns
    or raises. *)
Definition callable (W A : Type) : Type := W -> outcome A * W.

(** [x > y] on clock readings and delays. *)
Definition Qgtb (x y : Q) : bool := negb (Qle_bool x y).

(** [max(a, b)] and [min(a, b)]: the second argument is taken only when
    it is strictly better. *)
Definition py_max (a b : Q) : Q := if Qgtb b a then b else a.
Definition py_min (a b : Q) : Q := if Qgtb a b then b else a.

(** ** webfill.py: class CircuitBreaker *)

Module CircuitBreaker.

(** [self.state], one of ['closed'], ['open'], ['half-open']. *)
Inductive cb_state : Type := closed | open | half_open.

Record t : Type := mk {
  failure_threshold : Z;
  recovery_timeout : Q;
  failure_count : Z;
  last_failure_time : option Q;
  state : cb_state
}.

(** [__init__(self, failure_threshold=5, recovery_timeout=300)] *)
Definition init (failure_threshold : Z) (recovery_timeout : Q) : t :=
  {| failure_threshold := failure_threshold;
     recovery_timeout := recovery_timeout;
     failure_count := 0;
     last_failure_time := None;
     state := closed |}.

Definition default : t := init 5 300.

Definition set_state (cb : t) (s : cb_state) : t :=
  {| failure_threshold := failure_threshold cb;
     recovery_timeout := recovery_timeout cb;
     failure_count := failure_count cb;
     last_failure_time := last_failure_time cb;
     state := s |}.

(** The error raised while the breaker is open. *)
Definition circuit_open : exn :=
  Exception "Circuit breaker is OPEN - too many failures".

(** The prologue of [call]: in state ['open'] the breaker either moves to
    ['half-open'] (the recovery timeout has elapsed since the last
    failure) or raises; with [last_failure_time = None] the subtraction
    itself raises [TypeError]. [now] is the reading of [time.time()]. *)
Definition gate (cb : t) (now : Q) : exn + t :=
  match state cb with
  | open =>
      match last_failure_time cb with
      | None => inl (TypeError "unsupported operand type(s) for -: 'float' and 'NoneType'")
      | Some tl =>
          if Qgtb (now - tl) (recovery_timeout cb)
          then inr (set_state cb half_open)
          else inl circuit_open
      end
  | _ => inr cb
  end.

(** The [try] branch after [func] returned. *)
Definition on_success (cb : t) : t :=
  match state cb with
  | half_open =>
      {| failure_threshold := failure_threshold cb;
         recovery_timeout := recovery_timeout cb;
         failure_count := 0;
         last_failure_time := last_failure_time cb;
         state := closed |}
  | _ => cb
  end.

(** The [except Exception] branch; [now] is the reading of
    [time.time()] in the handler. *)
Definition on_failure (cb : t) (now : Q) : t :=
  let n := (failure_count cb + 1)%Z in
  {| failure_threshold := failure_threshold cb;
     recovery_timeout := recovery_timeout cb;
     failure_count := n;
     last_failure_time := Some now;
     state := if (failure_threshold cb <=? n)%Z then open else state cb |}.

Section Call.
Context {W : Type} (time : W -> Q).

(** [call(self, func, *args, **kwargs)]; the arguments are part of
    the callable. *)
Definition call {A} (cb : t) (func : callable W A) (w : W)
  : outcome A * t * W :=
  match gate cb (time w) with
  | inl e => (Raised e, cb, w)
  | inr cb1 =>
      match func w with
      | (Returned r, w') => (Returned r, on_success cb1, w')
      | (Raised e, w') => (Raised e, on_failure cb1 (time w'), w')
      end
  end.

(** A sequence of calls on one breaker, with the outcomes in call
    order. *)
Fixpoint run {A} (cb : t) (fs : list (callable W A)) (w : W)
  : list (outcome A) * t * W :=
  match fs with
  | [] => ([], cb, w)
  | f :: fs' =>
      let '(o, cb1, w1) := call cb f w in
      let '(os, cb2, w2) := run cb1 fs' w1 in
      (o :: os, cb2, w2)
  end.

(** The breakers that calls can produce from a fresh one. *)
Inductive reachable (thr : Z) (rt : Q) : t -> Prop :=
| reach_init : reachable thr rt (init thr rt)
| reach_call {A} cb (func : callable W A) w :
    reachable thr rt cb ->
    reachable thr rt (snd (fst (call cb func w))).

End Call.

(** A callable that raises whatever the world. *)
Definition always_raises {W A} (f : callable W A) : Prop :=
  forall w, exists e w', f w = (Raised e, w').

(** Instrumentation: the world is paired with the number of times the
    wrapped function has been invoked. *)
Definition counted {W A} (f : callable W A) : callable (W * nat) A :=
  fun '(w, n) => let '(o, w') := f w in (o, (w', S n)).

Definition counted_time {W} (time : W -> Q) : W * nat -> Q :=
  fun '(w, _) => time w.



End CircuitBreaker.

(** ** Python string operations (ASCII) *)

Module PyStr.

Definition code (c : ascii) : N := N_of_ascii c.

Definition in_range (lo hi : N) (c : ascii) : bool :=
  (lo <=? code c)%N && (code c <=? hi)%N.

Definition isupper (c : ascii) : bool := in_range 65 90 c.
Definition islower (c : ascii) : bool := in_range 97 122 c.
Definition isalpha (c : ascii) : bool := isupper c || islower c.
Definition isdigit (c : ascii) : bool := in_range 48 57 c.
Definition isalnum (c : ascii) : bool := isalpha c || isdigit c.

(** [str.isspace] on one character, which is also the class [\s]. *)
Definition isspace (c : ascii) : bool :=
  in_range 9 13 c || in_range 28 32 c.

(** The class [\w]. *)
Definition isword (c : ascii) : bool := isalnum c || Ascii.eqb c "_".

Definition lower_char (c : ascii) : ascii :=
  if isupper c then ascii_of_N (code c + 32) else c.

(** [s.lower()] *)
Fixpoint lower (s : string) : string :=
  match s with
  | EmptyString => EmptyString
  | String c s' => String (lower_char c) (lower s')
  end.

(** [s.startswith(p)] *)
Fixpoint startswith (p s : string) : bool :=
  match p, s with
  | EmptyString, _ => true
  | String a p', String b s' => Ascii.eqb a b && startswith p' s'
  | String _ _, EmptyString => false
  end.

(** [sub in s] *)
Fixpoint contains (sub s : string) : bool :=
  startswith sub s ||
  match s with
  | EmptyString => false
  | String _ s' => contains sub s'
  end.

(** [c in s] for a character *)
Fixpoint has_char (c : ascii) (s : string) : bool :=
  match s with
  | EmptyString => false
  | String a s' => Ascii.eqb a c || has_char c s'
  end.

(** [s.replace(old, new)] for a non-empty [old]: occurrences are
    replaced from the left and do not overlap. [skip] counts the
    characters of an occurrence still to be dropped. *)
Fixpoint replace_from (old new : string) (skip : nat) (s : string) : string :=
  match s with
  | EmptyString => EmptyString
  | String c s' =>
      match skip with
      | S k => replace_from old new k s'
      | O =>
          if startswith old s
          then new ++ replace_from old new (String.length old - 1) s'
          else String c (replace_from old new O s')
      end
  end.

Definition replace (old new s : string) : string :=
  replace_from old new O s.

(** [s.partition(c)] on the first occurrence of a character: [None]
    when [c] does not occur. *)
Fixpoint partition (c : ascii) (s : string) : option (string * string) :=
  match s with
  | EmptyString => None
  | String a s' =>
      if Ascii.eqb a c then Some (EmptyString, s')
      else match partition c s' with
           | Some (l, r) => Some (String a l, r)
           | None => None
           end
  end.

(** [s.split(c)] for a one-character separator. *)
Fixpoint split (c : ascii) (s : string) : list string :=
  match s with
  | EmptyString => [EmptyString]
  | String a s' =>
      if Ascii.eqb a c then EmptyString :: split c s'
      else match split c s' with
           | w :: ws => String a w :: ws
           | [] => [String a EmptyString]
           end
  end.

(** [s.split()]: the maximal runs of non-blank characters. *)
Fixpoint words (s : string) : list string :=
  match s with
  | EmptyString => []
  | String a s' =>
      if isspace a then words s'
      else match s' with
           | EmptyString => [String a EmptyString]
           | String b _ =>
               if isspace b then String a EmptyString :: words s'
               else match words s' with
                    | w :: ws => String a w :: ws
                    | [] => [String a EmptyString]
                    end
           end
  end.

(** [s.lstrip(chars)], the characters given by a predicate. *)
Fixpoint lstrip (p : ascii -> bool) (s : string) : string :=
  match s with
  | EmptyString => EmptyString
  | String a s' => if p a then lstrip p s' else s
  end.

(** [s.rstrip(chars)] *)
Fixpoint rstrip (p : ascii -> bool) (s : string) : string :=
  match s with
  | EmptyString => EmptyString
  | String a s' =>
      match rstrip p s' with
      | EmptyString => if p a then EmptyString else String a EmptyString
      | r => String a r
      end
  end.

(** [s.strip()] *)
Definition strip (s : string) : string := rstrip isspace (lstrip isspace s).

(** Deleting every character that satisfies [p]. *)
Fixpoint remove (p : ascii -> bool) (s : string) : string :=
  match s with
  | EmptyString => EmptyString
  | String a s' => if p a then remove p s' else String a (remove p s')
  end.

(** [sum(1 for ch in s if p(ch))] *)
Fixpoint count (p : ascii -> bool) (s : string) : nat :=
  match s with
  | EmptyString => O
  | String a s' => (if p a then 1 else 0) + count p s'
  end.

Fixpoint forallb (p : ascii -> bool) (s : string) : bool :=
  match s with
  | EmptyString => true
  | String a s' => p a && forallb p s'
  end.

(** [len(s)] *)
Definition len (s : string) : Z := Z.of_nat (String.length s).

(** [x in l] for a list of strings *)
Definition mem (x : string) (l : list string) : bool :=
  existsb (String.eqb x) l.

End PyStr.

(** ** Regular expressions (the fragment of [re] the programs use) *)

Module Re.

Inductive regex : Type :=
| Eps
| Chr (c : ascii)                (* a literal character *)
| Any                            (* [.]: any character but a newline *)
| Cls (p : ascii -> bool)        (* a character class *)
| Seq (r1 r2 : regex)
| Alt (r1 r2 : regex)
| Star (r : regex)
| Bol                            (* [^] *)
| Eol                            (* [$] *)
| Wordb.                         (* [\b] *)

(** A literal string. *)
Fixpoint Lit (s : string) : regex :=
  match s with
  | EmptyString => Eps
  | String c s' => Seq (Chr c) (Lit s')
  end.

Definition Opt (r : regex) : regex := Alt r Eps.
Definition Plus (r : regex) : regex := Seq r (Star r).

(** An alternation of literals, [(a|b|c)]. *)
Fixpoint Alts (l : list string) : regex :=
  match l with
  | [] => Cls (fun _ => false)
  | [s] => Lit s
  | s :: l' => Alt (Lit s) (Alts l')
  end.

Definition newline : ascii := ascii_of_N 10.

Definition is_word_opt (c : option ascii) : bool :=
  match c with Some a => PyStr.isword a | None => false end.

Definition head (s : string) : option ascii :=
  match s with String a _ => Some a | EmptyString => None end.

(** Backtracking matcher in continuation-passing style. [ci] is the flag
    [re.IGNORECASE]; [prev] is the character before the current
    position ([None] at the start of the text); [k] receives the
    position after a match of [r]. A starred expression is iterated at
    most once per remaining character, and an iteration that consumes
    nothing is cut. *)
Fixpoint exec (ci : bool) (r : regex) (prev : option ascii) (s : string)
         (k : option ascii -> string -> bool) {struct r} : bool :=
  match r with
  | Eps => k prev s
  | Chr c =>
      match s with
      | String a s' =>
          if (if ci then Ascii.eqb (PyStr.lower_char c) (PyStr.lower_char a)
              else Ascii.eqb c a)
          then k (Some a) s' else false
      | EmptyString => false
      end
  | Any =>
      match s with
      | String a s' => if Ascii.eqb a newline then false else k (Some a) s'
      | EmptyString => false
      end
  | Cls p =>
      match s with
      | String a s' => if p a then k (Some a) s' else false
      | EmptyString => false
      end
  | Seq r1 r2 => exec ci r1 prev s (fun p' s' => exec ci r2 p' s' k)
  | Alt r1 r2 => exec ci r1 prev s k || exec ci r2 prev s k
  | Star r1 =>
      (fix iter (fuel : nat) (prev : option ascii) (s : string) : bool :=
         k prev s ||
         match fuel with
         | O => false
         | S fuel' =>
             exec ci r1 prev s
               (fun p' s' =>
                  if (String.length s' <? String.length s)%nat
                  then iter fuel' p' s' else false)
         end) (String.length s) prev s
  | Bol => match prev with None => k prev s | Some _ => false end
  | Eol =>
      match s with
      | EmptyString => k prev s
      | String a EmptyString => if Ascii.eqb a newline then k prev s else false
      | _ => false
      end
  | Wordb =>
      if xorb (is_word_opt prev) (is_word_opt (head s)) then k prev s else false
  end.

(** Is there a match of [r] starting at some position of the text whose
    remainder is [s]? *)
Fixpoint search_from (ci : bool) (r : regex) (prev : option ascii) (s : string) : bool :=
  exec ci r prev s (fun _ _ => true) ||
  match s with
  | EmptyString => false
  | String a s' => search_from ci r (Some a) s'
  end.

(** [re.search(pattern, s)] as a truth value *)
Definition search (r : regex) (s : string) : bool :=
  search_from false r None s.

(** [re.compile(pattern, re.IGNORECASE).search(s)] as a truth value *)
Definition search_ignorecase (r : regex) (s : string) : bool :=
  search_from true r None s.

End Re.

(** ** urllib.parse (CPython 3.11), on ASCII text *)

Module UrlParse.
Import PyStr.

Record ParseResult : Type := mkParseResult {
  scheme : string;
  netloc : string;
  path : string;
  params : string;
  query : string;
  fragment : string
}.

(** [_WHATWG_C0_CONTROL_OR_SPACE] *)
Definition c0_control_or_space (c : ascii) : bool := (code c <=? 32)%N.

(** [_UNSAFE_URL_BYTES_TO_REMOVE]: tab, carriage return, line feed *)
Definition unsafe_url_byte (c : ascii) : bool :=
  (code c =? 9)%N || (code c =? 13)%N || (code c =? 10)%N.

(** [scheme_chars] *)
Definition scheme_char (c : ascii) : bool :=
  isalnum c || Ascii.eqb c "+" || Ascii.eqb c "-" || Ascii.eqb c ".".

(** [uses_params] *)
Definition uses_params : list string :=
  [""; "ftp"; "hdl"; "prospero"; "http"; "imap"; "https"; "shttp"; "rtsp";
   "rtspu"; "sip"; "sips"; "mms"; "sftp"; "tel"].

(** The scheme prefix of [urlsplit]: [url[:i]] up to the first colon when
    [i > 0], the first character is a letter and all are scheme
    characters. *)
Definition split_scheme (url : string) : string * string :=
  match partition ":" url with
  | Some (String a pre as sch, rest) =>
      if isalpha a && forallb scheme_char sch then (lower sch, rest)
      else (EmptyString, url)
  | _ => (EmptyString, url)
  end.

Definition is_delim (c : ascii) : bool :=
  Ascii.eqb c "/" || Ascii.eqb c "?" || Ascii.eqb c "#".

(** [_splitnetloc(url, 2)] on the text after the two slashes: the
    domain part ends at the first of [/], [?], [#]. *)
Fixpoint splitnetloc (s : string) : string * string :=
  match s with
  | EmptyString => (EmptyString, EmptyString)
  | String a s' =>
      if is_delim a then (EmptyString, s)
      else let '(n, r) := splitnetloc s' in (String a n, r)
  end.

(** [s.rpartition(c)[2]]: the text after the last [c], or all of [s]. *)
Fixpoint after_last (c : ascii) (s : string) : string :=
  match s with
  | EmptyString => EmptyString
  | String a s' => if has_char c s' then after_last c s'
                   else if Ascii.eqb a c then s' else s
  end.

(** [_check_bracketed_netloc]: no text before the bracket, and after it
    only a port. The address syntax check that [ipaddress] performs on
    the bracketed host is not part of the model: every bracketed host
    passes it. *)
Definition check_bracketed_netloc (netloc : string) : outcome unit :=
  let hostname_and_port := after_last "@" netloc in
  match partition "[" hostname_and_port with
  | Some (before_bracket, bracketed) =>
      if negb (String.eqb before_bracket EmptyString)
      then Raised (ValueError "Invalid IPv6 URL")
      else
        let port := match partition "]" bracketed with
                    | Some (_, p) => p
                    | None => EmptyString
                    end in
        if negb (String.eqb port EmptyString) && negb (startswith ":" port)
        then Raised (ValueError "Invalid IPv6 URL")
        else Returned tt
  | None => Returned tt
  end.

(** [urlsplit(url)], with the result in the shape of [urlparse] and
    [params] still empty. *)
Definition urlsplit (url : string) : outcome ParseResult :=
  let url := lstrip c0_control_or_space url in
  let url := remove unsafe_url_byte url in
  let '(scheme, url) := split_scheme url in
  let after_netloc :=
    match url with
    | String "/" (String "/" rest) =>
        let '(netloc, url') := splitnetloc rest in
        if (has_char "[" netloc && negb (has_char "]" netloc))
           || (has_char "]" netloc && negb (has_char "[" netloc))
        then Raised (ValueError "Invalid IPv6 URL")
        else if has_char "[" netloc && has_char "]" netloc
        then match check_bracketed_netloc netloc with
             | Raised e => Raised e
             | Returned _ => Returned (netloc, url')
             end
        else Returned (netloc, url')
    | _ => Returned (EmptyString, url)
    end in
  match after_netloc with
  | Raised e => Raised e
  | Returned (netloc, url) =>
      let '(url, fragment) :=
        match partition "#" url with
        | Some (u, f) => (u, f)
        | None => (url, EmptyString)
        end in
      let '(url, query) :=
        match partition "?" url with
        | Some (u, q) => (u, q)
        | None => (url, EmptyString)
        end in
      Returned {| scheme := scheme; netloc := netloc; path := url;
                  params := EmptyString; query := query;
                  fragment := fragment |}
  end.

(** The text up to and including the last [/], and the text after it. *)
Fixpoint split_last_slash (s : string) : string * string :=
  match s with
  | EmptyString => (EmptyString, EmptyString)
  | String a s' =>
      if has_char "/" s' then
        let '(d, l) := split_last_slash s' in (String a d, l)
      else if Ascii.eqb a "/" then (String a EmptyString, s')
      else (EmptyString, s)
  end.

(** [_splitparams(url)]: the parameters of the last path segment. *)
Definition splitparams (url : string) : string * string :=
  let '(dir, last) := split_last_slash url in
  match partition ";" last with
  | Some (seg, ps) => (dir ++ seg, ps)
  | None => (url, EmptyString)
  end.

(** [urlparse(url)] *)
Definition urlparse (url : string) : outcome ParseResult :=
  match urlsplit url with
  | Raised e => Raised e
  | Returned r =>
      if mem (scheme r) uses_params && has_char ";" (path r)
      then let '(p, ps) := splitparams (path r) in
           Returned {| scheme := scheme r; netloc := netloc r; path := p;
                       params := ps; query := query r;
                       fragment := fragment r |}
      else Returned r
  end.

Definition ishex (c : ascii) : bool :=
  isdigit c || in_range 65 70 c || in_range 97 102 c.

Definition hexval (c : ascii) : N :=
  if isdigit c then code c - 48
  else if in_range 65 70 c then code c - 55
  else code c - 87.

(** [unquote(s)]: an escape [%XY] with two hexadecimal digits becomes
    the byte [0xXY]; any other [%] stays. On ASCII bytes the UTF-8
    decoding is the identity; a byte from [0x80] on is kept as one
    character, where CPython decodes a multi-byte sequence or
    substitutes U+FFFD. *)
Fixpoint unquote (s : string) : string :=
  match s with
  | EmptyString => EmptyString
  | String c rest =>
      if Ascii.eqb c "%" then
        match rest with
        | String a (String b s') =>
            if ishex a && ishex b
            then String (ascii_of_N (16 * hexval a + hexval b)) (unquote s')
            else String c (unquote rest)
        | _ => String c (unquote rest)
        end
      else String c (unquote rest)
  end.

(** [parse_qsl(qs)] with its defaults: blank values are dropped and
    fields without [=] are skipped. *)
Definition plus_to_space (s : string) : string :=
  replace "+" " " s.

Definition parse_field (name_value : string) : option (string * string) :=
  match partition "=" name_value with
  | Some (n, v) =>
      if String.eqb v EmptyString then None
      else Some (unquote (plus_to_space n), unquote (plus_to_space v))
  | None => None
  end.

Definition parse_qsl (qs : string) : list (string * string) :=
  if String.eqb qs EmptyString then []
  else omap parse_field (split "&" qs).

(** A [dict] from names to lists of values, in insertion order. *)
Fixpoint dict_append (name value : string) (d : list (string * list string))
  : list (string * list string) :=
  match d with
  | [] => [(name, [value])]
  | (n, vs) :: d' =>
      if String.eqb n name then (n, (vs ++ [value])%list) :: d'
      else (n, vs) :: dict_append name value d'
  end.

(** [parse_qs(qs)] *)
Definition parse_qs (qs : string) : list (string * list string) :=
  fold_left (fun d '(n, v) => dict_append n v d) (parse_qsl qs) [].

Definition hexdigit (n : N) : ascii :=
  if (n <? 10)%N then ascii_of_N (48 + n) else ascii_of_N (55 + n).

(** The characters [quote] leaves alone: letters, digits, [_.-~], and
    the default [safe='/']. *)
Definition quote_safe (c : ascii) : bool :=
  isalnum c || Ascii.eqb c "_" || Ascii.eqb c "." || Ascii.eqb c "-"
  || Ascii.eqb c "~" || Ascii.eqb c "/".

(** [quote(s)] *)
Fixpoint quote (s : string) : string :=
  match s with
  | EmptyString => EmptyString
  | String c s' =>
      if quote_safe c then String c (quote s')
      else String "%" (String (hexdigit (code c / 16))
                         (String (hexdigit (code c mod 16)) (quote s')))
  end.

End UrlParse.

(** ** webfill.py: class SmartURLValidator *)

Module SmartURLValidator.
Import PyStr Re UrlParse.

Record t : Type := mk {
  base_domain : string;
  compiled_skip : list regex;
  compiled_good : list regex
}.

(** [\.(e1|e2|...)$] *)
Definition extension (exts : list string) : regex :=
  Seq (Chr ".") (Seq (Alts exts) Eol).

(** [lit/?$] *)
Definition at_end_slash (lit : string) : regex :=
  Seq (Lit lit) (Seq (Opt (Chr "/")) Eol).

Definition skip_patterns : list regex :=
  [ (* Cloudflare and CDN *)
    Lit "/cdn-cgi/";
    Lit "/cf-ray/";
    (* Technical files *)
    extension ["css"; "js"; "ico"; "png"; "jpg"; "jpeg"; "gif"; "svg";
               "woff"; "woff2"; "ttf"; "eot"];
    extension ["pdf"; "doc"; "docx"; "xls"; "xlsx"; "zip"; "rar"; "mp4";
               "mp3"; "avi"; "mov"];
    extension ["json"];
    extension ["xml"];
    extension ["txt"];
    (* Admin and system paths *)
    Lit "/wp-admin/";
    Lit "/wp-content/uploads/";
    Lit "/admin/";
    Lit "/_next/static/";
    Lit "/static/";
    Lit "/assets/";
    Lit "/node_modules/";
    Seq (Chr "/") (Seq Any (Lit "well-known/"));   (* /.well-known/ *)
    (* Social media and external *)
    Lit "facebook.com";
    Lit "twitter.com";
    Lit "linkedin.com";
    Lit "instagram.com";
    Lit "youtube.com";
    Lit "mailto:";
    Lit "tel:";
    Lit "javascript:";
    Lit "#";
    (* Tracking and analytics *)
    Lit "google-analytics";
    Lit "googletagmanager";
    Lit "facebook.net";
    Lit "doubleclick.net";
    (* Common non-content patterns *)
    Lit "/search?";
    Lit "?utm_";
    at_end_slash "/feed";
    at_end_slash "/rss";
    Lit "/sitemap" ].

Definition good_patterns : list regex :=
  map Lit ["/blog/"; "/article/"; "/post/"; "/news/"; "/about/";
           "/contact/"; "/service/"; "/product/"; "/pricing/";
           "/feature/"; "/help/"; "/support/"; "/docs/"; "/guide/";
           "/tutorial/"].

(** [__init__(self, base_domain)] *)
Definition init (base_domain : string) : t :=
  {| base_domain := lower (replace "www." "" base_domain);
     compiled_skip := skip_patterns;
     compiled_good := good_patterns |}.

(** [len([p for p in path.split('/') if p])] *)
Definition path_depth (path : string) : Z :=
  Z.of_nat (length (List.filter (fun p => negb (String.eqb p "")) (split "/" path))).

(** [is_valid_url(self, url)] *)
Definition is_valid_url (v : t) (url : string) : bool :=
  if String.eqb url "" || (2000 <? len url)%Z then false
  else
    match urlparse url with
    | Raised _ => false
    | Returned parsed =>
        (* Must be HTTP/HTTPS *)
        if negb (mem (scheme parsed) ["http"; "https"]) then false
        else
          (* Must be same domain *)
          let domain := lower (replace "www." "" (netloc parsed)) in
          if negb (String.eqb domain (base_domain v)) then false
          else
            (* Check skip patterns *)
            let full_url := lower url in
            if existsb (fun pattern => search_ignorecase pattern full_url)
                       (compiled_skip v)
            then false
            else if (200 <? len (query parsed))%Z then false
            else if (6 <? path_depth (path parsed))%Z then false
            else true
    end.

(** [get_url_priority(self, url)] *)
Definition get_url_priority (v : t) (url : string) : outcome Z :=
  let url_lower := lower url in
  let priority :=
    fold_left (fun priority pattern =>
                 if search_ignorecase pattern url_lower
                 then (priority + 10)%Z else priority)
              (compiled_good v) 0%Z in
  match urlparse url with
  | Raised e => Raised e
  | Returned parsed =>
      let priority := (priority + Z.max 0 (5 - path_depth (path parsed)))%Z in
      let priority :=
        if String.eqb (query parsed) "" then (priority + 2)%Z else priority in
      Returned priority
  end.

End SmartURLValidator.

(** ** webfill.py: class SmartWebScraper *)

(** What the scraper needs from its environment. A [Response] carries
    what the parser and [_extract_links] return for its page; a page
    with an [href] on which [urljoin] raises is not covered. *)
Record Response : Type := mkResponse {
  status_code : Z;
  reason : string;
  response_url : string;
  content_type : string;       (* headers.get('content-type', '') *)
  title_elem : option string;  (* the text of the <title> element *)
  page_links : list string;    (* _extract_links(soup, url) *)
  page_content : string        (* _extract_content(soup) *)
}.

Record page_data : Type := mkPage {
  pd_url : string;
  pd_title : string;
  pd_content : string;
  pd_word_count : Z;
  pd_links_found : Z
}.

Record page_summary : Type := mkSummary {
  ps_url : string;
  ps_title : string;
  ps_summary : string;
  ps_word_count : Z
}.

Class World (W : Type) : Type := {
  time : W -> Q;                                  (* time.time() *)
  sleep : Q -> W -> W;                            (* time.sleep(d) *)
  session_get : string -> callable W Response;    (* self.session.get(url, ...) *)
  can_fetch : string -> W -> bool;                (* can_fetch_url(url) *)
  summarize_page : page_data -> W -> page_summary * W
}.

(** A clock on which a sleep of [d > 0] seconds lasts at least [d]
    seconds. *)
Class SleepAdvances (W : Type) `{World W} : Prop :=
  sleep_advances :
    forall (d : Q) (w : W), (0 < d)%Q -> (time w + d <= time (sleep d w))%Q.

Module SmartWebScraper.
Import PyStr UrlParse.

Record stats_t : Type := mkStats {
  requests_made : Z;
  errors_encountered : Z;
  urls_filtered : Z;
  rate_limit_hits : Z;
  circuit_breaker_trips : Z
}.

Record t : Type := mk {
  base_url : string;
  domain : string;
  base_domain : string;
  max_pages : Z;
  visited : gset string;
  failed_urls : gset string;
  page_summaries : list page_summary;
  url_validator : SmartURLValidator.t;
  priority_urls : list string;
  regular_urls : list string;
  cb_timeout : CircuitBreaker.t;
  cb_server_error : CircuitBreaker.t;
  cb_rate_limit : CircuitBreaker.t;
  last_request_time : gmap string Q;
  min_delay : Q;
  adaptive_delay : Q;
  stats : stats_t
}.

Definition set_visited (s : t) (x : gset string) : t :=
  mk (base_url s) (domain s) (base_domain s) (max_pages s) x (failed_urls s)
     (page_summaries s) (url_validator s) (priority_urls s) (regular_urls s)
     (cb_timeout s) (cb_server_error s) (cb_rate_limit s)
     (last_request_time s) (min_delay s) (adaptive_delay s) (stats s).

Definition set_failed_urls (s : t) (x : gset string) : t :=
  mk (base_url s) (domain s) (base_domain s) (max_pages s) (visited s) x
     (page_summaries s) (url_validator s) (priority_urls s) (regular_urls s)
     (cb_timeout s) (cb_server_error s) (cb_rate_limit s)
     (last_request_time s) (min_delay s) (adaptive_delay s) (stats s).

Definition set_page_summaries (s : t) (x : list page_summary) : t :=
  mk (base_url s) (domain s) (base_domain s) (max_pages s) (visited s)
     (failed_urls s) x (url_validator s) (priority_urls s) (regular_urls s)
     (cb_timeout s) (cb_server_error s) (cb_rate_limit s)
     (last_request_time s) (min_delay s) (adaptive_delay s) (stats s).

Definition set_priority_urls (s : t) (x : list string) : t :=
  mk (base_url s) (domain s) (base_domain s) (max_pages s) (visited s)
     (failed_urls s) (page_summaries s) (url_validator s) x (regular_urls s)
     (cb_timeout s) (cb_server_error s) (cb_rate_limit s)
     (last_request_time s) (min_delay s) (adaptive_delay s) (stats s).

Definition set_regular_urls (s : t) (x : list string) : t :=
  mk (base_url s) (domain s) (base_domain s) (max_pages s) (visited s)
     (failed_urls s) (page_summaries s) (url_validator s) (priority_urls s) x
     (cb_timeout s) (cb_server_error s) (cb_rate_limit s)
     (last_request_time s) (min_delay s) (adaptive_delay s) (stats s).

Definition set_cb_server_error (s : t) (x : CircuitBreaker.t) : t :=
  mk (base_url s) (domain s) (base_domain s) (max_pages s) (visited s)
     (failed_urls s) (page_summaries s) (url_validator s) (priority_urls s)
     (regular_urls s) (cb_timeout s) x (cb_rate_limit s)
     (last_request_time s) (min_delay s) (adaptive_delay s) (stats s).

Definition set_last_request_time (s : t) (x : gmap string Q) : t :=
  mk (base_url s) (domain s) (base_domain s) (max_pages s) (visited s)
     (failed_urls s) (page_summaries s) (url_validator s) (priority_urls s)
     (regular_urls s) (cb_timeout s) (cb_server_error s) (cb_rate_limit s)
     x (min_delay s) (adaptive_delay s) (stats s).

Definition set_adaptive_delay (s : t) (x : Q) : t :=
  mk (base_url s) (domain s) (base_domain s) (max_pages s) (visited s)
     (failed_urls s) (page_summaries s) (url_validator s) (priority_urls s)
     (regular_urls s) (cb_timeout s) (cb_server_error s) (cb_rate_limit s)
     (last_request_time s) (min_delay s) x (stats s).

Definition set_stats (s : t) (x : stats_t) : t :=
  mk (base_url s) (domain s) (base_domain s) (max_pages s) (visited s)
     (failed_urls s) (page_summaries s) (url_validator s) (priority_urls s)
     (regular_urls s) (cb_timeout s) (cb_server_error s) (cb_rate_limit s)
     (last_request_time s) (min_delay s) (adaptive_delay s) x.

Definition incr_requests_made (st : stats_t) : stats_t :=
  mkStats (requests_made st + 1) (errors_encountered st) (urls_filtered st)
          (rate_limit_hits st) (circuit_breaker_trips st).
Definition incr_errors_encountered (st : stats_t) : stats_t :=
  mkStats (requests_made st) (errors_encountered st + 1) (urls_filtered st)
          (rate_limit_hits st) (circuit_breaker_trips st).
Definition incr_urls_filtered (st : stats_t) : stats_t :=
  mkStats (requests_made st) (errors_encountered st) (urls_filtered st + 1)
          (rate_limit_hits st) (circuit_breaker_trips st).
Definition incr_rate_limit_hits (st : stats_t) : stats_t :=
  mkStats (requests_made st) (errors_encountered st) (urls_filtered st)
          (rate_limit_hits st + 1) (circuit_breaker_trips st).
Definition incr_circuit_breaker_trips (st : stats_t) : stats_t :=
  mkStats (requests_made st) (errors_encountered st) (urls_filtered st)
          (rate_limit_hits st) (circuit_breaker_trips st + 1).

Definition important_params : list string :=
  ["id"; "page"; "category"; "tag"; "slug"; "section"].

(** [normalize_url(self, url)] *)
Definition normalize_url (url : string) : outcome string :=
  if String.eqb url "" then Returned ""
  else
    match urlparse url with
    | Raised e => Raised e
    | Returned parsed =>
        (* Remove fragment *)
        let path := rstrip (Ascii.eqb "/") (path parsed) in
        let path := if String.eqb path "" then "/" else path in
        (* Keep only important parameters *)
        let query_params := parse_qs (query parsed) in
        let clean_params :=
          omap (fun '(key, values) =>
                  match values with
                  | value :: _ =>
                      if mem (lower key) important_params
                      then Some (key, value) else None
                  | [] => None
                  end) query_params in
        (* Rebuild query string *)
        let query :=
          String.concat "&"
            (map (fun '(key, value) => key ++ "=" ++ quote value) clean_params) in
        Returned (scheme parsed ++ "://" ++ netloc parsed ++ path
                  ++ (if String.eqb query "" then "" else "?" ++ query))
    end.

(** [x in deque] *)
Definition in_queue (x : string) (q : list string) : bool := mem x q.

(** [add_url(self, url, priority=0)] *)
Definition add_url (s : t) (url : string) (priority : Z) : outcome unit * t :=
  if negb (SmartURLValidator.is_valid_url (url_validator s) url)
  then (Returned tt, set_stats s (incr_urls_filtered (stats s)))
  else
    match normalize_url url with
    | Raised e => (Raised e, s)
    | Returned normalized_url =>
        if bool_decide (normalized_url ∈ visited s)
           || bool_decide (normalized_url ∈ failed_urls s)
        then (Returned tt, s)
        else
          match SmartURLValidator.get_url_priority (url_validator s) url with
          | Raised e => (Raised e, s)
          | Returned p =>
              let actual_priority := (priority + p)%Z in
              if (8 <=? actual_priority)%Z then
                if negb (in_queue normalized_url (priority_urls s))
                then (Returned tt,
                      set_priority_urls s (priority_urls s ++ [normalized_url]))
                else (Returned tt, s)
              else
                if negb (in_queue normalized_url (regular_urls s))
                then (Returned tt,
                      set_regular_urls s (regular_urls s ++ [normalized_url]))
                else (Returned tt, s)
          end
    end.

(** [get_next_url(self)]; [None] is Python's [None]. *)
Definition get_next_url (s : t) : option string * t :=
  if (max_pages s <=? Z.of_nat (length (page_summaries s)))%Z then (None, s)
  else
    match priority_urls s with
    | u :: rest => (Some u, set_priority_urls s rest)
    | [] =>
        match regular_urls s with
        | u :: rest => (Some u, set_regular_urls s rest)
        | [] => (None, s)
        end
    end.

(** [__init__(self, base_url, openai_api_key=None, max_workers=2,
    max_pages=50)]. The seed is queued before [self.stats] exists, so a
    seed that the validator rejects ends the constructor with an
    [AttributeError]. *)
Definition init (base_url : string) (max_pages : Z) : outcome t :=
  match urlparse base_url with
  | Raised e => Raised e
  | Returned parsed =>
      let base_domain := replace "www." "" (netloc parsed) in
      let s :=
        {| base_url := rstrip (Ascii.eqb "/") base_url;
           domain := netloc parsed;
           base_domain := base_domain;
           max_pages := max_pages;
           visited := ∅;
           failed_urls := ∅;
           page_summaries := [];
           url_validator := SmartURLValidator.init base_domain;
           priority_urls := [];
           regular_urls := [];
           cb_timeout := CircuitBreaker.init 3 180;
           cb_server_error := CircuitBreaker.init 5 300;
           cb_rate_limit := CircuitBreaker.init 2 600;
           last_request_time := ∅;
           min_delay := 2;
           adaptive_delay := 2;
           stats := mkStats 0 0 0 0 0 |} in
      if negb (SmartURLValidator.is_valid_url (url_validator s) base_url)
      then Raised (Exception "'SmartWebScraper' object has no attribute 'stats'")
      else
        match add_url s base_url 10 with
        | (Raised e, _) => Raised e
        | (Returned _, s') => Returned s'
        end
  end.

(** The three updates of the adaptive delay. *)
Definition delay_after_success (s : t) : Q :=
  py_max (adaptive_delay s * 0.9) (min_delay s).
Definition delay_after_breaker_trip (s : t) : Q :=
  py_min (adaptive_delay s * 1.5) 10.
Definition delay_after_rate_limit (s : t) : Q :=
  py_min (adaptive_delay s * 2) 15.

(** The feedback that changes the adaptive delay, and a sequence of such
    updates. *)
Inductive delay_update : Type := Success | RateLimited | BreakerTrip.

Definition apply_update (s : t) (u : delay_update) : t :=
  set_adaptive_delay s
    match u with
    | Success => delay_after_success s
    | RateLimited => delay_after_rate_limit s
    | BreakerTrip => delay_after_breaker_trip s
    end.

Section WithWorld.
Context {W : Type} `{World W}.

(** [smart_delay(self)] *)
Definition smart_delay (s : t) (w : W) : t * W :=
  let current_time := time w in
  let time_since_last :=
    (current_time - default 0 (last_request_time s !! domain s))%Q in
  let delay_needed := (adaptive_delay s - time_since_last)%Q in
  let w := if Qgtb delay_needed 0 then sleep delay_needed w else w in
  (set_last_request_time s (<[domain s := time w]> (last_request_time s)), w).

(** [for link in links: if is_valid_url(link): ...; self.add_url(link)] *)
Fixpoint add_links (s : t) (links : list string) (n : Z) : outcome Z * t :=
  match links with
  | [] => (Returned n, s)
  | link :: rest =>
      if SmartURLValidator.is_valid_url (url_validator s) link then
        match add_url s link 0 with
        | (Raised e, s') => (Raised e, s')
        | (Returned _, s') => add_links s' rest (n + 1)
        end
      else add_links s rest n
  end.

(** [_process_response(self, url, response)]; the result [None] is
    Python's [None] for a page that is not HTML. *)
Definition _process_response (url : string) (response : Response) (s : t)
  : outcome (option page_data) * t :=
  if negb (contains "text/html" (lower (content_type response)))
  then (Returned None, s)
  else
    let title := match title_elem response with
                 | Some x => strip x
                 | None => "No Title"
                 end in
    let content := page_content response in
    match add_links s (page_links response) 0 with
    | (Raised e, s') => (Raised e, s')
    | (Returned n, s') =>
        (Returned (Some {| pd_url := url; pd_title := title;
                           pd_content := content;
                           pd_word_count := Z.of_nat (length (words content));
                           pd_links_found := n |}), s')
    end.

(** [response.raise_for_status()] *)
Definition raise_for_status (response : Response) : outcome unit :=
  let st := status_code response in
  if (400 <=? st)%Z && (st <? 500)%Z
  then Raised (OSError (pretty st ++ " Client Error: " ++ reason response
                        ++ " for url: " ++ response_url response))
  else if (500 <=? st)%Z && (st <? 600)%Z
  then Raised (OSError (pretty st ++ " Server Error: " ++ reason response
                        ++ " for url: " ++ response_url response))
  else Returned tt.

(** [_make_request(self, url)], as a callable on the scraper and its
    world. *)
Definition _make_request (url : string) : callable (t * W) (option page_data) :=
  fun '(s, w) =>
    let s := set_stats s (incr_requests_made (stats s)) in
    match session_get url w with
    | (Raised e, w') => (Raised e, (s, w'))
    | (Returned response, w') =>
        if (status_code response =? 429)%Z
        then (Raised (Exception "Rate limited (429)"), (s, w'))
        else if existsb (Z.eqb (status_code response)) [522; 503; 504]%Z
        then (Raised (Exception ("Server error ("
                                 ++ pretty (status_code response) ++ ")")),
              (s, w'))
        else
          match raise_for_status response with
          | Raised e => (Raised e, (s, w'))
          | Returned _ =>
              (* Reset adaptive delay on success *)
              let s := set_adaptive_delay s (delay_after_success s) in
              let '(o, s') := _process_response url response s in
              (o, (s', w'))
          end
    end.

(** [scrape_page(self, url)] *)
Definition scrape_page (url : string) (s : t) (w : W)
  : outcome (option page_data) * t * W :=
  match normalize_url url with
  | Raised e => (Raised e, s, w)
  | Returned normalized_url =>
      if bool_decide (normalized_url ∈ visited s) then (Returned None, s, w)
      else
        let s := set_visited s ({[normalized_url]} ∪ visited s) in
        if negb (can_fetch url w) then (Returned None, s, w)
        else
          let '(s, w) := smart_delay s w in
          let '(o, cb, (s, w)) :=
            CircuitBreaker.call (fun sw : t * W => time (snd sw))
              (cb_server_error s) (_make_request url) (s, w) in
          let s := set_cb_server_error s cb in
          match o with
          | Returned result => (Returned result, s, w)
          | Raised e =>
              let error_msg := str e in
              let s := set_stats s (incr_errors_encountered (stats s)) in
              let s := set_failed_urls s ({[normalized_url]} ∪ failed_urls s) in
              let s :=
                if contains "Circuit breaker is OPEN" error_msg then
                  let s := set_stats s (incr_circuit_breaker_trips (stats s)) in
                  set_adaptive_delay s (delay_after_breaker_trip s)
                else if contains "429" error_msg
                        || contains "rate limit" (lower error_msg) then
                  let s := set_stats s (incr_rate_limit_hits (stats s)) in
                  set_adaptive_delay s (delay_after_rate_limit s)
                else s in
              (Returned None, s, w)
          end
  end.

(** [process_url(self, url)] *)
Definition process_url (url : string) (s : t) (w : W)
  : outcome (option page_summary) * t * W :=
  match scrape_page url s w with
  | (Raised e, s, w) => (Raised e, s, w)
  | (Returned None, s, w) => (Returned None, s, w)
  | (Returned (Some page), s, w) =>
      let '(summary_data, w) := summarize_page page w in
      (Returned (Some summary_data),
       set_page_summaries s (page_summaries s ++ [summary_data]), w)
  end.

(** The operations that change a scraper. *)
Inductive step : t -> t -> Prop :=
| step_add_url s url priority :
    step s (snd (add_url s url priority))
| step_get_next_url s :
    step s (snd (get_next_url s))
| step_smart_delay s w :
    step s (fst (smart_delay s w))
| step_scrape_page s url w :
    step s (snd (fst (scrape_page url s w)))
| step_process_url s url w :
    step s (snd (fst (process_url url s w))).

(** The scrapers reachable from a constructed one. *)
Inductive reachable (s0 : t) : t -> Prop :=
| reach_refl : reachable s0 s0
| reach_step s s' : reachable s0 s -> step s s' -> reachable s0 s'.

End WithWorld.

End SmartWebScraper.

(** ** webfill.py: the worker threads of [run] inside [smart_delay] *)

(** [run] submits [self.process_url] to a
    [ThreadPoolExecutor(max_workers=self.max_workers)], two workers
    unless the user asks otherwise. Each worker calls [scrape_page] and
    there [smart_delay] on the one scraper object, and [smart_delay]
    takes no lock. The threads are taken to switch only where one blocks
    in [time.sleep], which admits fewer interleavings than the
    interpreter does. *)
Module WorkerPool.
Import SmartWebScraper.

(** Where a worker is: outside [smart_delay]; blocked in its
    [time.sleep], to return at [until] at the earliest; or back from
    [smart_delay], having stamped the domain at [stamped], and sending
    its request. *)
Inductive worker : Type :=
| Idle
| Sleeping (until : Q)
| Requesting (stamped : Q).

Record pool : Type := mkPool {
  scraper : t;            (* self, the object all workers share *)
  clock : Q;              (* time.time() *)
  workers : list worker
}.

(** [self.last_request_time[self.domain] = time.time()], by worker
    [i], which then leaves [smart_delay]. *)
Definition stamp (i : nat) (p : pool) : pool :=
  let s := scraper p in
  {| scraper :=
       set_last_request_time s (<[domain s := clock p]> (last_request_time s));
     clock := clock p;
     workers := <[i := Requesting (clock p)]> (workers p) |}.

(** Worker [i] enters [smart_delay] and runs until it blocks in
    [time.sleep] or, with no delay needed, returns. *)
Definition enter (i : nat) (p : pool) : option pool :=
  match workers p !! i with
  | Some Idle =>
      let s := scraper p in
      let current_time := clock p in
      let time_since_last :=
        (current_time - default 0 (last_request_time s !! domain s))%Q in
      let delay_needed := (adaptive_delay s - time_since_last)%Q in
      if Qgtb delay_needed 0
      then Some {| scraper := s;
                   clock := clock p;
                   workers := <[i := Sleeping (clock p + delay_needed)]> (workers p) |}
      else Some (stamp i p)
  | _ => None
  end.

(** Worker [i] returns from [time.sleep], not before the time it asked
    for, and runs to the end of [smart_delay]. *)
Definition wake (i : nat) (p : pool) : option pool :=
  match workers p !! i with
  | Some (Sleeping until) =>
      if Qle_bool until (clock p) then Some (stamp i p) else None
  | _ => None
  end.

(** [d] seconds pass. *)
Definition tick (d : Q) (p : pool) : option pool :=
  if Qle_bool 0 d
  then Some {| scraper := scraper p; clock := (clock p + d)%Q; workers := workers p |}
  else None.

(** A schedule of the pool; [None] when a step is not possible. *)
Inductive action : Type :=
| Enter (i : nat)
| Wake (i : nat)
| Tick (d : Q).

Definition perform (a : action) (p : pool) : option pool :=
  match a with
  | Enter i => enter i p
  | Wake i => wake i p
  | Tick d => tick d p
  end.

Fixpoint play (schedule : list action) (p : pool) : option pool :=
  match schedule with
  | [] => Some p
  | a :: rest =>
      match perform a p with
      | Some p' => play rest p'
      | None => None
      end
  end.

End WorkerPool.

(** ** youtube.py *)

(** One element of [resp["items"]]; the fields are the keys the pipeline
    reads with [sn.get]. *)
Record snippet : Type := mkSnippet {
  textDisplay : option string;
  authorDisplayName : option string;
  sn_likeCount : option Z;
  sn_publishedAt : option string
}.

(** [None] is an item on which the lookup
    [it["snippet"]["topLevelComment"]["snippet"]] raises. *)
Definition item : Type := option snippet.

Record comment : Type := mkComment {
  text : string;
  author : string;
  likeCount : Z;
  publishedAt : string
}.

(** A comment with its [similarity_score]. *)
Record scored_comment : Type := mkScored {
  sc_comment : comment;
  similarity_score : Q
}.

(** The services the comment pipeline calls. [comment_threads video_id]
    is [request.execute()] for the comment-thread request of a video and
    yields [resp.get("items", [])]; [cos_sim question texts] is the
    embedding of the question and of the texts followed by
    [util.cos_sim(q_emb, c_emb)[0]]. *)
Class YouTube (W : Type) : Type := {
  yt_sleep : Q -> W -> W;
  comment_threads : string -> callable W (list item);
  detect : string -> callable W string;
  cos_sim : string -> list string -> callable W (list Q)
}.

Module Youtube.
Import PyStr Re.

Record config : Type := mkConfig {
  RETRIES : Z;
  MIN_SIMILARITY : Q;
  MAX_COMMENTS_PAGE : Z;
  MIN_WORDS : Z;
  MIN_CHARS : Z
}.

(** The values used when the environment sets none. *)
Definition default_config : config :=
  {| RETRIES := 3; MIN_SIMILARITY := 0.25; MAX_COMMENTS_PAGE := 100;
     MIN_WORDS := 6; MIN_CHARS := 25 |}.

Definition STOPWORDS : list string :=
  ["the"; "a"; "an"; "and"; "or"; "for"; "to"; "of"; "in"; "on"; "with";
   "by"; "from"; "into"; "at"; "over"; "under"; "about"; "as"; "is"; "are";
   "was"; "were"; "be"; "been"; "being"; "this"; "that"; "those"; "these";
   "it"; "its";
   "how"; "what"; "why"; "when"; "where"; "who"; "which"; "does"; "do";
   "did"; "has"; "have"; "had"; "their"; "them"; "they"; "you"; "we"; "i";
   "your"; "our"; "ours"; "his"; "her"; "hers"; "him"; "he"; "she";
   "brand"; "brands"; "product"; "products"; "pricing"; "price"; "compare";
   "comparison"; "unique"; "selling"; "proposition"; "usp"; "reviews";
   "review"; "testimonial"; "testimonials"; "pain"; "points"].

Definition GENERIC_TRASH_PATTERNS : list regex :=
  [ Lit "subscribe";
    Lit "follow me";
    Seq (Lit "check ") (Seq (Opt (Lit "out ")) (Lit "my channel"));
    Lit "giveaway";
    Seq (Lit "http") (Seq (Opt (Chr "s")) (Lit "://"));
    Lit "www.";
    Seq (Chr "#") (Plus (Cls isword));
    Seq (Chr "@") (Plus (Cls isword));
    Seq Wordb (Seq (Alts ["like"; "share"; "comment"]) Wordb);
    Seq Bol (Seq (Lit "nice") (Seq (Opt (Lit " video")) (Seq (Opt (Chr "!")) Eol)));
    Seq Bol (Seq (Lit "cool") (Seq (Opt (Chr "!")) Eol));
    Seq Bol (Seq (Lit "awesome") (Seq (Opt (Chr "!")) Eol));
    Seq Bol (Seq (Lit "first") (Seq (Opt (Chr "!")) Eol));
    Seq Bol (Seq (Lit "lol") (Seq (Opt (Chr "!")) Eol)) ].

(** [re.sub(r"\s+", " ", s)]: every maximal run of blanks becomes one
    space. *)
Fixpoint collapse_blanks (s : string) : string :=
  match s with
  | EmptyString => EmptyString
  | String a s' =>
      if isspace a then
        match s' with
        | String b _ =>
            if isspace b then collapse_blanks s'
            else String " " (collapse_blanks s')
        | EmptyString => " "
        end
      else String a (collapse_blanks s')
  end.

(** [normalize(s)] *)
Definition normalize (s : string) : string := strip (collapse_blanks s).

(** [tolc(s)] *)
Definition tolc (s : string) : string := lower (normalize s).

Definition token_char (c : ascii) : bool := isalpha c || Ascii.eqb c "-".

Definition finish_token (acc : string) : list string :=
  if (2 <=? String.length acc)%nat then [acc] else [].

(** [re.findall(r"[a-zA-Z][a-zA-Z\-]+", s)]: a token starts at a letter
    and extends over letters and hyphens, and needs two characters.
    [acc] is the token being read, empty outside a token. *)
Fixpoint findall_tokens (acc : string) (s : string) : list string :=
  match s with
  | EmptyString => finish_token acc
  | String a s' =>
      if String.eqb acc "" then
        if isalpha a then findall_tokens (String a "") s'
        else findall_tokens "" s'
      else if token_char a then findall_tokens (acc ++ String a "") s'
      else (finish_token acc ++ findall_tokens "" s')%list
  end.

(** [extract_keywords(text)] *)
Definition extract_keywords (text : string) : list string :=
  let tokens := findall_tokens "" (tolc text) in
  List.filter (fun t => negb (mem t STOPWORDS) && (2 <? len t)%Z) tokens.

(** [looks_meaningful(text)] *)
Definition looks_meaningful (cfg : config) (text : string) : bool :=
  if (len text <? MIN_CHARS cfg)%Z then false
  else if (Z.of_nat (length (words text)) <? MIN_WORDS cfg)%Z then false
  else
    let non_alnum_ratio :=
      (inject_Z (Z.of_nat (count (fun ch => negb (isalnum ch) && negb (isspace ch)) text))
       / inject_Z (Z.max 1 (len text)))%Q in
    if Qgtb non_alnum_ratio 0.4 then false
    else
      let tlc := tolc text in
      if existsb (fun pat => search pat tlc) GENERIC_TRASH_PATTERNS then false
      else true.

(** [_is_retryable_http_error(err)] *)
Definition _is_retryable_http_error (err : exn) : bool :=
  match err with
  | HttpError (Some status) _ => existsb (Z.eqb status) [500; 502; 503; 504]%Z
  | _ => false
  end.

Section Retry.
Context {W A : Type} (sleep : Q -> W -> W).

(** The loop [for attempt in range(tries)] of [execute_with_retry],
    with [remaining] iterations to go. *)
Fixpoint retry_loop (request : callable W A) (tries : Z) (backoff : Q)
         (remaining : nat) (attempt : Z) (last_err : option exn) (w : W)
  : outcome A * W :=
  match remaining with
  | O =>
      match last_err with
      | Some e => (Raised e, w)
      | None => (Raised (TypeError "exceptions must derive from BaseException"), w)
      end
  | S remaining' =>
      match request w with
      | (Returned r, w') => (Returned r, w')
      | (Raised e, w') =>
          let next (w' : W) :=
            let w'' := if (attempt <? tries - 1)%Z
                       then sleep (backoff ^ attempt)%Q w' else w' in
            retry_loop request tries backoff remaining' (attempt + 1) (Some e) w'' in
          match e with
          | HttpError _ _ =>
              if negb (_is_retryable_http_error e) then (Raised e, w')
              else next w'
          | OSError _ => next w'
          | _ => next w'
          end
      end
  end.

(** [execute_with_retry(request, tries, backoff=2.0, what=...)] *)
Definition execute_with_retry (request : callable W A) (tries : Z) (backoff : Q)
           (w : W) : outcome A * W :=
  retry_loop request tries backoff (Z.to_nat tries) 0 None w.

End Retry.

(** [pairs.sort(key=lambda x: float(x[1]), reverse=True)]: a stable sort
    by decreasing score. *)
Fixpoint insert_desc (x : comment * Q) (l : list (comment * Q))
  : list (comment * Q) :=
  match l with
  | [] => [x]
  | y :: l' => if Qgtb (snd y) (snd x) then y :: insert_desc x l' else x :: l
  end.

Definition sort_desc (l : list (comment * Q)) : list (comment * Q) :=
  fold_right insert_desc [] l.

(** The loop [for c, s in pairs] with its [break]. *)
Fixpoint take_relevant (pairs : list (comment * Q)) (min_similarity : Q)
         (max_comments : Z) (out : list scored_comment) : list scored_comment :=
  match pairs with
  | [] => out
  | (c, s) :: rest =>
      if Qle_bool min_similarity s then
        let out := (out ++ [mkScored c s])%list in
        if (max_comments <=? Z.of_nat (length out))%Z then out
        else take_relevant rest min_similarity max_comments out
      else take_relevant rest min_similarity max_comments out
  end.

(** The semantic rerank of the comments that survived, given their
    similarities. *)
Definition rerank (filtered : list comment) (sims : list Q)
           (min_similarity : Q) (max_comments : Z) : list scored_comment :=
  take_relevant (sort_desc (combine filtered sims)) min_similarity max_comments [].

Section Pipeline.
Context {W : Type} `{YouTube W}.

(** The body of the loop [for it in resp.get("items", [])]: the
    comment to append to [raw], if any. *)
Definition read_item (cfg : config) (it : item) (w : W)
  : outcome (option comment) * W :=
  match it with
  | None => (Raised (KeyError "snippet"), w)
  | Some sn =>
      let txt := normalize (default "" (textDisplay sn)) in
      if negb (looks_meaningful cfg txt) then (Returned None, w)
      else
        let keep :=
          Returned (Some {| text := txt;
                            author := default "Anonymous" (authorDisplayName sn);
                            likeCount := default 0%Z (sn_likeCount sn);
                            publishedAt := default "" (sn_publishedAt sn) |}) in
        (* strict English only: if detection fails, skip *)
        match detect txt w with
        | (Returned lang, w') =>
            if negb (String.eqb lang "en") then (Returned None, w')
            else (keep, w')
        | (Raised (LangDetectException _), w') => (Returned None, w')
        | (Raised e, w') => (Raised e, w')
        end
  end.

Fixpoint collect_raw (cfg : config) (items : list item) (raw : list comment) (w : W)
  : list comment * W :=
  match items with
  | [] => (raw, w)
  | it :: rest =>
      match read_item cfg it w with
      | (Returned (Some c), w') => collect_raw cfg rest (raw ++ [c]) w'
      | (Returned None, w') => collect_raw cfg rest raw w'
      | (Raised _, w') => collect_raw cfg rest raw w'   (* except Exception: continue *)
      end
  end.

(** [fetch_relevant_comments(video_id, brand, question, max_comments,
    min_similarity, tries)] *)
Definition fetch_relevant_comments (cfg : config) (video_id brand question : string)
           (max_comments : Z) (min_similarity : Q) (tries : Z) (w : W)
  : outcome (list scored_comment) * W :=
  match execute_with_retry yt_sleep (comment_threads video_id) tries 2 w with
  | (Raised (HttpError _ _), w) => (Returned [], w)
  | (Raised _, w) => (Returned [], w)
  | (Returned items, w) =>
      let '(raw, w) := collect_raw cfg items [] w in
      match raw with
      | [] => (Returned [], w)
      | _ :: _ =>
          (* Must connect to the question *)
          let q_keywords := extract_keywords question in
          let filtered :=
            List.filter (fun c => existsb (fun k => contains k (tolc (text c)))
                                          q_keywords) raw in
          match filtered with
          | [] => (Returned [], w)
          | _ :: _ =>
              (* Semantic rerank *)
              match cos_sim question (map text filtered) w with
              | (Returned sims, w) =>
                  (Returned (rerank filtered sims min_similarity max_comments), w)
              | (Raised _, w) => (Returned [], w)
              end
          end
      end
  end.

End Pipeline.

End Youtube.


(** ** Scripted worlds for concrete runs *)

Module Mock.

(** A test double: a clock that only [sleep] advances, the outcomes that
    the next calls of the scripted service will have, the number of calls
    made, the sleeps requested, and the answer of the similarity
    service. *)
Record world (A : Type) : Type := mkWorld {
  clock : Q;
  script : list (outcome A);
  calls : nat;
  sleeps : list Q;
  similarities : outcome (list Q)
}.
Arguments mkWorld {A} _ _ _ _ _.
Arguments clock {A} _.
Arguments script {A} _.
Arguments calls {A} _.
Arguments sleeps {A} _.
Arguments similarities {A} _.

Definition start {A} (script : list (outcome A)) : world A :=
  mkWorld 0 script 0 [] (Returned []).

(** The scripted service: each call consumes one outcome. *)
Definition scripted {A} : callable (world A) A :=
  fun w =>
    match script w with
    | [] => (Raised (Exception "script exhausted"),
             mkWorld (clock w) [] (S (calls w)) (sleeps w) (similarities w))
    | o :: rest =>
        (o, mkWorld (clock w) rest (S (calls w)) (sleeps w) (similarities w))
    end.

Definition mock_sleep {A} (d : Q) (w : world A) : world A :=
  mkWorld (Qred (clock w + d)) (script w) (calls w) (sleeps w ++ [d])
          (similarities w).

(** Language detection that finds English in any text with a letter and
    no language in a text without one. *)
Definition mock_detect {A} (txt : string) : callable (world A) string :=
  fun w =>
    if (0 <? PyStr.count PyStr.isalpha txt)%nat then (Returned "en", w)
    else (Raised (LangDetectException "No features in text."), w).

#[global] Instance mock_World : World (world Response) :=
  {| time := clock;
     sleep := mock_sleep;
     session_get := fun _ => scripted;
     can_fetch := fun _ _ => true;
     summarize_page := fun page w =>
       (mkSummary (pd_url page) (pd_title page) (pd_content page)
                  (pd_word_count page), w) |}.

#[global] Instance mock_YouTube : YouTube (world (list item)) :=
  {| yt_sleep := mock_sleep;
     comment_threads := fun _ => scripted;
     detect := mock_detect;
     cos_sim := fun _ _ w => (similarities w, w) |}.

End Mock.

(** Two callables on a world that is just a clock: each takes one second;
    the first always raises, the second always returns. *)
Definition tick_fail : callable Q Z :=
  fun t => (Raised (Exception "boom"), Qred (t + 1)).

Definition tick_ok : callable Q Z :=
  fun t => (Returned 0%Z, Qred (t + 1)).

(** ** youtube.py: search queries, topic filter, video search and details *)

(** [video_snippet]: the keys of a search result's snippet that
    [is_video_on_topic] reads with [.get]. *)
Record video_snippet : Type := mkVideoSnippet {
  vs_title : option string;
  vs_description : option string;
  vs_channelTitle : option string
}.

(** One element of the [items] of a search response: [item.get("snippet")],
    and [item["id"]["videoId"]], [None] when that lookup raises. *)
Record search_result : Type := mkSearchResult {
  sr_snippet : option video_snippet;
  sr_videoId : option string
}.

(** One element of the [items] of a [videos.list] response: [it["id"]]
    ([None] when the key is missing), the snippet fields and the
    statistics, which the API sends as decimal strings. *)
Record video_item : Type := mkVideoItem {
  vi_id : option string;
  vi_title : option string;
  vi_publishedAt : option string;
  vi_channelTitle : option string;
  vi_description : option string;
  vi_viewCount : option string;
  vi_likeCount : option string;
  vi_commentCount : option string
}.

(** An element of the result of [fetch_video_details]. *)
Record video : Type := mkVideo {
  video_id : string;
  v_title : string;
  v_url : string;
  viewCount : Z;
  v_likeCount : Z;
  commentCount : Z;
  v_publishedAt : string;
  v_channelTitle : string;
  v_description : string
}.

(** The two requests of the video search: [search_list part q maxResults]
    is [yt.search().list(part=..., q=..., maxResults=...).execute()] and
    yields [resp.get("items", [])]; [videos_list ids] is
    [yt.videos().list(id=",".join(ids), ...).execute()]. *)
Class VideoApi (W : Type) : Type := {
  va_sleep : Q -> W -> W;
  search_list : string -> string -> Z -> callable W (list search_result);
  videos_list : list string -> callable W (list video_item)
}.

Module YoutubeSearch.
Import PyStr UrlParse Youtube.

Definition BRAND_ALIASES : list (string * list string) :=
  [ ("brother vellies", ["brother vellies"; "aurora james"; "bvellies"]);
    ("able", ["able carry"; "able bags"; "able brand"; "able leather"]);
    ("soko", ["soko jewelry"; "shop soko"; "soko kenya"]);
    ("accompany", ["accompany"; "accompanyus"; "accompany shop";
                   "accompany fair trade"]);
    ("mz fair trade", ["mz fair trade"; "mz fairtrade"; "mz made by"]) ].

Definition NEGATIVE_KWS : list (string * list string) :=
  [ ("soko", ["grand seiko"; "seiko"; "butcher"; "restaurant"; "rooftop"]);
    ("accompany", ["bob seger"; "song"; "reaction"; "kneecap"; "film"; "movie"]);
    ("mz fair trade", ["zainuddin"; "mz kh"; "k.h zainuddin"; "sermon"]) ].

Definition CATEGORY_KWS : list string :=
  [ "bag"; "leather"; "handbag"; "wallet"; "tote"; "backpack";
    "jewelry"; "earrings"; "necklace"; "bracelet"; "ring";
    "fair trade"; "artisan"; "craft"; "handcrafted"; "ethical"; "sustainable";
    "review"; "unboxing"; "brand"; "story"; "pricing"; "price"; "testimonial" ].

(** [d.get(key, default)] on a dict written as its items. *)
Fixpoint dict_get {A} (key : string) (d : list (string * A)) (default : A) : A :=
  match d with
  | [] => default
  | (k, v) :: d' => if String.eqb k key then v else dict_get key d' default
  end.

(** [s.partition(c)[0]] *)
Definition before (c : ascii) (s : string) : string :=
  match partition c s with
  | Some (l, _) => l
  | None => s
  end.

(** The [hostname] property of a parse result. *)
Definition hostname (r : ParseResult) : option string :=
  let hostinfo := after_last "@" (netloc r) in
  let hostname :=
    match partition "[" hostinfo with
    | Some (_, bracketed) => before "]" bracketed
    | None => before ":" hostinfo
    end in
  if String.eqb hostname "" then None
  else
    match partition "%" hostname with
    | Some (h, zone) => Some (lower h ++ "%" ++ zone)
    | None => Some (lower hostname)
    end.

(** [l[-2:]] *)
Definition last_two {A} (l : list A) : list A := skipn (length l - 2) l.

(** [domain_from_url(url)] *)
Definition domain_from_url (url : string) : string :=
  match urlparse url with
  | Raised _ => ""
  | Returned parsed =>
      match hostname parsed with
      | None => ""
      | Some host => String.concat "." (last_two (split "." host))
      end
  end.

(** The double quote. *)
Definition dquote : string := String (ascii_of_N 34) "".

(** The queries of one alias in [build_search_queries]. *)
Definition alias_queries (alias : string) (key_terms : list string) : list string :=
  List.app
    (map (fun kt => dquote ++ alias ++ dquote ++ " " ++ kt ++ " review") key_terms)
    [ dquote ++ alias ++ dquote ++ " testimonial";
      dquote ++ alias ++ dquote ++ " customer review";
      dquote ++ alias ++ dquote ++ " pricing";
      dquote ++ alias ++ dquote ++ " artisan";
      dquote ++ alias ++ dquote ++ " sustainable" ].

(** The loop [for q in queries] that removes repetitions and stops at
    the cap. *)
Fixpoint dedupe_cap (queries : list string) (max_q : Z)
         (seen : gset string) (deduped : list string) : list string :=
  match queries with
  | [] => deduped
  | q :: rest =>
      let '(seen, deduped) :=
        if bool_decide (q ∉ seen) then ({[q]} ∪ seen, (deduped ++ [q])%list)
        else (seen, deduped) in
      if (max_q <=? Z.of_nat (length deduped))%Z then deduped
      else dedupe_cap rest max_q seen deduped
  end.

(** The list [queries] of [build_search_queries] before it is
    deduplicated. *)
Definition candidate_queries (brand website question : string) : list string :=
  let brand_lc := tolc brand in
  let aliases := dict_get brand_lc BRAND_ALIASES [brand_lc] in
  let dom := domain_from_url website in
  let qk := extract_keywords question in
  let key_terms := firstn 8 (firstn 4 qk ++ CATEGORY_KWS)%list in
  let queries := flat_map (fun alias => alias_queries alias key_terms) aliases in
  if negb (String.eqb dom "")
  then List.app queries [dquote ++ brand ++ dquote ++ " " ++ dquote ++ dom ++ dquote]
  else queries.

(** [build_search_queries(brand, website, question, max_q=6)] *)
Definition build_search_queries (brand website question : string) (max_q : Z)
  : list string :=
  dedupe_cap (candidate_queries brand website question) max_q ∅ [].

(** [is_video_on_topic(video_snippet, brand)] *)
Definition is_video_on_topic (video_snippet : video_snippet) (brand : string) : bool :=
  let brand_lc := tolc brand in
  let aliases := dict_get brand_lc BRAND_ALIASES [brand_lc] in
  let negatives := dict_get brand_lc NEGATIVE_KWS [] in
  let title := tolc (default "" (vs_title video_snippet)) in
  let desc := tolc (default "" (vs_description video_snippet)) in
  let channel := tolc (default "" (vs_channelTitle video_snippet)) in
  let text := title ++ " " ++ desc ++ " " ++ channel in
  if negb (existsb (fun a => contains a text) aliases) then false
  else if existsb (fun neg => contains neg text) negatives then false
  else true.

(** [list(dict.fromkeys(found))]: the first occurrence of each element,
    in order. *)
Fixpoint fromkeys (seen : gset string) (l : list string) : list string :=
  match l with
  | [] => []
  | x :: l' =>
      if bool_decide (x ∈ seen) then fromkeys seen l'
      else x :: fromkeys ({[x]} ∪ seen) l'
  end.

(** [l[:n]] *)
Definition slice_to {A} (l : list A) (n : Z) : list A :=
  if (n <? 0)%Z then firstn (length l - Z.to_nat (- n)) l
  else firstn (Z.to_nat n) l.

(** [item.get("snippet", {})] *)
Definition snippet_of (item : search_result) : video_snippet :=
  default (mkVideoSnippet None None None) (sr_snippet item).

(** The loop [for item in resp.get("items", [])] of the first search:
    [found] grows in place, also when a later item raises. *)
Fixpoint scan_items (items : list search_result) (brand : string)
         (found : list string) : outcome unit * list string :=
  match items with
  | [] => (Returned tt, found)
  | item :: rest =>
      if is_video_on_topic (snippet_of item) brand then
        match sr_videoId item with
        | Some v => scan_items rest brand (found ++ [v])
        | None => (Raised (KeyError "videoId"), found)
        end
      else scan_items rest brand found
  end.

(** [[it["id"]["videoId"] for it in resp.get("items", [])]] *)
Fixpoint all_ids (items : list search_result) : outcome (list string) :=
  match items with
  | [] => Returned []
  | item :: rest =>
      match sr_videoId item with
      | None => Raised (KeyError "videoId")
      | Some v =>
          match all_ids rest with
          | Raised e => Raised e
          | Returned vs => Returned (v :: vs)
          end
      end
  end.

(** [int(s)] on a string, base 10: blanks around, a sign, and digits
    that single underscores may separate. [scan_digits] reads the run of
    digits and underscores and yields its value, the number of digits
    and the text left; more than 4300 digits (the default of
    [sys.set_int_max_str_digits]) are refused. The message of the
    [ValueError], which goes on with the text, is not used. *)
Definition int_space (c : ascii) : bool := in_range 9 13 c || Ascii.eqb c " ".

Fixpoint scan_digits (acc digits : Z) (after_digit : bool) (s : string)
  : option (Z * Z * string) :=
  match s with
  | EmptyString => if after_digit then Some (acc, digits, s) else None
  | String c s' =>
      if isdigit c
      then scan_digits (10 * acc + Z.of_N (code c - 48)) (digits + 1) true s'
      else if Ascii.eqb c "_"
      then if after_digit then scan_digits acc digits false s' else None
      else if after_digit then Some (acc, digits, s) else None
  end.

Definition int_of_string (s : string) : outcome Z :=
  let t := rstrip int_space (lstrip int_space s) in
  let '(sign, body) :=
    match t with
    | String "-" r => ((-1)%Z, r)
    | String "+" r => (1%Z, r)
    | _ => (1%Z, t)
    end in
  match scan_digits 0 0 false body with
  | Some (v, digits, rest) =>
      if (4300 <? digits)%Z
      then Raised (ValueError "Exceeds the limit (4300 digits) for integer string conversion")
      else if String.eqb rest ""
      then Returned (sign * v)%Z
      else Raised (ValueError "invalid literal for int() with base 10")
  | None => Raised (ValueError "invalid literal for int() with base 10")
  end.

(** [int(st.get(key, 0) or 0)] *)
Definition count_of (x : option string) : outcome Z :=
  match x with
  | None => Returned 0%Z
  | Some s => if String.eqb s "" then Returned 0%Z else int_of_string s
  end.

(** The dict that the loop of [fetch_video_details] appends for one
    item. *)
Definition video_of (it : video_item) : outcome video :=
  match vi_id it with
  | None => Raised (KeyError "id")
  | Some id =>
      match count_of (vi_viewCount it) with
      | Raised e => Raised e
      | Returned views =>
          match count_of (vi_likeCount it) with
          | Raised e => Raised e
          | Returned likes =>
              match count_of (vi_commentCount it) with
              | Raised e => Raised e
              | Returned comments =>
                  Returned {| video_id := id;
                              v_title := default "" (vi_title it);
                              v_url := "https://youtu.be/" ++ id;
                              viewCount := views;
                              v_likeCount := likes;
                              commentCount := comments;
                              v_publishedAt := default "" (vi_publishedAt it);
                              v_channelTitle := default "" (vi_channelTitle it);
                              v_description := default "" (vi_description it) |}
              end
          end
      end
  end.

Fixpoint videos_of (items : list video_item) : outcome (list video) :=
  match items with
  | [] => Returned []
  | it :: rest =>
      match video_of it with
      | Raised e => Raised e
      | Returned v =>
          match videos_of rest with
          | Raised e => Raised e
          | Returned vs => Returned (v :: vs)
          end
      end
  end.

(** [out.sort(key=lambda v: v["viewCount"], reverse=True)]: a stable
    sort by decreasing view count. *)
Fixpoint insert_by_views (x : video) (l : list video) : list video :=
  match l with
  | [] => [x]
  | y :: l' =>
      if (viewCount x <? viewCount y)%Z then y :: insert_by_views x l' else x :: l
  end.

Definition sort_by_views (l : list video) : list video :=
  fold_right insert_by_views [] l.

Section Search.
Context {W : Type} `{VideoApi W}.

(** The loop [for q in queries] of [search_video_ids]. *)
Fixpoint search_loop (queries : list string) (brand : string) (max_results tries : Z)
         (found : list string) (w : W) : list string * W :=
  match queries with
  | [] => (found, w)
  | q :: rest =>
      match execute_with_retry va_sleep
              (search_list "snippet" q (Z.min 10 max_results)) tries 2 w with
      | (Raised _, w) => search_loop rest brand max_results tries found w
      | (Returned items, w) =>
          match scan_items items brand found with
          | (Raised _, found) => search_loop rest brand max_results tries found w
          | (Returned _, found) =>
              if (max_results <=? Z.of_nat (length found))%Z then (found, w)
              else search_loop rest brand max_results tries found w
          end
      end
  end.

(** [search_video_ids(queries, brand, max_results=5, tries=RETRIES)] *)
Definition search_video_ids (queries : list string) (brand : string)
           (max_results tries : Z) (w : W) : list string * W :=
  let '(found, w) := search_loop queries brand max_results tries [] w in
  (* fallback if none *)
  let '(found, w) :=
    match found with
    | [] =>
        let q := dquote ++ brand ++ dquote ++ " review" in
        match execute_with_retry va_sleep (search_list "id" q max_results) tries 2 w with
        | (Raised _, w) => (found, w)
        | (Returned items, w) =>
            match all_ids items with
            | Raised _ => (found, w)
            | Returned ids => (ids, w)
            end
        end
    | _ :: _ => (found, w)
    end in
  (* Dedupe & cap *)
  (slice_to (fromkeys ∅ found) max_results, w).

(** [fetch_video_details(video_ids, tries=RETRIES)] *)
Definition fetch_video_details (video_ids : list string) (tries : Z) (w : W)
  : outcome (list video) * W :=
  match video_ids with
  | [] => (Returned [], w)
  | _ :: _ =>
      match execute_with_retry va_sleep (videos_list video_ids) tries 2 w with
      | (Raised _, w) => (Returned [], w)
      | (Returned items, w) =>
          match videos_of items with
          | Raised e => (Raised e, w)
          | Returned out => (Returned (sort_by_views out), w)
          end
      end
  end.

End Search.

End YoutubeSearch.

(** Scripted worlds for the video search and for the video details: the
    scripted service answers the request of the world's type, the other
    request is refused. *)
Module MockSearch.
Import Mock.

#[global] Instance mock_search : VideoApi (world (list search_result)) :=
  {| va_sleep := mock_sleep;
     search_list := fun _ _ _ => scripted;
     videos_list := fun _ w =>
       (Raised (HttpError (Some 403%Z) "forbidden"), w) |}.

#[global] Instance mock_videos : VideoApi (world (list video_item)) :=
  {| va_sleep := mock_sleep;
     search_list := fun _ _ _ w =>
       (Raised (HttpError (Some 403%Z) "forbidden"), w);
     videos_list := fun _ => scripted |}.

End MockSearch.


(** ** Notions used in the statements *)

Local Open Scope list_scope.

Section BreakerNotions.
Import CircuitBreaker.

(** The number of calls that raised. *)
Fixpoint count_raised {A} (os : list (outcome A)) : Z :=
  match os with
  | [] => 0
  | o :: os' => (if is_raised o then 1 else 0) + count_raised os'
  end.

(** What holds of a breaker between two calls: it is not half-open, and
    when it is open the threshold has been reached and the time of the
    last failure is known. *)
Definition breaker_inv (cb : t) : Prop :=
  match state cb with
  | closed => True
  | open => (failure_threshold cb <= failure_count cb)%Z
            /\ exists tl, last_failure_time cb = Some tl
  | half_open => False
  end.

(** A breaker of threshold 1 after one failing call. *)
Definition opened_breaker : t := snd (fst (call id (init 1 300) tick_fail 0%Q)).

End BreakerNotions.

Section ScraperNotions.
Import SmartWebScraper.

(** What every operation of the scraper preserves, from the scraper [s]
    before it to the scraper [s'] after it. *)
Record ext (s s' : t) : Prop := mkExt {
  ext_domain : domain s' = domain s;
  ext_visited : visited s ⊆ visited s';
  ext_failed : failed_urls s ⊆ failed_urls s';
  ext_priority : NoDup (priority_urls s) -> NoDup (priority_urls s');
  ext_regular : NoDup (regular_urls s) -> NoDup (regular_urls s');
  ext_validator : url_validator s' = url_validator s;
  ext_min_delay : min_delay s' = min_delay s;
  ext_delay :
    min_delay s = 2%Q ->
    (2 <= adaptive_delay s <= 15)%Q -> (2 <= adaptive_delay s' <= 15)%Q
}.

(** The error with which [_make_request] gives up on the outcome of
    [session.get] before it looks at the page: the exception of the
    request itself, the two status checks, and [raise_for_status]. *)
Definition request_error (o : outcome Response) : option exn :=
  match o with
  | Raised e => Some e
  | Returned response =>
      if (status_code response =? 429)%Z
      then Some (Exception "Rate limited (429)")
      else if existsb (Z.eqb (status_code response)) [522; 503; 504]%Z
      then Some (Exception ("Server error ("
                            ++ pretty (status_code response) ++ ")"))
      else match raise_for_status response with
           | Raised e => Some e
           | Returned _ => None
           end
  end.

(** A world whose next response is a 429. *)
Definition rate_limited_world : Mock.world Response :=
  Mock.start [Returned (mkResponse 429 "Too Many Requests" "https://example.com/"
                                   "text/html" None [] "")].

(** An HTML page without links. *)
Definition plain_page : Response :=
  mkResponse 200 "OK" "https://example.com/b;p" "text/html" (Some "B") [] "some text".

End ScraperNotions.

Section PipelineNotions.
Import Youtube Mock.

(** Decreasing order of the scores. *)
Definition score_ge (x y : comment * Q) : Prop := (snd y <= snd x)%Q.

(** [d = dict(c); d["similarity_score"] = score] *)
Definition to_scored (p : comment * Q) : scored_comment := mkScored (fst p) (snd p).

(** [score >= min_similarity] *)
Definition above (floor : Q) (p : comment * Q) : bool := Qle_bool floor (snd p).

(** Decreasing order of the similarity scores of the output. *)
Definition score_order (a b : scored_comment) : Prop :=
  (similarity_score b <= similarity_score a)%Q.

(** The errors after which the loop of [execute_with_retry] goes on. *)
Definition retried (e : exn) : bool :=
  match e with
  | HttpError _ _ => _is_retryable_http_error e
  | _ => true
  end.

(** The outcomes that end the loop at once: a result, or an error that
    is not retried. *)
Definition settles {A} (o : outcome A) : bool :=
  match o with
  | Returned _ => true
  | Raised e => negb (retried e)
  end.

(** [backoff ** a], ..., [backoff ** (a + n - 1)] *)
Definition backoff_sleeps (backoff : Q) (a : Z) (n : nat) : list Q :=
  map (fun i => (backoff ^ (a + Z.of_nat i))%Q) (seq 0 n).

(** A question, and the items of a comment thread: one without a letter,
    on which language detection fails, and one that answers the
    question. *)
Definition durable_question : string := "How durable is the bag?".

Definition digits_item : item :=
  Some (mkSnippet (Some "12345 67890 12345 67890 12345 67890") (Some "bot") (Some 0%Z)
                  (Some "2024-01-01T00:00:00Z")).

Definition durable_item : item :=
  Some (mkSnippet (Some "This bag is really durable, I used it for two years")
                  (Some "Ana") (Some 3%Z) (Some "2024-01-02T00:00:00Z")).

Definition durable_comment : comment :=
  mkComment "This bag is really durable, I used it for two years" "Ana" 3
            "2024-01-02T00:00:00Z".

(** A video whose comments are disabled, and a thread with the two items
    above, where the similarity service scores the surviving comment
    0.5. *)
Definition forbidden_world : world (list item) :=
  start [Raised (HttpError (Some 403%Z) "commentsDisabled")].

Definition detection_failure_world : world (list item) :=
  mkWorld 0 [Returned [digits_item; durable_item]] 0 [] (Returned [0.5%Q]).

(** A thread with the comment that answers the question, where the
    similarity service raises. *)
Definition similarity_failure_world : world (list item) :=
  mkWorld 0 [Returned [durable_item]] 0 [] (Raised (Exception "encode failed")).

End PipelineNotions.

Section ProgressNotions.
Import SmartWebScraper.

(** The bookkeeping of the scraper between a state [s] and a later state
    [s']: the page cap is fixed, summaries and counters only grow, every
    new summary is matched by a new request, every new rate-limit hit or
    breaker trip by a new error, and failed URLs stay among the visited
    ones. *)
Record progress (s s' : t) : Prop := mkProgress {
  pr_max_pages : max_pages s' = max_pages s;
  pr_summaries : (length (page_summaries s) <= length (page_summaries s'))%nat;
  pr_requests :
    (Z.of_nat (length (page_summaries s')) - Z.of_nat (length (page_summaries s))
     <= requests_made (stats s') - requests_made (stats s))%Z;
  pr_filtered : (urls_filtered (stats s) <= urls_filtered (stats s'))%Z;
  pr_rate : (rate_limit_hits (stats s) <= rate_limit_hits (stats s'))%Z;
  pr_trips : (circuit_breaker_trips (stats s) <= circuit_breaker_trips (stats s'))%Z;
  pr_errors :
    (rate_limit_hits (stats s') - rate_limit_hits (stats s)
     + (circuit_breaker_trips (stats s') - circuit_breaker_trips (stats s))
     <= errors_encountered (stats s') - errors_encountered (stats s))%Z;
  pr_failed : failed_urls s ⊆ visited s -> failed_urls s' ⊆ visited s'
}.

(** What holds across the handling of a response: only the queues and
    the filter counter change. *)
Definition same_books (s s' : t) : Prop :=
  max_pages s' = max_pages s
  /\ page_summaries s' = page_summaries s
  /\ visited s' = visited s /\ failed_urls s' = failed_urls s
  /\ requests_made (stats s') = requests_made (stats s)
  /\ errors_encountered (stats s') = errors_encountered (stats s)
  /\ rate_limit_hits (stats s') = rate_limit_hits (stats s)
  /\ circuit_breaker_trips (stats s') = circuit_breaker_trips (stats s)
  /\ (urls_filtered (stats s) <= urls_filtered (stats s'))%Z.

End ProgressNotions.

Section TextNotions.
Import PyStr UrlParse Youtube.

(** [t] occurs in [s]. *)
Definition substring (t s : string) : Prop :=
  exists p q, s = (p ++ t ++ q)%string.

(** A token under construction: it starts with a letter and consists of
    letters and hyphens. *)
Definition token_ok (acc : string) : Prop :=
  (exists a r, acc = String a r /\ isalpha a = true)
  /\ forallb token_char acc = true.

(** Blanks of [s] are single spaces. *)
Fixpoint collapsed (s : string) : bool :=
  match s with
  | EmptyString => true
  | String a s' =>
      (if isspace a
       then Ascii.eqb a " "
            && match s' with
               | String b _ => negb (isspace b)
               | EmptyString => true
               end
       else true)
      && collapsed s'
  end.

(** A parse result with another fragment. *)
Definition with_fragment (r : ParseResult) (f : string) : ParseResult :=
  {| scheme := scheme r; netloc := netloc r; path := path r; params := params r;
     query := query r; fragment := f |}.

End TextNotions.

Section RelevanceNotions.
Import Youtube.
Context {W : Type} `{YouTube W}.

(** What [collect_raw] keeps: the normalised text of an item, which
    passed [looks_meaningful] and in which [detect] found English. *)
Definition kept (cfg : config) (items : list item) (c : comment) : Prop :=
  looks_meaningful cfg (text c) = true
  /\ (exists sn, In (Some sn) items
                 /\ text c = normalize (default "" (textDisplay sn)))
  /\ (exists w1 : W, fst (detect (text c) w1) = Returned "en").

End RelevanceNotions.

Section ExampleNotions.
Import SmartWebScraper Youtube YoutubeSearch.

(** A response that is not HTML. *)
Definition pdf_response : Response :=
  mkResponse 200 "OK" "https://example.com/report" "application/pdf" None [] "".

(** A scraper whose server-error breaker is [cb]. *)
Definition with_breaker (s : t) (cb : CircuitBreaker.t) : t :=
  set_cb_server_error s cb.

(** Two items of a [videos.list] response, and one whose view count is
    not a number. *)
Definition small_video : video_item :=
  mkVideoItem (Some "a1") (Some "Unboxing") (Some "2024-01-01T00:00:00Z")
              (Some "Ana") (Some "") (Some "5") (Some "1") None.

Definition big_video : video_item :=
  mkVideoItem (Some "b2") (Some "Review") (Some "2024-02-01T00:00:00Z")
              (Some "Ben") (Some "") (Some "12") (Some "3") (Some "4").

Definition odd_video : video_item :=
  mkVideoItem (Some "c3") (Some "Haul") None None None (Some "1.2K") None None.

(** Search results for the brand Acme: two on topic, with the same
    video id, and one off topic. *)
Definition acme_result (title id : string) : search_result :=
  mkSearchResult (Some (mkVideoSnippet (Some title) None None)) (Some id).

Definition acme_search_world : Mock.world (list search_result) :=
  Mock.start [Returned [acme_result "Acme bag review" "v1";
                        acme_result "Cooking pasta" "v9";
                        acme_result "ACME   unboxing" "v1"];
              Returned [acme_result "My acme wallet" "v2"]].

End ExampleNotions.


(** * Properties *)

Section CircuitBreakerProperties.
Import CircuitBreaker.

Lemma Qgtb_true x y : Qgtb x y = true <-> (y < x)%Q.
Proof.
  unfold Qgtb. rewrite negb_true_iff. split; intros H.
  - apply Qnot_le_lt. intros Hle. apply Qle_bool_iff in Hle. congruence.
  - destruct (Qle_bool x y) eqn:E; auto. apply Qle_bool_iff in E. lra.
Qed.

Lemma Qgtb_false x y : Qgtb x y = false <-> (x <= y)%Q.
Proof.
  unfold Qgtb. rewrite negb_false_iff. apply Qle_bool_iff.
Qed.

Lemma counted_raises {W A} (f : callable W A) :
  always_raises f -> always_raises (counted f).
Proof.
  intros Hf [w n]. destruct (Hf w) as (e & w' & Hw).
  exists e, (w', S n). unfold counted. now rewrite Hw.
Qed.

Lemma call_closed_raise {W A} (time : W -> Q) cb (f : callable W A) w e w' :
  state cb = closed -> f w = (Raised e, w') ->
  call time cb f w = (Raised e, on_failure cb (time w'), w').
Proof.
  intros Hs Hf. unfold call, gate. now rewrite Hs, Hf.
Qed.

Lemma call_closed_return {W A} (time : W -> Q) cb (f : callable W A) w r w' :
  state cb = closed -> f w = (Returned r, w') ->
  call time cb f w = (Returned r, cb, w').
Proof.
  intros Hs Hf. unfold call, gate, on_success. now rewrite Hs, Hf, Hs.
Qed.

(** Failing calls on a closed breaker that stay within the threshold are
    all let through, each one is counted, and the breaker opens exactly
    when the count meets the threshold. *)
Lemma run_failing_counted {W A} (time : W -> Q) (fs : list (callable W A)) :
  forall cb w n,
    Forall always_raises fs ->
    state cb = closed ->
    (failure_count cb + Z.of_nat (length fs) <= failure_threshold cb)%Z ->
    exists os cb' w',
      run (counted_time time) cb (map counted fs) (w, n)
      = (os, cb', (w', (n + length fs)%nat))
      /\ Forall (fun o => is_raised o = true) os
      /\ length os = length fs
      /\ failure_threshold cb' = failure_threshold cb
      /\ recovery_timeout cb' = recovery_timeout cb
      /\ failure_count cb' = (failure_count cb + Z.of_nat (length fs))%Z
      /\ (fs <> [] -> last_failure_time cb' = Some (time w'))
      /\ state cb' =
         if ((failure_threshold cb <=? failure_count cb')%Z
             && negb (Nat.eqb (length fs) 0))%bool
         then open else closed.
Proof.
  induction fs as [|f fs IH]; intros cb w n Hall Hs Hle.
  - exists [], cb, w. cbn. rewrite Nat.add_0_r, Z.add_0_r, andb_false_r.
    repeat split; auto. congruence.
  - inversion Hall as [|? ? Hf Hfs]; subst.
    destruct (Hf w) as (e & w1 & Hw).
    cbn [map run].
    rewrite (call_closed_raise (counted_time time) cb (counted f) (w, n) e (w1, S n));
      [| assumption | unfold counted; now rewrite Hw].
    cbn [length] in Hle. rewrite Nat2Z.inj_succ in Hle.
    set (cb1 := on_failure cb (counted_time time (w1, S n))).
    destruct fs as [|f2 fs2].
    + exists [Raised e], cb1, w1. cbn.
      replace (n + 1)%nat with (S n) by lia.
      repeat split; auto.
      rewrite andb_true_r.
      destruct (Z.leb_spec (failure_threshold cb) (failure_count cb + 1)); auto.
    + assert (Hs1 : state cb1 = closed).
      { subst cb1. cbn. cbn [length] in Hle.
        destruct (Z.leb_spec (failure_threshold cb) (failure_count cb + 1)); [lia | assumption]. }
      destruct (IH cb1 w1 (S n) Hfs Hs1) as (os & cb' & w' & Hrun & Hos & Hlen & Ht & Hr & Hc & Hl & Hst).
      { subst cb1. cbn [failure_count failure_threshold on_failure]. lia. }
      rewrite Hrun. exists (Raised e :: os), cb', w'.
      replace (n + length (f :: f2 :: fs2))%nat with (S n + length (f2 :: fs2))%nat by (cbn; lia).
      repeat split; auto.
      all: try (cbn; now rewrite Hlen).
      all: try (rewrite Hc; subst cb1; cbn [failure_count on_failure length]; lia).
      all: try (intros _; apply Hl; congruence).
Qed.

Section CircuitBreakerProps.
Context {W : Type} (time : W -> Q).

Lemma gate_open_early cb now tl :
  state cb = open -> last_failure_time cb = Some tl ->
  (now - tl <= recovery_timeout cb)%Q ->
  gate cb now = inl circuit_open.
Proof.
  intros Hs Hl Hle. unfold gate. rewrite Hs, Hl.
  apply Qgtb_false in Hle. now rewrite Hle.
Qed.


(** C1. A breaker constructed with a positive [failure_threshold] stays
    closed while fewer failing calls than the threshold have been made,
    and is open after exactly [failure_threshold] consecutive failing
    calls, each of which invoked the wrapped function. The time it has
    recorded is the clock reading [time w'] at which the last of these
    calls failed. From then on, every call made at a clock reading no
    more than [recovery_timeout] seconds after [time w'] raises the
    circuit-open error, leaves the breaker as it is and does not invoke
    the wrapped function: the invocation counter of the instrumented
    function does not move. *)
Theorem breaker_opens_after_threshold_failures
    {A} (thr : Z) (rt : Q) (fs : list (callable W A)) (w : W) :
  (0 < thr)%Z ->
  Z.of_nat (length fs) = thr ->
  Forall always_raises fs ->
  exists os cb' w',
    run (counted_time time) (init thr rt) (map counted fs) (w, 0%nat)
    = (os, cb', (w', length fs))
    /\ Forall (fun o => is_raised o = true) os
    /\ state cb' = open
    /\ last_failure_time cb' = Some (time w')
    /\ (forall k, (k < length fs)%nat ->
          state (snd (fst (run (counted_time time) (init thr rt)
                               (map counted (firstn k fs)) (w, 0%nat))))
          = closed)
    /\ (forall (g : callable W A) w2 n,
          (time w2 - time w' <= rt)%Q ->
          call (counted_time time) cb' (counted g) (w2, n)
          = (Raised circuit_open, cb', (w2, n))).
Proof.
  intros Hpos Hlen Hall.
  destruct (run_failing_counted time fs (init thr rt) w 0 Hall eq_refl)
    as (os & cb' & w' & Hrun & Hos & _ & Ht & Hr & Hc & Hl & Hst).
  { cbn. lia. }
  assert (Hne : fs <> []) by (intros ->; cbn in Hlen; lia).
  pose proof (Hl Hne) as Htl.
  assert (Hopen : state cb' = open).
  { rewrite Hst, Hc. cbn [init failure_count failure_threshold].
    destruct fs; [congruence|]. cbn [length Nat.eqb negb] in *.
    rewrite andb_true_r. destruct (Z.leb_spec thr (0 + Z.of_nat (S (length fs)))); [reflexivity | lia]. }
  exists os, cb', w'. repeat split; auto.
  - intros k Hk.
    assert (Hall' : Forall always_raises (firstn k fs)) by now apply Forall_take.
    destruct (run_failing_counted time (firstn k fs) (init thr rt) w 0 Hall' eq_refl)
      as (os1 & cb1 & w1 & Hrun1 & _ & _ & _ & _ & Hc1 & _ & Hst1).
    { cbn. rewrite length_firstn. lia. }
    rewrite Hrun1. cbn [fst snd]. rewrite Hst1, Hc1.
    cbn [init failure_count failure_threshold]. rewrite length_firstn.
    destruct (Z.leb_spec thr (0 + Z.of_nat (Nat.min k (length fs)))); [lia | reflexivity].
  - intros g w2 n Hle. unfold call.
    rewrite (gate_open_early cb' _ (time w')); auto.
    cbn [counted_time]. now rewrite Hr.
Qed.
End CircuitBreakerProps.

Lemma call_inv {W A} (time : W -> Q) cb (f : callable W A) w :
  breaker_inv cb ->
  let cb' := snd (fst (call time cb f w)) in
  breaker_inv cb' /\ failure_threshold cb' = failure_threshold cb
  /\ recovery_timeout cb' = recovery_timeout cb.
Proof.
  unfold breaker_inv, call, gate. intros Hinv.
  destruct (state cb) eqn:Hs; [| | contradiction].
  - destruct (f w) as [[r|e] w']; cbn; unfold on_success; rewrite ?Hs; cbn; auto.
    destruct (Z.leb_spec (failure_threshold cb) (failure_count cb + 1)); cbn; rewrite ?Hs; eauto.
  - destruct Hinv as [Hle [tl Htl]]. rewrite Htl.
    destruct (Qgtb _ _); cbn; [| rewrite Hs; eauto].
    destruct (f w) as [[r|e] w']; cbn; auto.
    destruct (Z.leb_spec (failure_threshold cb) (failure_count cb + 1)); cbn; [eauto | lia].
Qed.

Lemma reachable_inv {W} (time : W -> Q) thr rt cb :
  reachable time thr rt cb ->
  breaker_inv cb /\ failure_threshold cb = thr /\ recovery_timeout cb = rt.
Proof.
  induction 1 as [|A cb f w _ (Hi & Ht & Hr)].
  - cbn. auto.
  - destruct (call_inv time cb f w Hi) as (Hi' & Ht' & Hr').
    split; [assumption | split; congruence].
Qed.

Section CircuitBreakerProps2.
Context {W : Type} (time : W -> Q).




Lemma count_raised_nonneg {A} (os : list (outcome A)) : (0 <= count_raised os)%Z.
Proof. induction os as [|[r|e] os IH]; cbn [count_raised is_raised]; lia. Qed.

Lemma run_closed_counts {A} (fs : list (callable W A)) :
  forall cb w os cb' w',
    state cb = closed ->
    run time cb fs w = (os, cb', w') ->
    (failure_count cb + count_raised os < failure_threshold cb)%Z ->
    state cb' = closed
    /\ failure_count cb' = (failure_count cb + count_raised os)%Z
    /\ failure_threshold cb' = failure_threshold cb.
Proof.
  induction fs as [|f fs IH]; intros cb w os cb' w' Hs Hrun Hlt.
  - cbn in Hrun. inversion Hrun; subst. cbn [count_raised].
    repeat split; auto. lia.
  - cbn [run] in Hrun.
    destruct (f w) as [[r|e] w1] eqn:Hf.
    + rewrite (call_closed_return time cb f w r w1 Hs Hf) in Hrun.
      destruct (run time cb fs w1) as [[os1 cb1] w2] eqn:Hrun1.
      inversion Hrun; subst.
      assert (Hc : count_raised (Returned r :: os1) = count_raised os1) by reflexivity.
      rewrite Hc in *. eapply IH; eauto.
    + rewrite (call_closed_raise time cb f w e w1 Hs Hf) in Hrun.
      destruct (run time (on_failure cb (time w1)) fs w1) as [[os1 cb1] w2] eqn:Hrun1.
      inversion Hrun; subst.
      assert (Hc : count_raised (@Raised A e :: os1) = (1 + count_raised os1)%Z).
      { reflexivity. }
      rewrite Hc in *.
      pose proof (count_raised_nonneg os1) as Hnn.
      assert (Hs1 : state (on_failure cb (time w1)) = closed).
      { cbn. destruct (Z.leb_spec (failure_threshold cb) (failure_count cb + 1)); [lia | assumption]. }
      destruct (IH _ _ _ _ _ Hs1 Hrun1) as (Hs' & Hc' & Ht').
      { cbn [on_failure failure_count failure_threshold]. lia. }
      cbn [on_failure failure_count failure_threshold] in *.
      repeat split; auto. lia.
Qed.

(** C10. A successful call on a closed breaker leaves the breaker, and
    so its failure counter, unchanged. Hence, over any sequence of calls
    on a fresh breaker, the counter equals the number of failures so far
    as long as that number is below the threshold, whatever successes
    lie between them, and the failure that brings the total to
    [failure_threshold] opens the breaker. *)
Theorem closed_success_keeps_failure_count :
  (forall A (cb : t) (f : callable W A) w r w',
      state cb = closed -> f w = (Returned r, w') ->
      call time cb f w = (Returned r, cb, w'))
  /\ (forall A thr rt (fs : list (callable W A)) w os cb1 w1,
        run time (init thr rt) fs w = (os, cb1, w1) ->
        (count_raised os < thr)%Z ->
        state cb1 = closed /\ failure_count cb1 = count_raised os)
  /\ (forall A thr rt (fs : list (callable W A)) w os cb1 w1
             (f : callable W A) e w2,
        run time (init thr rt) fs w = (os, cb1, w1) ->
        count_raised os = (thr - 1)%Z ->
        f w1 = (Raised e, w2) ->
        exists cb2,
          call time cb1 f w1 = (Raised e, cb2, w2)
          /\ state cb2 = open /\ failure_count cb2 = thr).
Proof.
  split; [|split].
  - intros. now apply call_closed_return.
  - intros A thr rt fs w os cb1 w1 Hrun Hlt.
    destruct (run_closed_counts fs (init thr rt) w os cb1 w1 eq_refl Hrun) as (Hs & Hc & _).
    { cbn. lia. }
    cbn in Hc. rewrite Z.add_0_l in Hc || idtac. auto.
  - intros A thr rt fs w os cb1 w1 f e w2 Hrun Hcnt Hf.
    destruct (run_closed_counts fs (init thr rt) w os cb1 w1 eq_refl Hrun) as (Hs & Hc & Ht).
    { cbn. lia. }
    cbn in Hc, Ht.
    rewrite (call_closed_raise time cb1 f w1 e w2 Hs Hf).
    eexists. split; [reflexivity|]. cbn.
    destruct (Z.leb_spec (failure_threshold cb1) (failure_count cb1 + 1)); [split; [reflexivity | lia] | lia].
Qed.
End CircuitBreakerProps2.

Lemma tick_fail_raises : always_raises tick_fail.
Proof. intros w. exists (Exception "boom"), (Qred (w + 1)). reflexivity. Defined.

(** C1 at threshold 3, on a clock world and a function that always
    raises. *)
Lemma breaker_opens_after_threshold_failures_witness :
  (0 < 3)%Z
  /\ Z.of_nat (length [tick_fail; tick_fail; tick_fail]) = 3%Z
  /\ exists os cb' w',
      run (counted_time id) (init 3 300)
          (map counted [tick_fail; tick_fail; tick_fail]) (0%Q, 0%nat)
      = (os, cb', (w', 3%nat))
      /\ Forall (fun o => is_raised o = true) os
      /\ state cb' = open
      /\ last_failure_time cb' = Some (id w')
      /\ (forall k, (k < 3)%nat ->
            state (snd (fst (run (counted_time id) (init 3 300)
                                 (map counted (firstn k [tick_fail; tick_fail; tick_fail]))
                                 (0%Q, 0%nat))))
            = closed)
      /\ (forall (g : callable Q Z) w2 n,
            (id w2 - id w' <= 300)%Q ->
            call (counted_time id) cb' (counted g) (w2, n)
            = (Raised circuit_open, cb', (w2, n))).
Proof.
  split; [lia|]. split; [reflexivity|].
  apply (breaker_opens_after_threshold_failures id 3 300
           [tick_fail; tick_fail; tick_fail] 0%Q).
  - lia.
  - reflexivity.
  - repeat constructor; apply tick_fail_raises.
Defined.


(** C10 at threshold 2: a failure, a success, and the failure that opens
    the breaker. *)
Lemma closed_success_keeps_failure_count_witness :
  count_raised (fst (fst (run id (init 2 300) [tick_fail; tick_ok] 0%Q))) = (2 - 1)%Z
  /\ exists cb2,
      call id (snd (fst (run id (init 2 300) [tick_fail; tick_ok] 0%Q))) tick_fail
           (snd (run id (init 2 300) [tick_fail; tick_ok] 0%Q))
      = (Raised (Exception "boom"), cb2,
         Qred (snd (run id (init 2 300) [tick_fail; tick_ok] 0%Q) + 1))
      /\ state cb2 = open /\ failure_count cb2 = 2%Z.
Proof.
  split; [reflexivity|].
  eapply (proj2 (proj2 (closed_success_keeps_failure_count id))
            Z 2%Z 300%Q [tick_fail; tick_ok] 0%Q).
  - vm_compute. reflexivity.
  - reflexivity.
  - reflexivity.
Defined.


End CircuitBreakerProperties.

Section UrlProperties.
Import UrlParse SmartURLValidator SmartWebScraper.

(** What the validator does enforce on the host: a valid URL has scheme
    http or https, and its host, lowercased and with every occurrence of
    [www.] deleted, is the base domain of the validator. *)
Lemma valid_url_same_stripped_domain v url :
  is_valid_url v url = true ->
  exists parsed,
    urlparse url = Returned parsed
    /\ PyStr.mem (scheme parsed) ["http"; "https"] = true
    /\ PyStr.lower (PyStr.replace "www." "" (netloc parsed))
       = SmartURLValidator.base_domain v.
Proof.
  unfold is_valid_url. destruct (_ || _); [discriminate|].
  destruct (urlparse url) as [parsed|e]; [| discriminate].
  destruct (PyStr.mem (scheme parsed) _) eqn:Hs; cbn [negb]; [| discriminate].
  destruct (String.eqb _ _) eqn:Hd; cbn [negb]; [| discriminate].
  intros _. exists parsed. apply String.eqb_eq in Hd. auto.
Qed.

(** C8: the failing input. The host [exawww.mple.com] is not the base
    domain [example.com], with or without a leading [www.], and the
    validator accepts the URL, because it deletes every occurrence of
    [www.] from the host before comparing. The example of the
    specification, [https://other.com/page], is rejected. *)
Lemma cross_domain_url_accepted :
  let v := SmartURLValidator.init "example.com" in
  (exists parsed,
      urlparse "https://exawww.mple.com/page" = Returned parsed
      /\ netloc parsed = "exawww.mple.com")
  /\ SmartURLValidator.base_domain v = "example.com"
  /\ is_valid_url v "https://exawww.mple.com/page" = true
  /\ is_valid_url v "https://other.com/page" = false.
Proof.
  cbv zeta. split; [eexists; split; vm_compute; reflexivity|].
  vm_compute. repeat split; reflexivity.
Qed.

(** C6: the failing input. A URL that the validator accepts and whose
    last path segment carries parameters before a trailing slash is
    normalised to a string that normalises to something else. *)
Lemma normalize_url_not_idempotent :
  is_valid_url (SmartURLValidator.init "example.com") "https://example.com/b;p/" = true
  /\ normalize_url "https://example.com/b;p/" = Returned "https://example.com/b;p"
  /\ normalize_url "https://example.com/b;p" = Returned "https://example.com/b".
Proof. vm_compute. repeat split; reflexivity. Qed.

(** The consequence for the frontier: the crawler queues the first
    normal form, marks the second one visited when it scrapes the
    dequeued URL, and so queues the same link again. *)
Lemma normalize_twice_defeats_visited_check :
  exists s0,
    SmartWebScraper.init "https://example.com" 50 = Returned s0
    /\ (let '(_, s1) := add_url s0 "https://example.com/b;p/" 0 in
        let '(_, s2) := get_next_url s1 in
        let '(u, s3) := get_next_url s2 in
        let '(_, s4, _) := scrape_page "https://example.com/b;p" s3
                                       (Mock.start [Returned plain_page]) in
        u = Some "https://example.com/b;p"
        /\ bool_decide ("https://example.com/b;p" ∈ visited s4) = false
        /\ bool_decide ("https://example.com/b" ∈ visited s4) = true
        /\ regular_urls (snd (add_url s4 "https://example.com/b;p/" 0))
           = ["https://example.com/b;p"]).
Proof.
  eexists. split; [vm_compute; reflexivity|].
  vm_compute. repeat split; reflexivity.
Qed.
End UrlProperties.

Section ScraperProperties.
Import SmartWebScraper.

Lemma py_max_spec a b : (a <= py_max a b /\ b <= py_max a b)%Q.
Proof.
  unfold py_max. destruct (Qgtb b a) eqn:E.
  - apply Qgtb_true in E. lra.
  - apply Qgtb_false in E. lra.
Qed.

Lemma py_min_spec a b : (py_min a b <= a /\ py_min a b <= b)%Q.
Proof.
  unfold py_min. destruct (Qgtb a b) eqn:E.
  - apply Qgtb_true in E. lra.
  - apply Qgtb_false in E. lra.
Qed.

Lemma py_min_glb a b c : (c <= a -> c <= b -> c <= py_min a b)%Q.
Proof. unfold py_min. destruct (Qgtb a b); auto. Qed.

Lemma py_max_lub a b c : (a <= c -> b <= c -> py_max a b <= c)%Q.
Proof. unfold py_max. destruct (Qgtb b a); auto. Qed.

Lemma mem_true_iff x l : PyStr.mem x l = true <-> In x l.
Proof.
  unfold PyStr.mem. rewrite existsb_exists. split.
  - intros (y & Hy & Heq). apply String.eqb_eq in Heq. now subst.
  - intros Hin. exists x. split; [assumption | apply String.eqb_refl].
Qed.

Lemma ext_refl s : ext s s.
Proof. constructor; auto. Qed.

Lemma ext_trans s1 s2 s3 : ext s1 s2 -> ext s2 s3 -> ext s1 s3.
Proof.
  intros [] []. constructor; try (etransitivity; eassumption); auto.
  intros Hm Hd. apply ext_delay1; [congruence | auto].
Qed.

Lemma NoDup_snoc (x : string) l :
  PyStr.mem x l = false -> NoDup l -> NoDup (l ++ [x]).
Proof.
  intros Hm Hl. apply NoDup_app. repeat split; auto.
  - intros y Hy Hin. apply list_elem_of_singleton in Hin. subst.
    apply list_elem_of_In, mem_true_iff in Hy. congruence.
  - apply NoDup_singleton.
Qed.

Lemma add_url_ext s url priority : ext s (snd (add_url s url priority)).
Proof.
  unfold add_url.
  destruct (SmartURLValidator.is_valid_url _ _); cbn [negb]; [| constructor; cbn; auto].
  destruct (normalize_url url) as [n|e]; [| apply ext_refl].
  destruct (_ || _); [apply ext_refl|].
  destruct (SmartURLValidator.get_url_priority _ _) as [p|e]; [| apply ext_refl].
  destruct (8 <=? priority + p)%Z.
  - unfold in_queue. destruct (PyStr.mem n (priority_urls s)) eqn:Hm; cbn [negb]; [apply ext_refl|].
    constructor; cbn; auto. intros. now apply NoDup_snoc.
  - unfold in_queue. destruct (PyStr.mem n (regular_urls s)) eqn:Hm; cbn [negb]; [apply ext_refl|].
    constructor; cbn; auto. intros. now apply NoDup_snoc.
Qed.

Lemma get_next_url_ext s : ext s (snd (get_next_url s)).
Proof.
  unfold get_next_url. destruct (_ <=? _)%Z; [apply ext_refl|].
  destruct (priority_urls s) as [|u rest] eqn:Hp.
  - destruct (regular_urls s) as [|u rest] eqn:Hr; [apply ext_refl|].
    constructor; cbn; rewrite ?Hp, ?Hr; auto.
    intros Hn. now inversion Hn.
  - constructor; cbn; rewrite ?Hp; auto.
    intros Hn. now inversion Hn.
Qed.

Lemma delay_after_success_bounds s :
  min_delay s = 2%Q -> (2 <= adaptive_delay s <= 15)%Q ->
  (2 <= delay_after_success s <= 15)%Q.
Proof.
  intros Hm [Hlo Hhi]. unfold delay_after_success. rewrite Hm.
  pose proof (py_max_spec (adaptive_delay s * 0.9) 2) as [_ H2].
  split; [assumption|]. apply py_max_lub; lra.
Qed.

Lemma delay_after_breaker_trip_bounds s :
  (2 <= adaptive_delay s)%Q ->
  (2 <= delay_after_breaker_trip s <= 10)%Q.
Proof.
  intros Hlo. unfold delay_after_breaker_trip.
  pose proof (py_min_spec (adaptive_delay s * 1.5) 10) as [_ H2].
  split; [| assumption]. apply py_min_glb; lra.
Qed.

Lemma delay_after_rate_limit_bounds s :
  (2 <= adaptive_delay s)%Q ->
  (2 <= delay_after_rate_limit s <= 15)%Q.
Proof.
  intros Hlo. unfold delay_after_rate_limit.
  pose proof (py_min_spec (adaptive_delay s * 2) 15) as [_ H2].
  split; [| assumption]. apply py_min_glb; lra.
Qed.

Section ScraperPreservation.
Context {W : Type} `{World W}.

Lemma smart_delay_ext s (w : W) : ext s (fst (smart_delay s w)).
Proof. unfold smart_delay. constructor; cbn; auto. Qed.

Lemma add_links_ext links : forall s n, ext s (snd (add_links s links n)).
Proof.
  induction links as [|link rest IH]; intros s n; cbn [add_links].
  - apply ext_refl.
  - destruct (SmartURLValidator.is_valid_url _ _); [| apply IH].
    pose proof (add_url_ext s link 0) as He.
    destruct (add_url s link 0) as [[u|e] s']; cbn [snd] in *; [| assumption].
    eapply ext_trans; [eassumption | apply IH].
Qed.

Lemma process_response_ext url response s :
  ext s (snd (_process_response url response s)).
Proof.
  unfold _process_response. destruct (negb _); [apply ext_refl|].
  pose proof (add_links_ext (page_links response) s 0) as He.
  destruct (add_links s (page_links response) 0) as [[n|e] s']; assumption.
Qed.

Lemma make_request_ext url s (w : W) :
  ext s (fst (snd (_make_request url (s, w)))).
Proof.
  unfold _make_request.
  assert (H0 : ext s (set_stats s (incr_requests_made (stats s))))
    by (constructor; cbn; auto).
  destruct (session_get url w) as [[response|e] w']; [| assumption].
  destruct (_ =? 429)%Z; [assumption|].
  destruct (existsb _ _); [assumption|].
  destruct (raise_for_status response); [| assumption].
  match goal with
  | |- context [_process_response url response ?s1] =>
      pose proof (process_response_ext url response s1) as He;
      destruct (_process_response url response s1) as [o s2];
      assert (H1 : ext s s1)
  end.
  { constructor; cbn; auto. intros Hm Hd.
    apply (delay_after_success_bounds (set_stats s (incr_requests_made (stats s)))); auto. }
  cbn [fst snd] in *. eapply ext_trans; eassumption.
Qed.

Lemma scrape_page_ext url s (w : W) :
  ext s (snd (fst (scrape_page url s w))).
Proof.
  unfold scrape_page.
  destruct (normalize_url url) as [n|e]; [| apply ext_refl].
  destruct (bool_decide _); [apply ext_refl|].
  set (s1 := set_visited s ({[n]} ∪ visited s)).
  assert (H1 : ext s s1) by (constructor; cbn; auto; apply union_subseteq_r).
  destruct (negb _); [assumption|].
  pose proof (smart_delay_ext s1 w) as H2.
  destruct (smart_delay s1 w) as [s2 w2]. cbn [fst] in H2.
  unfold CircuitBreaker.call.
  destruct (CircuitBreaker.gate _ _) as [e|cb1].
  - (* the breaker is open *)
    cbn [str CircuitBreaker.circuit_open]. 
    eapply ext_trans; [eassumption|]. eapply ext_trans; [eassumption|].
    cbn [fst snd].
    match goal with |- context [if ?b then _ else _] => destruct b end;
      [| match goal with |- context [if ?b then _ else _] => destruct b end ].
    all: constructor; cbn; auto; try apply union_subseteq_r.
    all: intros Hm [Hlo Hhi].
    + pose proof (delay_after_breaker_trip_bounds s2 Hlo) as Hb.
      unfold delay_after_breaker_trip in *. cbn. lra.
    + pose proof (delay_after_rate_limit_bounds s2 Hlo) as Hb.
      unfold delay_after_rate_limit in *. cbn. lra.
  - pose proof (make_request_ext url s2 w2) as H3.
    destruct (_make_request url (s2, w2)) as [[r|e] [s3 w3]]; cbn [fst snd] in *.
    + eapply ext_trans; [eassumption|]. eapply ext_trans; [eassumption|].
      eapply ext_trans; [eassumption|]. constructor; cbn; auto.
    + eapply ext_trans; [eassumption|]. eapply ext_trans; [eassumption|].
      eapply ext_trans; [eassumption|].
      match goal with |- context [if ?b then _ else _] => destruct b end;
        [| match goal with |- context [if ?b then _ else _] => destruct b end ].
      all: constructor; cbn; auto; try apply union_subseteq_r.
      all: intros Hm [Hlo Hhi].
      * pose proof (delay_after_breaker_trip_bounds s3 Hlo) as Hb.
        unfold delay_after_breaker_trip in *. cbn. lra.
      * pose proof (delay_after_rate_limit_bounds s3 Hlo) as Hb.
        unfold delay_after_rate_limit in *. cbn. lra.
Qed.

Lemma process_url_ext url s (w : W) :
  ext s (snd (fst (process_url url s w))).
Proof.
  unfold process_url. pose proof (scrape_page_ext url s w) as He.
  destruct (scrape_page url s w) as [[[[page|]|e] s1] w1]; cbn [fst snd] in *; auto.
  destruct (summarize_page page w1) as [sd w2]. cbn [fst snd].
  eapply ext_trans; [eassumption|]. constructor; cbn; auto.
Qed.

Lemma step_ext s s' : step s s' -> ext s s'.
Proof.
  destruct 1.
  - apply add_url_ext.
  - apply get_next_url_ext.
  - apply smart_delay_ext.
  - apply scrape_page_ext.
  - apply process_url_ext.
Qed.

Lemma reachable_ext s0 s : reachable s0 s -> ext s0 s.
Proof.
  induction 1 as [|s s' _ IH Hstep]; [apply ext_refl|].
  eapply ext_trans; [exact IH | now apply step_ext].
Qed.
End ScraperPreservation.

Lemma init_queues base_url max_pages s0 :
  init base_url max_pages = Returned s0 ->
  NoDup (priority_urls s0) /\ NoDup (regular_urls s0)
  /\ min_delay s0 = 2%Q /\ (2 <= adaptive_delay s0 <= 15)%Q.
Proof.
  unfold init. destruct (UrlParse.urlparse base_url) as [parsed|e]; [| discriminate].
  destruct (negb _); [discriminate|].
  match goal with
  | |- context [add_url ?s base_url 10] =>
      pose proof (add_url_ext s base_url 10) as He;
      destruct (add_url s base_url 10) as [[u|e] s1]; [| discriminate]
  end.
  intros [= <-]. destruct He as [_ _ _ Hp Hr _ Hm Hd]. cbn in *.
  repeat split; try (apply Hp || apply Hr; constructor); auto.
  all: apply Hd; auto; lra.
Qed.

Lemma apply_updates_bounds us : forall s,
  min_delay s = 2%Q -> (2 <= adaptive_delay s <= 15)%Q ->
  let s' := fold_left apply_update us s in
  min_delay s' = 2%Q /\ (2 <= adaptive_delay s' <= 15)%Q.
Proof.
  induction us as [|u us IH]; intros s Hm Hd; cbn [fold_left]; [auto|].
  apply IH; [assumption|]. destruct Hd as [Hlo Hhi].
  destruct u; cbn [apply_update set_adaptive_delay adaptive_delay].
  - now apply delay_after_success_bounds.
  - now apply delay_after_rate_limit_bounds.
  - pose proof (delay_after_breaker_trip_bounds s Hlo). lra.
Qed.

Section FrontierTheorems.
Context {W : Type} `{World W}.

Lemma add_url_known s url priority n :
  normalize_url url = Returned n ->
  n ∈ visited s \/ n ∈ failed_urls s ->
  priority_urls (snd (add_url s url priority)) = priority_urls s
  /\ regular_urls (snd (add_url s url priority)) = regular_urls s.
Proof.
  intros Hn Hin. unfold add_url.
  destruct (SmartURLValidator.is_valid_url _ _); cbn [negb]; [| split; reflexivity].
  rewrite Hn.
  assert (Hb : bool_decide (n ∈ visited s) || bool_decide (n ∈ failed_urls s) = true).
  { apply orb_true_iff. destruct Hin; [left | right]; now apply bool_decide_eq_true. }
  rewrite Hb. split; reflexivity.
Qed.

(** C2, as amended. In every scraper reachable from a constructed one,
    neither queue holds a canonical form twice; the visited and failed
    sets only grow; [add_url] leaves both queues unchanged when the
    canonical form of its URL is visited or failed; and [scrape_page]
    returns [None] without any request for a URL whose canonical form is
    visited. *)
Theorem frontier_queues_hold_each_url_once base_url max_pages s0 s :
  init base_url max_pages = Returned s0 ->
  reachable s0 s ->
  NoDup (priority_urls s) /\ NoDup (regular_urls s)
  /\ (forall s', reachable s s' ->
        visited s ⊆ visited s' /\ failed_urls s ⊆ failed_urls s')
  /\ (forall url priority n,
        normalize_url url = Returned n ->
        n ∈ visited s \/ n ∈ failed_urls s ->
        priority_urls (snd (add_url s url priority)) = priority_urls s
        /\ regular_urls (snd (add_url s url priority)) = regular_urls s)
  /\ (forall url n (w : W),
        normalize_url url = Returned n -> n ∈ visited s ->
        scrape_page url s w = (Returned None, s, w)).
Proof.
  intros Hinit Hreach.
  destruct (init_queues _ _ _ Hinit) as (Hp & Hr & _).
  destruct (reachable_ext _ _ Hreach) as [_ _ _ Hp' Hr' _ _ _].
  split; [auto|]. split; [auto|]. split; [|split].
  - intros s' Hs'. destruct (reachable_ext _ _ Hs') as [_ Hv Hf _ _ _ _ _]. auto.
  - intros url priority n. apply add_url_known.
  - intros url n w Hn Hin. unfold scrape_page. rewrite Hn.
    now rewrite bool_decide_eq_true_2.
Qed.

Lemma smart_delay_spacing `{!SleepAdvances W} s (w : W) t0 :
  last_request_time s !! domain s = Some t0 ->
  last_request_time (fst (smart_delay s w)) !! domain s
  = Some (time (snd (smart_delay s w)))
  /\ (t0 + adaptive_delay s <= time (snd (smart_delay s w)))%Q.
Proof.
  intros Ht. split.
  - unfold smart_delay. cbn. apply lookup_insert_eq.
  - unfold smart_delay. cbn [snd]. rewrite Ht. cbn [default]. unfold id.
    destruct (Qgtb _ _) eqn:Hg.
    + apply Qgtb_true in Hg.
      pose proof (sleep_advances (adaptive_delay s - (time w - t0)) w Hg). lra.
    + apply Qgtb_false in Hg. lra.
Qed.

(** X27. In every scraper reachable from a constructed one the adaptive
    delay is at least the minimum delay, and it stays between the minimum
    delay and 15 under any further sequence of updates; the delay after a
    success is at least the minimum, after a rate-limit response at most
    15 and after a circuit-breaker trip at most 10. *)
Theorem adaptive_delay_within_bounds base_url max_pages s0 s :
  init base_url max_pages = Returned s0 ->
  reachable s0 s ->
  (min_delay s <= adaptive_delay s)%Q
  /\ (forall us : list delay_update,
        let s' := fold_left apply_update us s in
        (min_delay s' <= adaptive_delay s' <= 15)%Q)
  /\ (min_delay s <= delay_after_success s)%Q
  /\ (min_delay s <= delay_after_rate_limit s <= 15)%Q
  /\ (min_delay s <= delay_after_breaker_trip s <= 10)%Q.
Proof.
  intros Hinit Hreach.
  destruct (init_queues _ _ _ Hinit) as (_ & _ & Hm0 & Hd0).
  destruct (reachable_ext _ _ Hreach) as [_ _ _ _ _ _ Hm Hd].
  specialize (Hd Hm0 Hd0). rewrite Hm0 in Hm. destruct Hd as [Hlo Hhi].
  pose proof (delay_after_success_bounds s Hm (conj Hlo Hhi)) as [Hs _].
  pose proof (delay_after_rate_limit_bounds s Hlo) as [Hr1 Hr2].
  pose proof (delay_after_breaker_trip_bounds s Hlo) as [Hb1 Hb2].
  rewrite Hm. split; [auto|]. split.
  { intros us. destruct (apply_updates_bounds us s Hm (conj Hlo Hhi)) as [Hm' Hd'].
    cbn zeta. now rewrite Hm'. }
  do 2 (split; [auto|]). auto.
Qed.

(** X28. [smart_delay] run by one worker at a time, each pass over
    before the next begins, on a clock where a sleep lasts at least as
    long as asked: the time that [smart_delay] records for a request to
    the host is at least [min_delay] seconds after the time recorded for
    the previous request to that host, and two consecutive passes, with
    no request recorded in between, end at least [min_delay] seconds
    apart. *)
Theorem sequential_requests_are_spaced `{!SleepAdvances W} base_url max_pages s0 s :
  init base_url max_pages = Returned s0 ->
  reachable s0 s ->
  (forall (w : W) t0,
      last_request_time s !! domain s = Some t0 ->
      last_request_time (fst (smart_delay s w)) !! domain s
      = Some (time (snd (smart_delay s w)))
      /\ (t0 + min_delay s <= time (snd (smart_delay s w)))%Q)
  /\ (forall (w1 : W) s2 (w2 : W),
        reachable (fst (smart_delay s w1)) s2 ->
        last_request_time s2 = last_request_time (fst (smart_delay s w1)) ->
        (time (snd (smart_delay s w1)) + min_delay s
         <= time (snd (smart_delay s2 w2)))%Q).
Proof.
  intros Hinit Hreach.
  destruct (init_queues _ _ _ Hinit) as (_ & _ & Hm0 & Hd0).
  destruct (reachable_ext _ _ Hreach) as [_ _ _ _ _ _ Hm Hd].
  specialize (Hd Hm0 Hd0). rewrite Hm0 in Hm. destruct Hd as [Hlo Hhi].
  rewrite Hm. split.
  - intros w t0 Ht. destruct (smart_delay_spacing s w t0 Ht) as [Hstamp Hsp].
    split; [exact Hstamp | lra].
  - intros w1 s2 w2 Hreach2 Hsame.
    destruct (smart_delay_ext s w1) as [Hdom1 _ _ _ _ _ Hm1 Hd1].
    destruct (reachable_ext _ _ Hreach2) as [Hdom2 _ _ _ _ _ Hm2 Hd2].
    assert (Hlo2 : (2 <= adaptive_delay s2)%Q).
    { apply Hd2; [congruence|]. apply Hd1; [assumption | split; assumption]. }
    assert (Hstamp : last_request_time s2 !! domain s2
                     = Some (time (snd (smart_delay s w1)))).
    { rewrite Hsame, Hdom2, Hdom1. unfold smart_delay. cbn. apply lookup_insert_eq. }
    destruct (smart_delay_spacing s2 w2 _ Hstamp) as [_ Hsp]. lra.
Qed.
End FrontierTheorems.

(** C2 as stated fails: the seed URL is queued, dequeued, queued again
    before it is marked visited, and dequeued a second time. *)
Lemma frontier_returns_same_url_twice :
  exists s0,
    init "https://example.com" 50 = Returned s0
    /\ normalize_url "https://example.com" = Returned "https://example.com/"
    /\ (let '(u1, s1) := get_next_url s0 in
        let '(_, s2) := add_url s1 "https://example.com" 10 in
        let '(u2, _) := get_next_url s2 in
        u1 = Some "https://example.com/" /\ u2 = Some "https://example.com/").
Proof.
  eexists. split; [vm_compute; reflexivity|].
  vm_compute. repeat split; reflexivity.
Qed.

(** The same canonical form queued in both queues. *)
Lemma frontier_same_url_in_both_queues :
  exists s0,
    init "https://example.com" 50 = Returned s0
    /\ normalize_url "https://example.com/blog/" = Returned "https://example.com/blog"
    /\ normalize_url "https://example.com/blog" = Returned "https://example.com/blog"
    /\ (let '(_, s1) := add_url s0 "https://example.com/blog/" 0 in
        let '(_, s2) := add_url s1 "https://example.com/blog" 0 in
        priority_urls s2 = ["https://example.com/"; "https://example.com/blog"]
        /\ regular_urls s2 = ["https://example.com/blog"]).
Proof.
  eexists. split; [vm_compute; reflexivity|].
  vm_compute. repeat split; reflexivity.
Qed.

(** C2, as amended, on the scraper of [https://example.com] after one more
    link was added. *)
Lemma frontier_queues_hold_each_url_once_witness :
  exists s0 : t,
    init "https://example.com" 50 = Returned s0
    /\ reachable (W := Mock.world Response) s0
         (snd (add_url s0 "https://example.com/blog/" 0))
    /\ NoDup (priority_urls (snd (add_url s0 "https://example.com/blog/" 0))).
Proof.
  eexists. split; [vm_compute; reflexivity|].
  match goal with
  | |- reachable ?s0 ?s /\ _ =>
      assert (Hr : reachable (W := Mock.world Response) s0 s)
        by (eapply reach_step; [apply reach_refl | apply step_add_url])
  end.
  split; [exact Hr|].
  eapply (proj1 (frontier_queues_hold_each_url_once (W := Mock.world Response)
                   "https://example.com" 50 _ _ _ Hr)).
  Unshelve. vm_compute. reflexivity.
Defined.

Lemma mock_sleep_advances : SleepAdvances (Mock.world Response).
Proof.
  intros d w _. cbn. unfold Mock.mock_sleep. cbn. rewrite Qred_correct. lra.
Qed.

(** X27 on the scraper of [https://example.com] after a rate-limited
    request. *)
Lemma adaptive_delay_within_bounds_witness :
  exists s0 : t,
    init "https://example.com" 50 = Returned s0
    /\ reachable (W := Mock.world Response) s0
         (snd (fst (scrape_page "https://example.com/" s0 rate_limited_world)))
    /\ (let s := snd (fst (scrape_page "https://example.com/" s0 rate_limited_world)) in
        (min_delay s <= adaptive_delay s)%Q).
Proof.
  eexists. split; [vm_compute; reflexivity|].
  match goal with
  | |- reachable ?s0 ?s /\ _ =>
      assert (Hr : reachable (W := Mock.world Response) s0 s)
        by (eapply reach_step; [apply reach_refl | apply step_scrape_page])
  end.
  split; [exact Hr|].
  eapply (proj1 (adaptive_delay_within_bounds (W := Mock.world Response)
                   "https://example.com" 50 _ _ _ Hr)).
  Unshelve. vm_compute. reflexivity.
Defined.

(** X28 on the scraper of [https://example.com]: a pass through
    [smart_delay] at time 1000, and a second one that begins at the same
    time and ends at 1002 or later. *)
Lemma sequential_requests_are_spaced_witness :
  exists s0 : t,
    init "https://example.com" 50 = Returned s0
    /\ (let w := Mock.mkWorld 1000 [] 0 [] (Returned []) : Mock.world Response in
        let s := fst (smart_delay s0 w) in
        last_request_time s !! domain s = Some 1000%Q
        /\ (1000 + min_delay s <= time (snd (smart_delay s w)))%Q).
Proof.
  eexists. split; [vm_compute; reflexivity|]. cbv zeta.
  split; [vm_compute; reflexivity|].
  match goal with
  | |- (_ <= time (snd (smart_delay (fst (smart_delay ?s0 ?w)) ?w)))%Q =>
      refine (proj2 (proj1 (sequential_requests_are_spaced (W := Mock.world Response)
                              (SleepAdvances0 := mock_sleep_advances)
                              "https://example.com" 50 s0 (fst (smart_delay s0 w)) _ _)
                           w 1000%Q _))
  end.
  - vm_compute. reflexivity.
  - eapply reach_step; [apply reach_refl | apply step_smart_delay].
  - vm_compute. reflexivity.
Defined.

Lemma rate_limit_doubles_delay :
  exists s0 : t,
    init "https://example.com" 50 = Returned s0
    /\ (let s := snd (fst (scrape_page "https://example.com/" s0 rate_limited_world)) in
        Qred (adaptive_delay s) = 4%Q /\ rate_limit_hits (stats s) = 1%Z).
Proof.
  eexists. split; [vm_compute; reflexivity|]. vm_compute. split; reflexivity.
Qed.


End ScraperProperties.

Section WorkerPoolProperties.
Import SmartWebScraper WorkerPool.

(** A worker that is alone in [smart_delay] leaves the scraper as the
    sequential [smart_delay] does, on a clock where a sleep lasts exactly
    as long as asked. *)
Lemma lone_worker_is_smart_delay {W : Type} `{World W} (s : t) (w : W) :
  (forall d, time (sleep d w) = (time w + d)%Q) ->
  let d := (adaptive_delay s
            - (time w - default 0 (last_request_time s !! domain s)))%Q in
  exists p',
    play (if Qgtb d 0 then [Enter 0; Tick d; Wake 0] else [Enter 0])
         (mkPool s (time w) [Idle]) = Some p'
    /\ scraper p' = fst (smart_delay s w)
    /\ workers p' = [Requesting (time (snd (smart_delay s w)))].
Proof.
  intros Hsleep d. unfold smart_delay. fold d.
  destruct (Qgtb d 0) eqn:Hd.
  - assert (Hpos : Qle_bool 0 d = true)
      by (apply Qle_bool_iff; apply Qgtb_true in Hd; lra).
    assert (Hup : Qle_bool (time w + d) (time w + d) = true)
      by (apply Qle_bool_iff; lra).
    cbn [play perform enter wake tick workers scraper clock lookup].
    unfold enter. cbn [workers scraper clock]. fold d.
    change ([Idle] !! 0%nat) with (Some Idle). cbv iota. rewrite Hd.
    cbn [play perform]. unfold tick. rewrite Hpos. cbn [scraper clock workers].
    cbn [play perform]. unfold wake. cbn [workers clock].
    change (<[0%nat:=Sleeping (time w + d)]> [Idle] !! 0%nat)
      with (Some (Sleeping (time w + d))). cbv iota. rewrite Hup.
    cbn [play]. eexists. split; [reflexivity|].
    unfold stamp. cbn [scraper clock workers fst snd]. rewrite Hsleep.
    split; reflexivity.
  - cbn [play perform]. unfold enter. cbn [workers scraper clock]. fold d.
    change ([Idle] !! 0%nat) with (Some Idle). cbv iota. rewrite Hd.
    cbn [play]. eexists. split; [reflexivity|].
    unfold stamp. cbn [scraper clock workers fst snd]. split; reflexivity.
Qed.

Lemma enter_sleeps (i : nat) (p : pool) :
  workers p !! i = Some Idle ->
  let delay_needed :=
    (adaptive_delay (scraper p)
     - (clock p - default 0 (last_request_time (scraper p) !! domain (scraper p))))%Q in
  (0 < delay_needed)%Q ->
  enter i p = Some (mkPool (scraper p) (clock p)
                           (<[i := Sleeping (clock p + delay_needed)]> (workers p))).
Proof.
  intros Hi d Hd. unfold enter. rewrite Hi. fold d.
  now rewrite (proj2 (Qgtb_true _ _) Hd).
Qed.

Lemma wake_stamps (i : nat) (p : pool) (until : Q) :
  workers p !! i = Some (Sleeping until) ->
  (until <= clock p)%Q ->
  wake i p = Some (stamp i p).
Proof.
  intros Hi Hu. unfold wake. rewrite Hi.
  now rewrite (proj2 (Qle_bool_iff _ _) Hu).
Qed.

Lemma tick_passes (d : Q) (p : pool) :
  (0 <= d)%Q -> tick d p = Some (mkPool (scraper p) (clock p + d) (workers p)).
Proof. intros Hd. unfold tick. now rewrite (proj2 (Qle_bool_iff _ _) Hd). Qed.

(** C5, where the code fails it. Two workers of the pool are in
    [smart_delay] together: the first enters at time [c], when a delay
    is still needed, and the second [a] seconds later, while the first
    sleeps. Both read the same last request time, since the first has
    not stamped the domain yet; both sleep until the same moment and
    leave [smart_delay] together, so that their two requests to the
    host are not [min_delay] seconds apart: they are no time apart. *)
Theorem concurrent_workers_request_together (s : t) (c a : Q) :
  let delay_needed :=
    (adaptive_delay s - (c - default 0 (last_request_time s !! domain s)))%Q in
  (0 < min_delay s)%Q ->
  (0 <= a)%Q -> (a < delay_needed)%Q ->
  exists p' t1 t2,
    play [Enter 0; Tick a; Enter 1; Tick (delay_needed - a); Wake 0; Wake 1]
         (mkPool s c [Idle; Idle]) = Some p'
    /\ workers p' = [Requesting t1; Requesting t2]
    /\ (t1 == c + delay_needed)%Q
    /\ (t2 - t1 == 0)%Q
    /\ ~ (min_delay s <= t2 - t1)%Q.
Proof.
  intros d Hmin Ha Had.
  set (last := default 0%Q (last_request_time s !! domain s)) in *.
  set (d2 := (adaptive_delay s - (c + a - last))%Q).
  exists (stamp 1 (stamp 0 (mkPool s (c + a + (d - a))
                              [Sleeping (c + d); Sleeping (c + a + d2)]))),
         (c + a + (d - a))%Q, (c + a + (d - a))%Q.
  split.
  - cbn [play perform].
    rewrite enter_sleeps; [| reflexivity | cbn [scraper clock]; fold last d; lra].
    rewrite tick_passes by exact Ha.
    rewrite enter_sleeps;
      [| reflexivity | cbn [scraper clock]; fold last d2; subst d d2; lra].
    rewrite tick_passes by lra.
    rewrite (wake_stamps 0 _ (c + d));
      [| reflexivity | cbn [clock]; lra].
    rewrite (wake_stamps 1 _ (c + a + d2));
      [| reflexivity | cbn [clock stamp]; subst d d2; lra].
    reflexivity.
  - split; [reflexivity|]. split; [lra|]. split; [lra|]. lra.
Qed.

(** C5's failure on the scraper of [https://example.com] with its two
    default workers: the first request was stamped at time 1000, the
    workers enter [smart_delay] at times 1000.5 and 1000.75, and both
    send their request at time 1002. *)
Lemma concurrent_workers_request_together_witness :
  exists s0 : t,
    init "https://example.com" 50 = Returned s0
    /\ (let s1 := fst (smart_delay s0 (Mock.mkWorld 1000 [] 0 [] (Returned [])
                                        : Mock.world Response)) in
        last_request_time s1 !! domain s1 = Some 1000%Q
        /\ (min_delay s1 == 2)%Q
        /\ exists p' t1 t2,
             play [Enter 0; Tick 0.25; Enter 1;
                   Tick (adaptive_delay s1
                         - (1000.5 - default 0 (last_request_time s1 !! domain s1))
                         - 0.25)%Q;
                   Wake 0; Wake 1]
                  (mkPool s1 1000.5 [Idle; Idle]) = Some p'
             /\ workers p' = [Requesting t1; Requesting t2]
             /\ (t1 == 1002)%Q
             /\ (t2 - t1 == 0)%Q
             /\ ~ (min_delay s1 <= t2 - t1)%Q).
Proof.
  eexists. split; [vm_compute; reflexivity|]. cbv zeta.
  split; [vm_compute; reflexivity|]. split; [vm_compute; reflexivity|].
  match goal with
  | |- context [mkPool ?s1 ?c _] =>
      destruct (concurrent_workers_request_together s1 c 0.25)
        as (p' & t1 & t2 & Hplay & Hws & Ht1 & Hsame & Hnot)
  end.
  - vm_compute. reflexivity.
  - vm_compute. discriminate.
  - vm_compute. reflexivity.
  - exists p', t1, t2. split; [exact Hplay|]. split; [exact Hws|].
    split; [| split; [exact Hsame | exact Hnot]].
    eapply Qeq_trans; [exact Ht1|]. vm_compute. reflexivity.
Defined.
End WorkerPoolProperties.

Section PipelineProperties.
Import Youtube Mock.

Lemma insert_desc_perm x l : Permutation (insert_desc x l) (x :: l).
Proof.
  induction l as [|y l IH]; cbn [insert_desc]; [reflexivity|].
  destruct (Qgtb (snd y) (snd x)); [| reflexivity].
  rewrite IH. apply perm_swap.
Qed.

Lemma sort_desc_perm l : Permutation (sort_desc l) l.
Proof.
  induction l as [|x l IH]; cbn; [reflexivity|].
  unfold sort_desc in IH. rewrite insert_desc_perm. now constructor.
Qed.

Lemma insert_desc_sorted x l :
  StronglySorted score_ge l -> StronglySorted score_ge (insert_desc x l).
Proof.
  induction 1 as [|y l Hs IH Hall]; cbn [insert_desc].
  - repeat constructor.
  - destruct (Qgtb (snd y) (snd x)) eqn:E.
    + constructor; [assumption|].
      apply Qgtb_true in E.
      eapply Permutation_Forall; [symmetry; apply insert_desc_perm|].
      constructor; [unfold score_ge; lra | assumption].
    + apply Qgtb_false in E. constructor; [now constructor|].
      constructor; [exact E|].
      eapply List.Forall_impl; [| exact Hall]. unfold score_ge. intros z Hz. lra.
Qed.

Lemma sort_desc_sorted l : StronglySorted score_ge (sort_desc l).
Proof.
  induction l as [|x l IH]; cbn; [constructor|]. now apply insert_desc_sorted.
Qed.

(** The loop with its [break], as a filter followed by a prefix. *)

Lemma take_relevant_spec pairs floor cap : forall out,
  (Z.of_nat (length out) < cap)%Z ->
  take_relevant pairs floor cap out
  = out ++ map to_scored
             (firstn (Z.to_nat cap - length out) (List.filter (above floor) pairs)).
Proof.
  induction pairs as [|[c s] rest IH]; intros out Hlt; cbn [take_relevant List.filter].
  - rewrite firstn_nil. cbn. now rewrite app_nil_r.
  - unfold above at 1. cbn [snd]. destruct (Qle_bool floor s).
    + destruct (Z.leb_spec cap (Z.of_nat (length (out ++ [mkScored c s])))) as [Hge|Hlt'].
      * rewrite length_app in Hge. cbn [length] in Hge.
        replace (Z.to_nat cap - length out)%nat with 1%nat by lia.
        cbn. now rewrite firstn_O.
      * rewrite IH by assumption. rewrite length_app in *. cbn [length] in *.
        replace (Z.to_nat cap - length out)%nat
          with (S (Z.to_nat cap - (length out + 1)))%nat by lia.
        cbn [firstn map]. rewrite <- app_assoc. reflexivity.
    + now apply IH.
Qed.

Lemma In_firstn {A} (x : A) n : forall l, In x (firstn n l) -> In x l.
Proof.
  induction n as [|n IH]; intros l; [intros []|].
  destruct l as [|y l]; cbn; [tauto|]. intros [->|Hin]; auto.
Qed.

Lemma StronglySorted_filter {A} (R : A -> A -> Prop) (f : A -> bool) l :
  StronglySorted R l -> StronglySorted R (List.filter f l).
Proof.
  induction 1 as [|x l Hs IH Hall]; cbn [List.filter]; [constructor|].
  destruct (f x); [| assumption]. constructor; [assumption|].
  apply List.Forall_forall. intros y Hy. apply List.filter_In in Hy as [Hy _].
  eapply List.Forall_forall in Hall; eauto.
Qed.

Lemma StronglySorted_firstn {A} (R : A -> A -> Prop) n : forall l,
  StronglySorted R l -> StronglySorted R (firstn n l).
Proof.
  induction n as [|n IH]; intros l Hl; [constructor|].
  destruct Hl as [|x l Hs Hall]; cbn [firstn]; constructor; auto.
  apply List.Forall_forall. intros y Hy. apply In_firstn in Hy.
  eapply List.Forall_forall in Hall; eauto.
Qed.

Lemma StronglySorted_map {A B} (R : A -> A -> Prop) (S : B -> B -> Prop) (g : A -> B) l :
  (forall x y, R x y -> S (g x) (g y)) ->
  StronglySorted R l -> StronglySorted S (map g l).
Proof.
  intros HRS. induction 1 as [|x l Hs IH Hall]; cbn [map]; constructor; auto.
  apply List.Forall_forall. intros y Hy. apply List.in_map_iff in Hy as (z & <- & Hz).
  apply HRS. eapply List.Forall_forall in Hall; eauto.
Qed.

Lemma take_relevant_small_cap pairs floor cap :
  (cap <= 1)%Z ->
  take_relevant pairs floor cap [] = take_relevant pairs floor 1 [].
Proof.
  intros Hcap. induction pairs as [|[c s] rest IH]; cbn [take_relevant]; [reflexivity|].
  destruct (Qle_bool floor s); [| exact IH].
  cbn [app length].
  destruct (Z.leb_spec cap (Z.of_nat 1)); [reflexivity | lia].
Qed.

Lemma rerank_any_cap filtered sims floor cap :
  rerank filtered sims floor cap
  = map to_scored (firstn (Z.to_nat (Z.max 1 cap))
                          (List.filter (above floor) (sort_desc (combine filtered sims)))).
Proof.
  unfold rerank. destruct (Z.le_gt_cases cap 1) as [Hle|Hgt].
  - rewrite take_relevant_small_cap by assumption.
    rewrite take_relevant_spec by (cbn; lia).
    replace (Z.max 1 cap) with 1%Z by lia. cbn [length app]. now rewrite Nat.sub_0_r.
  - rewrite take_relevant_spec by (cbn; lia).
    replace (Z.max 1 cap) with cap by lia. cbn [length app]. now rewrite Nat.sub_0_r.
Qed.



Lemma backoff_sleeps_cons backoff a n :
  backoff_sleeps backoff a (S n) = (backoff ^ a)%Q :: backoff_sleeps backoff (a + 1) n.
Proof.
  unfold backoff_sleeps. cbn [seq map]. rewrite Z.add_0_r. f_equal.
  rewrite <- seq_shift, map_map. apply map_ext. intros i. f_equal. lia.
Qed.

Lemma mock_sleep_mk {A} d clk (scr : list (outcome A)) c sl sims :
  mock_sleep d (mkWorld clk scr c sl sims)
  = mkWorld (Qred (clk + d)) scr c (sl ++ [d]) sims.
Proof. reflexivity. Qed.

Lemma retry_loop_step {A} (tries : Z) (backoff : Q) remaining attempt last_err
      (e : exn) (rest : list (outcome A)) clk c sl sims :
  retried e = true ->
  retry_loop mock_sleep scripted tries backoff (S remaining) attempt last_err
             (mkWorld clk (Raised e :: rest) c sl sims)
  = retry_loop mock_sleep scripted tries backoff remaining (attempt + 1) (Some e)
      (if (attempt <? tries - 1)%Z
       then mock_sleep (backoff ^ attempt) (mkWorld clk rest (S c) sl sims)
       else mkWorld clk rest (S c) sl sims).
Proof.
  intros He. cbn [retry_loop scripted script clock calls sleeps similarities].
  destruct e; cbn [retried] in He; try reflexivity.
  now rewrite He.
Qed.

Lemma retry_loop_settles {A} (tries : Z) (backoff : Q) (o : outcome A) post
      (pre : list (outcome A)) :
  forall remaining attempt last_err clk c sl sims,
    Forall (fun o => settles o = false) pre ->
    settles o = true ->
    (length pre < remaining)%nat ->
    (attempt + Z.of_nat remaining = tries)%Z ->
    exists clk',
      retry_loop mock_sleep scripted tries backoff remaining attempt last_err
                 (mkWorld clk (pre ++ o :: post) c sl sims)
      = (o, mkWorld clk' post (S (c + length pre))
                    (sl ++ backoff_sleeps backoff attempt (length pre)) sims).
Proof.
  induction pre as [|p pre IH]; intros remaining attempt last_err clk c sl sims Hpre Ho Hlen Htries.
  - destruct remaining as [|remaining]; [cbn in Hlen; lia|].
    exists clk. cbn [app retry_loop scripted script clock calls sleeps similarities length backoff_sleeps seq map].
    rewrite Nat.add_0_r, app_nil_r.
    destruct o as [r|e]; [reflexivity|].
    cbn [settles] in Ho. apply negb_true_iff in Ho.
    destruct e; cbn [retried] in Ho; try discriminate. now rewrite Ho.
  - apply Forall_cons in Hpre as [Hp Hpre'].
    destruct p as [r|e]; [discriminate|]. cbn [settles] in Hp. apply negb_false_iff in Hp.
    destruct remaining as [|remaining]; [cbn in Hlen; lia|].
    cbn [app length] in *.
    rewrite retry_loop_step by assumption.
    destruct (Z.ltb_spec attempt (tries - 1)) as [Hlt|Hge]; [| lia].
    rewrite mock_sleep_mk.
    destruct (IH remaining (attempt + 1)%Z (Some e) (Qred (clk + backoff ^ attempt)) (S c)
                 (sl ++ [(backoff ^ attempt)%Q]) sims Hpre' Ho) as (clk' & Heq); [lia | lia |].
    exists clk'. rewrite Heq. rewrite backoff_sleeps_cons, <- app_assoc. cbn [app].
    f_equal. f_equal. lia.
Qed.

Lemma retry_loop_exhausts {A} (tries : Z) (backoff : Q) post (pre : list (outcome A)) :
  forall attempt last_err clk c sl sims,
    Forall (fun o => settles o = false) pre ->
    (attempt + Z.of_nat (length pre) = tries)%Z ->
    exists clk',
      retry_loop mock_sleep scripted tries backoff (length pre) attempt last_err
                 (mkWorld clk (pre ++ post) c sl sims)
      = (match last pre, last_err with
         | Some o, _ => o
         | None, Some e => Raised e
         | None, None => Raised (TypeError "exceptions must derive from BaseException")
         end,
         mkWorld clk' post (c + length pre)
                 (sl ++ backoff_sleeps backoff attempt (length pre - 1)) sims).
Proof.
  induction pre as [|p pre IH]; intros attempt last_err clk c sl sims Hpre Htries.
  - exists clk. cbn. rewrite Nat.add_0_r, app_nil_r. destruct last_err; reflexivity.
  - apply Forall_cons in Hpre as [Hp Hpre'].
    destruct p as [r|e]; [discriminate|]. cbn [settles] in Hp. apply negb_false_iff in Hp.
    cbn [app length] in *.
    rewrite retry_loop_step by assumption.
    destruct pre as [|p2 pre].
    + cbn [length] in *. destruct (Z.ltb_spec attempt (tries - 1)) as [Hlt|Hge]; [lia|].
      exists clk. cbn. rewrite Nat.add_1_r, app_nil_r. reflexivity.
    + destruct (Z.ltb_spec attempt (tries - 1)) as [Hlt|Hge]; [| cbn [length] in *; lia].
      rewrite mock_sleep_mk.
      destruct (IH (attempt + 1)%Z (Some e) (Qred (clk + backoff ^ attempt)) (S c)
                   (sl ++ [(backoff ^ attempt)%Q]) sims Hpre') as (clk' & Heq); [lia|].
      exists clk'. rewrite Heq.
      replace (length (p2 :: pre)) with (S (length pre)) by reflexivity.
      replace (S (S (length pre)) - 1)%nat with (S (length pre)) by lia.
      replace (S (length pre) - 1)%nat with (length pre) by lia.
      rewrite backoff_sleeps_cons, <- app_assoc. cbn [app].
      change (last (Raised e :: p2 :: pre)) with (last (p2 :: pre)).
      destruct (last (p2 :: pre)) eqn:Hlast.
      * f_equal. f_equal. lia.
      * apply last_None in Hlast. discriminate.
Qed.

(** C7, as amended. In any world, with at least one attempt allowed, a
    first attempt that returns, or that raises an [HttpError] whose
    status is not 500, 502, 503 or 504, ends the call at once with that
    outcome. Against a service whose successive outcomes are scripted:
    while the outcomes are errors that the loop retries (an [HttpError]
    with one of those four statuses, or any exception that is not an
    [HttpError]), the wrapper calls again, sleeping [backoff ** attempt]
    before each new attempt; the first result, or the first [HttpError]
    with another status, ends the loop at once, if it comes within
    [tries] attempts; when all [tries] attempts raise retried errors,
    the last one is raised, and there is no sleep after the last
    attempt. *)
Theorem retry_wrapper_behaviour :
  (forall (W A : Type) (sleep : Q -> W -> W) (request : callable W A)
          (tries : Z) (backoff : Q) (w w' : W) (o : outcome A),
      (0 < tries)%Z ->
      request w = (o, w') ->
      settles o = true ->
      execute_with_retry sleep request tries backoff w = (o, w'))
  /\ (forall (A : Type) (tries : Z) (backoff : Q) (pre post : list (outcome A)),
        Forall (fun o => settles o = false) pre ->
        (forall o,
            (Z.of_nat (length pre) < tries)%Z ->
            settles o = true ->
            let r := execute_with_retry mock_sleep scripted tries backoff
                       (start (pre ++ o :: post)) in
            fst r = o
            /\ script (snd r) = post
            /\ calls (snd r) = S (length pre)
            /\ sleeps (snd r) = backoff_sleeps backoff 0 (length pre))
        /\ (forall e,
              last pre = Some (Raised e) ->
              Z.of_nat (length pre) = tries ->
              let r := execute_with_retry mock_sleep scripted tries backoff
                         (start (pre ++ post)) in
              fst r = Raised e
              /\ script (snd r) = post
              /\ calls (snd r) = length pre
              /\ sleeps (snd r) = backoff_sleeps backoff 0 (length pre - 1))).
Proof.
  split.
  { intros W A sleep request tries backoff w w' o Htries Hreq Ho.
    unfold execute_with_retry.
    destruct (Z.to_nat tries) as [|n] eqn:Hn; [lia|].
    cbn [retry_loop]. rewrite Hreq.
    destruct o as [r|e]; [reflexivity|].
    cbn [settles] in Ho. apply negb_true_iff in Ho.
    destruct e; cbn [retried] in Ho; try discriminate. now rewrite Ho. }
  intros A tries backoff pre post Hpre. split.
  - intros o Hlt Ho r. subst r. unfold execute_with_retry, start.
    destruct (retry_loop_settles tries backoff o post pre (Z.to_nat tries) 0 None 0 0%nat []
                (Returned []) Hpre Ho) as (clk' & Heq); [lia | lia |].
    rewrite Heq. cbn. auto.
  - intros e Hlast Hlen r. subst r. unfold execute_with_retry, start.
    replace (Z.to_nat tries) with (length pre) by lia.
    destruct (retry_loop_exhausts tries backoff post pre 0 None 0 0%nat []
                (Returned []) Hpre) as (clk' & Heq); [lia|].
    rewrite Heq, Hlast. cbn. auto.
Qed.

(** C7, as amended: two retried errors, then a 404 that ends the loop. *)
Lemma retry_wrapper_behaviour_witness :
  Forall (fun o : outcome Z => settles o = false)
         [Raised (OSError "timed out"); Raised (HttpError (Some 503%Z) "unavailable")]
  /\ (let r := execute_with_retry mock_sleep scripted 3 2
                 (start [Raised (OSError "timed out");
                         Raised (HttpError (Some 503%Z) "unavailable");
                         Raised (HttpError (Some 404%Z) "not found");
                         Returned 7%Z]) in
      fst r = Raised (HttpError (Some 404%Z) "not found")
      /\ script (snd r) = [Returned 7%Z]
      /\ calls (snd r) = 3%nat
      /\ sleeps (snd r) = backoff_sleeps 2 0 2).
Proof.
  assert (H : Forall (fun o : outcome Z => settles o = false)
         [Raised (OSError "timed out"); Raised (HttpError (Some 503%Z) "unavailable")])
    by (repeat constructor).
  split; [exact H|].
  apply (proj1 (proj2 retry_wrapper_behaviour Z 3%Z 2%Q _ [Returned 7%Z] H)
               (Raised (HttpError (Some 404%Z) "not found"))).
  - cbn. lia.
  - reflexivity.
Defined.

(** C7 as stated fails: an error outside the transient set is retried, and
    a 5xx status outside the list is not. *)
Lemma retry_repeats_after_other_errors :
  (let r := execute_with_retry mock_sleep scripted 3 2
              (start [Raised (ValueError "bad request body"); Returned 7%Z]) in
   fst r = Returned 7%Z /\ calls (snd r) = 2%nat /\ sleeps (snd r) = [1%Q])
  /\ (let r := execute_with_retry mock_sleep scripted 3 2
                 (start [Raised (HttpError (Some 501%Z) "Not Implemented");
                         Returned 7%Z]) in
      fst r = Raised (HttpError (Some 501%Z) "Not Implemented")
      /\ calls (snd r) = 1%nat /\ sleeps (snd r) = []).
Proof. vm_compute. repeat split; reflexivity. Qed.

Section PipelineProps.
Context {W : Type} `{YouTube W}.

Lemma read_item_detect_fails cfg sn (w w' : W) e :
  looks_meaningful cfg (normalize (default "" (textDisplay sn))) = true ->
  detect (normalize (default "" (textDisplay sn))) w = (Raised e, w') ->
  forall rest raw,
    collect_raw cfg (Some sn :: rest) raw w = collect_raw cfg rest raw w'.
Proof.
  intros Hm Hd rest raw. cbn [collect_raw read_item]. rewrite Hm, Hd. cbn [negb].
  destruct e; reflexivity.
Qed.

(** C9, as amended. [fetch_relevant_comments] always returns a list. It
    returns the empty list when the comment-thread fetch raises. When
    the fetch returns items, comments are collected from them, some of
    them contain a keyword of the question, and the similarity
    computation on these raises, it returns the empty list in the world
    that this failed computation left: nothing is called after it. A
    failure of language detection on a comment drops that comment only:
    the loop over the items goes on with the rest, as if the item were
    not there. *)
Theorem comment_pipeline_never_raises cfg video_id brand question
        max_comments min_similarity tries (w : W) :
  (exists out w',
      fetch_relevant_comments cfg video_id brand question
                              max_comments min_similarity tries w
      = (Returned out, w'))
  /\ (forall e w1,
        execute_with_retry yt_sleep (comment_threads video_id) tries 2 w
        = (Raised e, w1) ->
        fetch_relevant_comments cfg video_id brand question
                                max_comments min_similarity tries w
        = (Returned [], w1))
  /\ (forall items (w1 : W) raw (w2 : W) e (w3 : W),
        execute_with_retry yt_sleep (comment_threads video_id) tries 2 w
        = (Returned items, w1) ->
        collect_raw cfg items [] w1 = (raw, w2) ->
        let filtered :=
          List.filter (fun c => existsb (fun k => PyStr.contains k (tolc (text c)))
                                        (extract_keywords question)) raw in
        filtered <> [] ->
        cos_sim question (map text filtered) w2 = (Raised e, w3) ->
        fetch_relevant_comments cfg video_id brand question
                                max_comments min_similarity tries w
        = (Returned [], w3))
  /\ (forall sn rest raw (w1 w2 : W) e,
        looks_meaningful cfg (normalize (default "" (textDisplay sn))) = true ->
        detect (normalize (default "" (textDisplay sn))) w1 = (Raised e, w2) ->
        collect_raw cfg (Some sn :: rest) raw w1 = collect_raw cfg rest raw w2).
Proof.
  split; [|split; [|split]].
  - unfold fetch_relevant_comments.
    destruct (execute_with_retry _ _ _ _ _) as [[items|e] w1].
    + destruct (collect_raw cfg items [] w1) as [raw w2].
      destruct raw as [|c raw]; [eauto|].
      destruct (List.filter _ _) as [|c' filtered]; [eauto|].
      destruct (cos_sim _ _ _) as [[sims|e] w3]; eauto.
    + destruct e; eauto.
  - intros e w1 Hfetch. unfold fetch_relevant_comments. rewrite Hfetch.
    destruct e; reflexivity.
  - intros items w1 raw w2 e w3 Hfetch Hraw filtered Hne Hsim.
    unfold fetch_relevant_comments. rewrite Hfetch, Hraw.
    destruct raw as [|c raw]; [now destruct Hne|].
    fold filtered. destruct filtered as [|c' rest] eqn:Hf; [now destruct Hne|].
    rewrite Hsim. reflexivity.
  - intros sn rest raw w1 w2 e Hm Hd. now apply (read_item_detect_fails cfg sn w1 w2 e).
Qed.
End PipelineProps.

(** C9, as amended, on a video whose comments are disabled, and on a
    thread for which the similarity service raises after one call of
    the comment service. *)
Lemma comment_pipeline_never_raises_witness :
  (let r := execute_with_retry yt_sleep (comment_threads "video-1") 3 2 forbidden_world in
   r = (Raised (HttpError (Some 403%Z) "commentsDisabled"), snd r)
   /\ fetch_relevant_comments default_config "video-1" "Acme" durable_question
                               5 0.25 3 forbidden_world
      = (Returned [], snd r))
  /\ (let w3 := mkWorld 0 [] 1 [] (Raised (Exception "encode failed")) in
      cos_sim durable_question [text durable_comment] w3
      = (Raised (Exception "encode failed"), w3)
      /\ fetch_relevant_comments default_config "video-1" "Acme" durable_question
                                  5 0.25 3 similarity_failure_world
         = (Returned [], w3)).
Proof.
  cbv zeta. split.
  - assert (Hfetch :
              execute_with_retry yt_sleep (comment_threads "video-1") 3 2 forbidden_world
              = (Raised (HttpError (Some 403%Z) "commentsDisabled"),
                 snd (execute_with_retry yt_sleep (comment_threads "video-1") 3 2
                                         forbidden_world)))
      by (vm_compute; reflexivity).
    split; [exact Hfetch|].
    exact (proj1 (proj2 (comment_pipeline_never_raises default_config "video-1" "Acme"
                           durable_question 5 0.25 3 forbidden_world)) _ _ Hfetch).
  - split; [reflexivity|].
    apply (proj1 (proj2 (proj2 (comment_pipeline_never_raises default_config "video-1"
                                  "Acme" durable_question 5 0.25 3
                                  similarity_failure_world)))
             [durable_item] (mkWorld 0 [] 1 [] (Raised (Exception "encode failed")))
             [durable_comment] (mkWorld 0 [] 1 [] (Raised (Exception "encode failed")))
             (Exception "encode failed")).
    + vm_compute. reflexivity.
    + vm_compute. reflexivity.
    + vm_compute. discriminate.
    + vm_compute. reflexivity.
Defined.

(** C9 as stated fails: language detection fails on one comment and the
    result is not empty. *)
Lemma detection_failure_keeps_other_comments :
  looks_meaningful default_config "12345 67890 12345 67890 12345 67890" = true
  /\ fst (detect "12345 67890 12345 67890 12345 67890" detection_failure_world)
     = Raised (LangDetectException "No features in text.")
  /\ fst (fetch_relevant_comments default_config "video-1" "Acme" durable_question
                                  5 0.25 3 detection_failure_world)
     = Returned [mkScored durable_comment 0.5].
Proof. vm_compute. repeat split; reflexivity. Qed.


End PipelineProperties.

(** ** Further properties: what the URL validator accepts *)

Section ValidatorExtras.
Import PyStr Re UrlParse SmartURLValidator.

Lemma lower_char_hash : forall a, Ascii.eqb (lower_char "#") (lower_char (lower_char a)) = Ascii.eqb a "#".
Proof.
  intros [[] [] [] [] [] [] [] []]; vm_compute; reflexivity.
Qed.

Lemma search_hash_lower s : forall prev,
  has_char "#" s = true -> search_from true (Lit "#") prev (lower s) = true.
Proof.
  induction s as [|a s IH]; intros prev Hs; [discriminate|].
  cbn [has_char] in Hs. cbn [lower search_from].
  apply orb_true_iff. destruct (Ascii.eqb a "#") eqn:Ha.
  - left. cbn [Lit exec]. rewrite lower_char_hash, Ha. reflexivity.
  - right. apply IH. exact Hs.
Qed.

Lemma existsb_false_In {A} (f : A -> bool) l x :
  existsb f l = false -> In x l -> f x = false.
Proof.
  intros He Hin. destruct (f x) eqn:Hf; [|reflexivity].
  assert (existsb f l = true) by (apply existsb_exists; eauto). congruence.
Qed.

(** X1. What [is_valid_url] guarantees of a URL it accepts: the URL
    parses, its scheme is http or https, its host is the base domain once
    every [www.] is deleted and letter case is ignored, it is not empty
    and at most 2000 characters long, its query has at most 200
    characters, its path at most 6 segments, and it contains no [#]
    (the skip pattern [#] rejects every URL with a fragment). *)
Theorem valid_url_requirements (base : string) (url : string) :
  is_valid_url (SmartURLValidator.init base) url = true ->
  exists parsed,
    urlparse url = Returned parsed
    /\ (scheme parsed = "http" \/ scheme parsed = "https")
    /\ lower (replace "www." "" (netloc parsed)) = lower (replace "www." "" base)
    /\ (0 < len url <= 2000)%Z
    /\ (len (query parsed) <= 200)%Z
    /\ (path_depth (path parsed) <= 6)%Z
    /\ has_char "#" url = false.
Proof.
  unfold is_valid_url. intros H.
  destruct (String.eqb url "") eqn:Hempty; [discriminate|].
  destruct (Z.ltb_spec 2000 (len url)) as [|Hlen]; [discriminate|]. cbn [orb] in H.
  destruct (urlparse url) as [parsed|e]; [| discriminate].
  destruct (mem (scheme parsed) _) eqn:Hs; cbn [negb] in H; [| discriminate].
  destruct (String.eqb _ _) eqn:Hd in H; cbn [negb] in H; [| discriminate].
  destruct (existsb _ _) eqn:Hskip in H; [discriminate|].
  destruct (Z.ltb_spec 200 (len (query parsed))) as [|Hq]; [discriminate|].
  destruct (Z.ltb_spec 6 (path_depth (path parsed))) as [|Hdepth]; [discriminate|].
  exists parsed. split; [reflexivity|]. split.
  { unfold mem in Hs. cbn [existsb] in Hs.
    destruct (String.eqb_spec (scheme parsed) "http"); [auto|].
    destruct (String.eqb_spec (scheme parsed) "https"); [auto|]. discriminate. }
  split; [now apply String.eqb_eq in Hd|].
  split.
  { split; [|assumption]. unfold len. destruct url; [discriminate|]. cbn. lia. }
  split; [assumption|]. split; [assumption|].
  destruct (has_char "#" url) eqn:Hh; [|reflexivity].
  assert (Hin : In (Lit "#") (compiled_skip (SmartURLValidator.init base))).
  { cbn. unfold skip_patterns. repeat (first [left; reflexivity | right]). }
  pose proof (existsb_false_In _ _ _ Hskip Hin) as Hno. cbn beta in Hno.
  unfold search_ignorecase in Hno. rewrite search_hash_lower in Hno by assumption.
  discriminate.
Qed.

(** X1 at a concrete input. *)
Lemma valid_url_requirements_witness :
  exists parsed,
    urlparse "https://www.example.com/about?ref=1" = Returned parsed
    /\ (scheme parsed = "http" \/ scheme parsed = "https")
    /\ lower (replace "www." "" (netloc parsed)) = lower (replace "www." "" "example.com")
    /\ (0 < len "https://www.example.com/about?ref=1" <= 2000)%Z
    /\ (len (query parsed) <= 200)%Z
    /\ (path_depth (path parsed) <= 6)%Z
    /\ has_char "#" "https://www.example.com/about?ref=1" = false.
Proof.
  apply (valid_url_requirements "example.com" "https://www.example.com/about?ref=1").
  vm_compute. reflexivity.
Defined.
End ValidatorExtras.

(** ** Further properties: URL priorities *)

Section PriorityExtras.
Import PyStr Re UrlParse SmartURLValidator.

Lemma fold_good_patterns (f : regex -> bool) (l : list regex) : forall acc,
  fold_left (fun priority pattern => if f pattern then (priority + 10)%Z else priority) l acc
  = (acc + 10 * Z.of_nat (length (List.filter f l)))%Z.
Proof.
  induction l as [|r l IH]; intros acc; cbn [fold_left List.filter].
  - cbn. lia.
  - rewrite IH. destruct (f r); cbn [length]; lia.
Qed.

Lemma filter_length_le {A} (f : A -> bool) l : (length (List.filter f l) <= length l)%nat.
Proof. induction l as [|x l IH]; cbn; [lia|]. destruct (f x); cbn; lia. Qed.

Lemma filter_nonempty_existsb {A} (f : A -> bool) l :
  (0 < length (List.filter f l))%nat <-> existsb f l = true.
Proof.
  induction l as [|x l IH]; cbn; [split; [lia | discriminate]|].
  destruct (f x); cbn; [split; [reflexivity | lia]|]. exact IH.
Qed.

Lemma path_depth_nonneg p : (0 <= path_depth p)%Z.
Proof. unfold path_depth. lia. Qed.

(** X2. The priority that [get_url_priority] returns lies between 0
    and 157 (ten for each of the fifteen content patterns, five for a
    short path, two for an empty query), and it reaches 8, the threshold
    of the priority queue in [add_url], exactly when one of the content
    patterns occurs in the URL. *)
Theorem url_priority_bounds (base url : string) (p : Z) :
  get_url_priority (SmartURLValidator.init base) url = Returned p ->
  (0 <= p <= 157)%Z
  /\ ((8 <= p)%Z <->
      existsb (fun pattern => search_ignorecase pattern (lower url)) good_patterns = true).
Proof.
  unfold get_url_priority. cbn [compiled_good SmartURLValidator.init].
  rewrite fold_good_patterns.
  set (f := fun pattern => search_ignorecase pattern (lower url)).
  destruct (urlparse url) as [parsed|e]; [| discriminate].
  pose proof (filter_length_le f good_patterns) as Hle.
  assert (Hlen : length good_patterns = 15%nat) by reflexivity. rewrite Hlen in Hle.
  pose proof (filter_nonempty_existsb f good_patterns) as Hex.
  pose proof (path_depth_nonneg (path parsed)) as Hd.
  set (n := length (List.filter f good_patterns)) in *.
  destruct (String.eqb (query parsed) ""); intros [= <-]; (split; [lia|]);
    rewrite <- Hex; split; lia.
Qed.

(** X2 at a concrete input. *)
Lemma url_priority_bounds_witness :
  get_url_priority (SmartURLValidator.init "example.com") "https://example.com/about/"
  = Returned 16%Z
  /\ (0 <= 16 <= 157)%Z
  /\ ((8 <= 16)%Z <->
      existsb (fun pattern => search_ignorecase pattern (lower "https://example.com/about/"))
              good_patterns = true).
Proof.
  assert (Hp : get_url_priority (SmartURLValidator.init "example.com")
                 "https://example.com/about/" = Returned 16%Z)
    by (vm_compute; reflexivity).
  split; [exact Hp|].
  exact (url_priority_bounds "example.com" "https://example.com/about/" 16 Hp).
Defined.
End PriorityExtras.

(** ** Further properties: the frontier *)

Section AddUrlExtras.
Import PyStr UrlParse SmartURLValidator SmartWebScraper.

Lemma valid_url_parses v url :
  is_valid_url v url = true ->
  String.eqb url "" = false /\ exists parsed, urlparse url = Returned parsed.
Proof.
  unfold is_valid_url. destruct (String.eqb url ""); [discriminate|].
  cbn [orb]. destruct (_ <? _)%Z; [discriminate|].
  destruct (urlparse url) as [parsed|e]; [eauto | discriminate].
Qed.

Lemma valid_url_normalizes v url :
  is_valid_url v url = true ->
  (exists n, normalize_url url = Returned n)
  /\ (exists p, get_url_priority v url = Returned p).
Proof.
  intros Hv. destruct (valid_url_parses v url Hv) as (He & parsed & Hp). split.
  - unfold normalize_url. rewrite He, Hp. eauto.
  - unfold get_url_priority. rewrite Hp. eauto.
Qed.

Lemma add_url_returns (s : t) (url : string) (priority : Z) :
  fst (add_url s url priority) = Returned tt.
Proof.
  unfold add_url.
  destruct (is_valid_url (url_validator s) url) eqn:Hv; cbn [negb]; [| reflexivity].
  destruct (valid_url_normalizes _ _ Hv) as ((n & Hn) & (p & Hp)).
  rewrite Hn, Hp.
  destruct (_ || _); [reflexivity|].
  destruct (8 <=? priority + p)%Z; destruct (negb _); reflexivity.
Qed.

Lemma add_url_effect (s : t) (url : string) (priority : Z) :
  (is_valid_url (url_validator s) url = false ->
   snd (add_url s url priority) = set_stats s (incr_urls_filtered (stats s)))
  /\ (is_valid_url (url_validator s) url = true ->
      exists n,
        normalize_url url = Returned n
        /\ (snd (add_url s url priority) = s
            \/ snd (add_url s url priority)
               = set_priority_urls s (priority_urls s ++ [n])
            \/ snd (add_url s url priority)
               = set_regular_urls s (regular_urls s ++ [n]))).
Proof.
  unfold add_url.
  destruct (is_valid_url (url_validator s) url) eqn:Hv; cbn [negb].
  - destruct (valid_url_normalizes _ _ Hv) as ((n & Hn) & (p & Hp)).
    rewrite Hn, Hp. split; [discriminate|]. intros _. exists n. split; [reflexivity|].
    destruct (_ || _); [auto|].
    destruct (8 <=? priority + p)%Z; destruct (negb _); cbn [snd]; auto.
  - split; [reflexivity | discriminate].
Qed.

(** X3. [add_url] never raises. A URL that the validator rejects only
    increments [urls_filtered]; a URL that it accepts has a canonical
    form, and the scraper is unchanged or that canonical form is appended
    at the back of the priority queue or of the regular queue. *)
Theorem add_url_never_raises (s : t) (url : string) (priority : Z) :
  fst (add_url s url priority) = Returned tt
  /\ (is_valid_url (url_validator s) url = false ->
      snd (add_url s url priority) = set_stats s (incr_urls_filtered (stats s)))
  /\ (is_valid_url (url_validator s) url = true ->
      exists n,
        normalize_url url = Returned n
        /\ (snd (add_url s url priority) = s
            \/ snd (add_url s url priority)
               = set_priority_urls s (priority_urls s ++ [n])
            \/ snd (add_url s url priority)
               = set_regular_urls s (regular_urls s ++ [n]))).
Proof.
  split; [apply add_url_returns | apply add_url_effect].
Qed.

(** X4. Insert and lookup on the frontier: when both queues are
    empty, the page cap is not reached, and a valid URL's canonical form is
    neither visited nor failed, [add_url] followed by [get_next_url]
    returns that canonical form and leaves the scraper as it was before
    the insertion. *)
Theorem add_then_get_returns_url (s : t) (url : string) (priority : Z) (n : string) :
  is_valid_url (url_validator s) url = true ->
  normalize_url url = Returned n ->
  n ∉ visited s -> n ∉ failed_urls s ->
  priority_urls s = [] -> regular_urls s = [] ->
  (Z.of_nat (length (page_summaries s)) < max_pages s)%Z ->
  get_next_url (snd (add_url s url priority)) = (Some n, s).
Proof.
  intros Hv Hn Hvis Hfail Hp Hr Hcap.
  destruct (valid_url_normalizes _ _ Hv) as (_ & (p & Hpr)).
  unfold add_url. rewrite Hv, Hn, Hpr. cbn [negb].
  rewrite (bool_decide_eq_false_2 _ Hvis), (bool_decide_eq_false_2 _ Hfail). cbn [orb].
  rewrite Hp, Hr. cbn [in_queue mem existsb negb app].
  destruct (8 <=? priority + p)%Z; cbn [snd]; unfold get_next_url;
    cbn [set_priority_urls set_regular_urls max_pages page_summaries
         priority_urls regular_urls];
    rewrite ?Hp;
    (destruct (Z.leb_spec (max_pages s) (Z.of_nat (length (page_summaries s))));
     [lia|]);
    f_equal; destruct s; cbn in *; subst; reflexivity.
Qed.

(** X4 at a concrete input. *)
Lemma add_then_get_returns_url_witness :
  exists s0 : t,
    init "https://example.com" 50 = Returned s0
    /\ (let s := snd (get_next_url s0) in
        get_next_url (snd (add_url s "https://example.com/about/" 0))
        = (Some "https://example.com/about", s)).
Proof.
  eexists. split; [vm_compute; reflexivity|]. cbv zeta.
  apply add_then_get_returns_url.
  - vm_compute. reflexivity.
  - vm_compute. reflexivity.
  - apply not_elem_of_empty.
  - apply not_elem_of_empty.
  - reflexivity.
  - reflexivity.
  - vm_compute. reflexivity.
Defined.
End AddUrlExtras.

(** ** Further properties: the bookkeeping of the scraper *)

Section ProgressExtras.
Import SmartWebScraper.

Lemma progress_refl s : progress s s.
Proof. constructor; auto; lia. Qed.

Lemma progress_trans s1 s2 s3 : progress s1 s2 -> progress s2 s3 -> progress s1 s3.
Proof. intros [] []. constructor; auto; try lia; congruence. Qed.

Lemma same_books_refl s : same_books s s.
Proof. unfold same_books. repeat split; auto; lia. Qed.

Lemma same_books_trans s1 s2 s3 :
  same_books s1 s2 -> same_books s2 s3 -> same_books s1 s3.
Proof.
  unfold same_books. intros (? & ? & ? & ? & ? & ? & ? & ? & ?) (? & ? & ? & ? & ? & ? & ? & ? & ?).
  repeat split; try congruence; lia.
Qed.

Lemma same_books_progress s s' : same_books s s' -> progress s s'.
Proof.
  unfold same_books. intros (Hm & Hs & Hv & Hf & Hr & He & Hra & Ht & Hfi).
  constructor; rewrite ?Hs, ?Hr, ?He, ?Hra, ?Ht, ?Hv, ?Hf; auto; lia.
Qed.

Lemma add_url_books s url priority : same_books s (snd (add_url s url priority)).
Proof.
  destruct (add_url_effect s url priority) as (Hinv & Hval).
  destruct (SmartURLValidator.is_valid_url (url_validator s) url).
  - destruct (Hval eq_refl) as (n & _ & [-> | [-> | ->]]);
      unfold same_books; cbn; repeat split; auto; lia.
  - rewrite (Hinv eq_refl). unfold same_books; cbn; repeat split; auto; lia.
Qed.

Lemma get_next_url_books s : same_books s (snd (get_next_url s)).
Proof.
  unfold get_next_url. destruct (_ <=? _)%Z; [apply same_books_refl|].
  destruct (priority_urls s); [destruct (regular_urls s)|];
    unfold same_books; cbn; repeat split; auto; lia.
Qed.

Section WithWorld.
Context {W : Type} `{World W}.

Lemma smart_delay_books s (w : W) : same_books s (fst (smart_delay s w)).
Proof. unfold smart_delay, same_books. cbn. repeat split; auto; lia. Qed.

Lemma add_links_books links : forall s n, same_books s (snd (add_links s links n)).
Proof.
  induction links as [|link rest IH]; intros s n; cbn [add_links].
  - apply same_books_refl.
  - destruct (SmartURLValidator.is_valid_url _ _) eqn:Hv; [| apply IH].
    pose proof (add_url_books s link 0) as Hb.
    destruct (add_url s link 0) as [[u|e] s'] eqn:Ha; cbn [fst snd] in *; [| assumption].
    eapply same_books_trans; [eassumption | apply IH].
Qed.

Lemma process_response_books url response s :
  same_books s (snd (_process_response url response s)).
Proof.
  unfold _process_response. destruct (negb _); [apply same_books_refl|].
  pose proof (add_links_books (page_links response) s 0) as Hb.
  destruct (add_links s (page_links response) 0) as [[n|e] s']; assumption.
Qed.

(** A request counts itself and otherwise keeps the books. *)
Lemma make_request_books url s (w : W) :
  same_books (set_stats s (incr_requests_made (stats s)))
             (fst (snd (_make_request url (s, w)))).
Proof.
  unfold _make_request.
  set (s1 := set_stats s (incr_requests_made (stats s))).
  destruct (session_get url w) as [[response|e] w']; [| apply same_books_refl].
  destruct (_ =? 429)%Z; [apply same_books_refl|].
  destruct (existsb _ _); [apply same_books_refl|].
  destruct (raise_for_status response); [| apply same_books_refl].
  set (s2 := set_adaptive_delay s1 (delay_after_success s1)).
  pose proof (process_response_books url response s2) as Hb.
  destruct (_process_response url response s2) as [o s3]. cbn [fst snd] in *.
  eapply same_books_trans; [| exact Hb].
  unfold same_books. cbn. repeat split; auto; lia.
Qed.

Lemma scrape_page_progress url s (w : W) :
  let r := scrape_page url s w in
  progress s (snd (fst r))
  /\ page_summaries (snd (fst r)) = page_summaries s
  /\ max_pages (snd (fst r)) = max_pages s
  /\ (forall page, fst (fst r) = Returned (Some page) ->
        requests_made (stats (snd (fst r))) = (requests_made (stats s) + 1)%Z).
Proof.
  cbv zeta. unfold scrape_page.
  destruct (normalize_url url) as [n|e];
    [| cbn; split; [apply progress_refl | repeat split; auto; discriminate]].
  destruct (bool_decide _);
    [cbn; split; [apply progress_refl | repeat split; auto; discriminate]|].
  set (s1 := set_visited s ({[n]} ∪ visited s)).
  assert (H1 : progress s s1).
  { constructor; cbn; auto; try lia. intros Hsub. etransitivity; [exact Hsub|].
    apply union_subseteq_r. }
  destruct (negb _); [cbn; split; [assumption | repeat split; auto; discriminate]|].
  pose proof (smart_delay_books s1 w) as H2.
  destruct (smart_delay s1 w) as [s2 w2]. cbn [fst] in H2.
  unfold CircuitBreaker.call.
  destruct (CircuitBreaker.gate _ _) as [e|cb1].
  - cbn [fst snd].
    assert (Hs2 : page_summaries s2 = page_summaries s /\ max_pages s2 = max_pages s).
    { destruct H2 as (? & ? & _). cbn in *. split; congruence. }
    split.
    + eapply progress_trans; [exact H1|].
      eapply progress_trans; [apply same_books_progress; exact H2|].
      match goal with |- context [if ?b then _ else _] => destruct b end;
        [| match goal with |- context [if ?b then _ else _] => destruct b end ].
      all: constructor; cbn; auto; try lia.
      all: intros Hsub; apply union_least; [| etransitivity; [exact Hsub|]; reflexivity].
      all: destruct H2 as (_ & _ & Hv & _); rewrite Hv; cbn; apply elem_of_subseteq_singleton, elem_of_union_l, elem_of_singleton; reflexivity.
    + match goal with |- context [if ?b then _ else _] => destruct b end;
        [| match goal with |- context [if ?b then _ else _] => destruct b end ];
        cbn; repeat split; try tauto; discriminate.
  - pose proof (make_request_books url s2 w2) as H3.
    destruct (_make_request url (s2, w2)) as [[r|e] [s3 w3]]; cbn [fst snd] in *.
    + assert (Hb : same_books (set_stats s1 (incr_requests_made (stats s1)))
                              (set_cb_server_error s3 (CircuitBreaker.on_success cb1))).
      { eapply same_books_trans; [| eapply same_books_trans; [exact H3|]].
        - destruct H2 as (? & ? & ? & ? & ? & ? & ? & ? & ?).
          unfold same_books; cbn in *. repeat split; auto; try congruence; lia.
        - unfold same_books; cbn. repeat split; auto; lia. }
      destruct Hb as (Hm & Hs & Hv & Hf & Hr & He & Hra & Ht & Hfi). cbn in *.
      split; [| split; [assumption | split; [assumption|]]].
      * eapply progress_trans; [exact H1|].
        constructor; cbn; rewrite ?Hs, ?Hr, ?He, ?Hra, ?Ht, ?Hv, ?Hf; cbn; auto; lia.
      * intros _ _. rewrite Hr. reflexivity.
    + assert (Hb : same_books (set_stats s1 (incr_requests_made (stats s1))) s3).
      { eapply same_books_trans; [| exact H3].
        destruct H2 as (? & ? & ? & ? & ? & ? & ? & ? & ?).
        unfold same_books; cbn in *. repeat split; auto; try congruence; lia. }
      destruct Hb as (Hm & Hs & Hv & Hf & Hr & He & Hra & Ht & Hfi). cbn in *.
      match goal with |- context [if ?b then _ else _] => destruct b end;
        [| match goal with |- context [if ?b then _ else _] => destruct b end ].
      all: cbn; split; [| repeat split; auto; discriminate].
      all: eapply progress_trans; [exact H1|].
      all: constructor; cbn; rewrite ?Hs, ?Hr, ?He, ?Hra, ?Ht, ?Hv, ?Hf; cbn; auto; try lia.
      all: intros Hsub; apply union_least; [| etransitivity; [exact Hsub|]; reflexivity].
      all: apply elem_of_subseteq_singleton, elem_of_union_l, elem_of_singleton; reflexivity.
Qed.

Lemma process_url_progress url s (w : W) :
  progress s (snd (fst (process_url url s w))).
Proof.
  unfold process_url.
  destruct (scrape_page_progress url s w) as (Hp & Hs & Hm & Hreq).
  destruct (scrape_page url s w) as [[[[page|]|e] s1] w1]; cbn [fst snd] in *; auto.
  destruct (summarize_page page w1) as [sd w2]. cbn [fst snd].
  specialize (Hreq page eq_refl). destruct Hp as [? ? ? ? ? ? ? ?].
  constructor; cbn; rewrite ?length_app, ?Hs; cbn; auto; try lia.
Qed.

Lemma step_progress s s' : step s s' -> progress s s'.
Proof.
  destruct 1.
  - apply same_books_progress, add_url_books.
  - apply same_books_progress, get_next_url_books.
  - apply same_books_progress, smart_delay_books.
  - apply scrape_page_progress.
  - apply process_url_progress.
Qed.

Lemma reachable_progress s0 s : reachable s0 s -> progress s0 s.
Proof.
  induction 1 as [|s s' _ IH Hstep]; [apply progress_refl|].
  eapply progress_trans; [exact IH | now apply step_progress].
Qed.

(** X5. The page cap is final: once the number of page summaries has
    reached [max_pages], [get_next_url] returns [None] in every later
    state of the scraper, whatever is still queued. *)
Theorem page_cap_is_final (s s' : t) :
  reachable s s' ->
  (max_pages s <= Z.of_nat (length (page_summaries s)))%Z ->
  get_next_url s' = (None, s').
Proof.
  intros Hreach Hcap. destruct (reachable_progress _ _ Hreach) as [Hm Hs _ _ _ _ _ _].
  unfold get_next_url.
  destruct (Z.leb_spec (max_pages s') (Z.of_nat (length (page_summaries s'))));
    [reflexivity | lia].
Qed.

Lemma init_books base_url max_pages s0 :
  init base_url max_pages = Returned s0 ->
  failed_urls s0 = ∅ /\ page_summaries s0 = []
  /\ stats s0 = mkStats 0 0 0 0 0 /\ SmartWebScraper.max_pages s0 = max_pages.
Proof.
  unfold init. destruct (UrlParse.urlparse base_url) as [parsed|e]; [| discriminate].
  destruct (SmartURLValidator.is_valid_url _ _) eqn:Hv; cbn [negb]; [| discriminate].
  match goal with
  | |- context [add_url ?s base_url 10] =>
      destruct (add_url_effect s base_url 10) as (_ & Hval);
      destruct (Hval Hv) as (n & _ & Hs);
      destruct (add_url s base_url 10) as [[u|e] s1]; [| discriminate]
  end.
  intros [= <-]. cbn [snd] in Hs. destruct Hs as [-> | [-> | ->]]; cbn; auto.
Qed.

(** X6. The counters of a scraper built by the constructor balance in
    every reachable state: each failed URL is also visited, the number of
    page summaries is at most [requests_made] (so the request success
    rate of the final statistics is at most 100 percent), rate-limit hits
    plus breaker trips are at most [errors_encountered], no counter is
    negative, and [max_pages] is the constructor's argument. *)
Theorem scraper_books_balance base_url max_pages s0 s :
  init base_url max_pages = Returned s0 ->
  reachable s0 s ->
  failed_urls s ⊆ visited s
  /\ (0 <= rate_limit_hits (stats s))%Z
  /\ (0 <= circuit_breaker_trips (stats s))%Z
  /\ (rate_limit_hits (stats s) + circuit_breaker_trips (stats s)
      <= errors_encountered (stats s))%Z
  /\ (Z.of_nat (length (page_summaries s)) <= requests_made (stats s))%Z
  /\ (0 <= urls_filtered (stats s))%Z
  /\ SmartWebScraper.max_pages s = max_pages.
Proof.
  intros Hinit Hreach.
  destruct (init_books _ _ _ Hinit) as (Hf & Hs & Hst & Hm).
  destruct (reachable_progress _ _ Hreach) as [Hm' Hsum Hreq Hfil Hrate Htrips Herr Hfail].
  rewrite Hst, Hs in *. cbn in *.
  split; [apply Hfail; rewrite Hf; apply empty_subseteq|].
  repeat split; try lia; congruence.
Qed.
End WithWorld.

(** X5 at a concrete input. *)
Lemma page_cap_is_final_witness :
  exists s0 : t,
    init "https://example.com" 0 = Returned s0
    /\ (let s := snd (add_url s0 "https://example.com/blog/" 0) in
        reachable (W := Mock.world Response) s0 s
        /\ get_next_url s = (None, s)).
Proof.
  eexists. split; [vm_compute; reflexivity|]. cbv zeta.
  match goal with
  | |- reachable ?s0 ?s /\ _ =>
      assert (Hr : reachable (W := Mock.world Response) s0 s)
        by (eapply reach_step; [apply reach_refl | apply step_add_url])
  end.
  split; [exact Hr|].
  apply (page_cap_is_final (W := Mock.world Response) _ _ Hr).
  vm_compute. discriminate.
Defined.

(** X6 at a concrete input. *)
Lemma scraper_books_balance_witness :
  exists s0 : t,
    init "https://example.com" 50 = Returned s0
    /\ (let s := snd (fst (process_url "https://example.com/" s0 rate_limited_world)) in
        reachable (W := Mock.world Response) s0 s
        /\ (Z.of_nat (length (page_summaries s)) <= requests_made (stats s))%Z).
Proof.
  eexists. split; [vm_compute; reflexivity|]. cbv zeta.
  match goal with
  | |- reachable ?s0 ?s /\ _ =>
      assert (Hr : reachable (W := Mock.world Response) s0 s)
        by (eapply reach_step; [apply reach_refl | apply step_process_url])
  end.
  split; [exact Hr|].
  eapply (scraper_books_balance (W := Mock.world Response)
            "https://example.com" 50 _ _ _ Hr).
  Unshelve. vm_compute. reflexivity.
Defined.
End ProgressExtras.

(** ** Further properties: the paths of [scrape_page] and [process_url] *)

Section ScrapeExtras.
Import PyStr SmartWebScraper.

Section ScrapeWorld.
Context {W : Type} `{World W}.

(** X7. [scrape_page] raises only what [normalize_url] raises, and
    then changes nothing; otherwise it returns, and the canonical form of
    the URL is in the visited set afterwards. A URL not yet visited that
    robots.txt disallows is marked visited and nothing else happens: no
    request, no delay, no error counted. *)
Theorem scrape_page_marks_visited (url : string) (s : t) (w : W) :
  (forall e, normalize_url url = Raised e -> scrape_page url s w = (Raised e, s, w))
  /\ (forall n, normalize_url url = Returned n ->
       (exists result, fst (fst (scrape_page url s w)) = Returned result)
       /\ n ∈ visited (snd (fst (scrape_page url s w)))
       /\ (can_fetch url w = false -> n ∉ visited s ->
           scrape_page url s w
           = (Returned None, set_visited s ({[n]} ∪ visited s), w))).
Proof.
  split.
  - intros e He. unfold scrape_page. now rewrite He.
  - intros n Hn. unfold scrape_page. rewrite Hn.
    destruct (bool_decide (n ∈ visited s)) eqn:Hvis.
    { apply bool_decide_eq_true in Hvis. cbn. split; [eauto|]. split; [assumption|].
      intros _ Hnot. contradiction. }
    destruct (can_fetch url w) eqn:Hcf; cbn [negb].
    2:{ cbn. split; [eauto|]. split; [apply elem_of_union_l, elem_of_singleton; reflexivity|].
        reflexivity. }
    set (s1 := set_visited s ({[n]} ∪ visited s)).
    assert (Hin1 : n ∈ visited s1) by (apply elem_of_union_l, elem_of_singleton; reflexivity).
    pose proof (smart_delay_books s1 w) as H2.
    destruct (smart_delay s1 w) as [s2 w2]. cbn [fst] in H2.
    assert (Hin2 : n ∈ visited s2) by (destruct H2 as (_ & _ & -> & _); exact Hin1).
    unfold CircuitBreaker.call.
    destruct (CircuitBreaker.gate _ _) as [e|cb1].
    + cbn [fst snd]. split; [eauto|]. split; [| discriminate].
      match goal with |- context [if ?b then _ else _] => destruct b end;
        [| match goal with |- context [if ?b then _ else _] => destruct b end ];
        cbn; exact Hin2.
    + pose proof (make_request_books url s2 w2) as H3.
      destruct (_make_request url (s2, w2)) as [[r|e] [s3 w3]]; cbn [fst snd] in *.
      * split; [eauto|]. split; [| discriminate]. cbn.
        destruct H3 as (_ & _ & -> & _). exact Hin2.
      * split; [eauto|]. split; [| discriminate].
        destruct H3 as (_ & _ & Hv & _).
        match goal with |- context [if ?b then _ else _] => destruct b end;
          [| match goal with |- context [if ?b then _ else _] => destruct b end ];
          cbn; rewrite Hv; exact Hin2.
Qed.

(** X8. With the server-error breaker open and its recovery timeout
    not yet elapsed, [scrape_page] makes no request (the world is the one
    left by [smart_delay], [requests_made] is unchanged), returns [None],
    marks the URL failed, counts one error and one breaker trip,
    multiplies the adaptive delay by 1.5 up to the cap 10, and leaves the
    breaker as it is. *)
Theorem scrape_page_with_open_breaker (url n : string) (s : t) (w : W) (tl : Q) :
  normalize_url url = Returned n ->
  n ∉ visited s ->
  can_fetch url w = true ->
  CircuitBreaker.state (cb_server_error s) = CircuitBreaker.open ->
  CircuitBreaker.last_failure_time (cb_server_error s) = Some tl ->
  let w1 := snd (smart_delay (set_visited s ({[n]} ∪ visited s)) w) in
  (time w1 - tl <= CircuitBreaker.recovery_timeout (cb_server_error s))%Q ->
  let r := scrape_page url s w in
  fst (fst r) = Returned None
  /\ snd r = w1
  /\ requests_made (stats (snd (fst r))) = requests_made (stats s)
  /\ failed_urls (snd (fst r)) = {[n]} ∪ failed_urls s
  /\ errors_encountered (stats (snd (fst r))) = (errors_encountered (stats s) + 1)%Z
  /\ circuit_breaker_trips (stats (snd (fst r)))
     = (circuit_breaker_trips (stats s) + 1)%Z
  /\ adaptive_delay (snd (fst r)) = py_min (adaptive_delay s * 1.5) 10
  /\ cb_server_error (snd (fst r)) = cb_server_error s.
Proof.
  intros Hn Hvis Hcf Hopen Htl w1 Hearly r. subst r w1.
  unfold scrape_page. rewrite Hn, (bool_decide_eq_false_2 _ Hvis), Hcf. cbn [negb].
  destruct (smart_delay (set_visited s ({[n]} ∪ visited s)) w) as [s2 w2] eqn:Hsd.
  pose proof (f_equal fst Hsd) as Hs2. unfold smart_delay in Hs2. cbn [fst] in Hs2.
  cbn [snd] in Hearly. subst s2.
  unfold CircuitBreaker.call, CircuitBreaker.gate.
  cbn [cb_server_error set_last_request_time set_visited snd fst].
  rewrite Hopen, Htl, (proj2 (Qgtb_false _ _) Hearly).
  cbn [str CircuitBreaker.circuit_open].
  replace (contains "Circuit breaker is OPEN" "Circuit breaker is OPEN - too many failures")
    with true by (vm_compute; reflexivity).
  cbn. repeat split; reflexivity.
Qed.

Lemma add_links_returns (links : list string) : forall (s : t) (n : Z),
  fst (add_links s links n)
  = Returned (n + Z.of_nat (length (List.filter
                 (SmartURLValidator.is_valid_url (url_validator s)) links)))%Z.
Proof.
  induction links as [|link rest IH]; intros s n; cbn [add_links List.filter].
  - cbn. f_equal. lia.
  - destruct (SmartURLValidator.is_valid_url (url_validator s) link) eqn:Hv.
    + pose proof (add_url_returns s link 0) as Hr.
      pose proof (add_url_ext s link 0) as Hext.
      destruct (add_url s link 0) as [[[]|e] s1]; cbn [fst snd] in *; [| discriminate].
      rewrite IH. rewrite (ext_validator _ _ Hext). cbn [length]. f_equal. lia.
    + apply IH.
Qed.

Lemma add_url_delay (s : t) (url : string) (priority : Z) :
  adaptive_delay (snd (add_url s url priority)) = adaptive_delay s.
Proof.
  unfold add_url.
  repeat match goal with
         | |- context [if ?b then _ else _] => destruct b
         | |- context [match ?x with Returned _ => _ | Raised _ => _ end] => destruct x
         end; reflexivity.
Qed.

Lemma add_links_delay (links : list string) : forall (s : t) (n : Z),
  adaptive_delay (snd (add_links s links n)) = adaptive_delay s.
Proof.
  induction links as [|link rest IH]; intros s n; cbn [add_links]; [reflexivity|].
  destruct (SmartURLValidator.is_valid_url (url_validator s) link); [| apply IH].
  pose proof (add_url_delay s link 0) as Hd.
  destruct (add_url s link 0) as [[[]|e] s1]; cbn [snd] in *; [| exact Hd].
  rewrite IH. exact Hd.
Qed.

(** A request that fails before the page is looked at has only counted
    the request. *)
Lemma make_request_error (url : string) (s : t) (w : W)
    (o : outcome Response) (w2 : W) (e : exn) :
  session_get url w = (o, w2) ->
  request_error o = Some e ->
  _make_request url (s, w)
  = (Raised e, (set_stats s (incr_requests_made (stats s)), w2)).
Proof.
  intros Hget Herr. unfold _make_request. rewrite Hget.
  destruct o as [response|e']; cbn [request_error] in Herr.
  - destruct (_ =? 429)%Z; [injection Herr as <-; reflexivity|].
    destruct (existsb _ _); [injection Herr as <-; reflexivity|].
    destruct (raise_for_status response);
      [discriminate | injection Herr as <-; reflexivity].
  - injection Herr as <-. reflexivity.
Qed.

(** The breaker that the prologue of [call] lets through differs from
    the breaker before it in its state at most. *)
Lemma gate_through (cb cb1 : CircuitBreaker.t) (now : Q) :
  CircuitBreaker.gate cb now = inr cb1 ->
  cb1 = cb \/ cb1 = CircuitBreaker.set_state cb CircuitBreaker.half_open.
Proof.
  unfold CircuitBreaker.gate. intros Hg.
  destruct (CircuitBreaker.state cb);
    [injection Hg as <-; now left | | injection Hg as <-; now left].
  destruct (CircuitBreaker.last_failure_time cb); [| discriminate].
  destruct (Qgtb _ _); [injection Hg as <-; now right | discriminate].
Qed.

(** X9. How [scrape_page] handles a request that the breaker lets
    through (the breaker is not open, or it is open and more than the
    recovery timeout has passed since its last failure) and that fails
    before the page is looked at: [session.get] raises, or the status is
    429, 522, 503 or 504, or [raise_for_status] raises. The result is
    [None], the URL is marked failed, one request and one error are
    counted, no link is queued, and the breaker records one more failure
    at the time after the request; it is open afterwards when this
    failure reaches its threshold, and otherwise in the state in which
    it let the call through. The error is classified by its text alone:
    a text with [Circuit breaker is OPEN] counts a breaker trip and
    multiplies the delay by 1.5 up to 10; otherwise a text with [429] or
    [rate limit] counts a rate-limit hit and doubles the delay up to 15;
    any other error leaves the delay and both counters unchanged. *)
Theorem failed_request_handling (url n : string) (s : t) (w : W)
    (cb1 : CircuitBreaker.t) (o : outcome Response) (w2 : W) (e : exn) :
  normalize_url url = Returned n ->
  n ∉ visited s ->
  can_fetch url w = true ->
  let w1 := snd (smart_delay (set_visited s ({[n]} ∪ visited s)) w) in
  CircuitBreaker.gate (cb_server_error s) (time w1) = inr cb1 ->
  session_get url w1 = (o, w2) ->
  request_error o = Some e ->
  let r := scrape_page url s w in
  let s' := snd (fst r) in
  fst (fst r) = Returned None
  /\ snd r = w2
  /\ failed_urls s' = {[n]} ∪ failed_urls s
  /\ requests_made (stats s') = (requests_made (stats s) + 1)%Z
  /\ errors_encountered (stats s') = (errors_encountered (stats s) + 1)%Z
  /\ priority_urls s' = priority_urls s /\ regular_urls s' = regular_urls s
  /\ CircuitBreaker.failure_count (cb_server_error s')
     = (CircuitBreaker.failure_count (cb_server_error s) + 1)%Z
  /\ CircuitBreaker.last_failure_time (cb_server_error s') = Some (time w2)
  /\ CircuitBreaker.state (cb_server_error s')
     = (if (CircuitBreaker.failure_threshold (cb_server_error s)
            <=? CircuitBreaker.failure_count (cb_server_error s) + 1)%Z
        then CircuitBreaker.open else CircuitBreaker.state cb1)
  /\ (if contains "Circuit breaker is OPEN" (str e)
      then adaptive_delay s' = py_min (adaptive_delay s * 1.5) 10
           /\ circuit_breaker_trips (stats s') = (circuit_breaker_trips (stats s) + 1)%Z
           /\ rate_limit_hits (stats s') = rate_limit_hits (stats s)
      else if contains "429" (str e) || contains "rate limit" (lower (str e))
      then adaptive_delay s' = py_min (adaptive_delay s * 2) 15
           /\ circuit_breaker_trips (stats s') = circuit_breaker_trips (stats s)
           /\ rate_limit_hits (stats s') = (rate_limit_hits (stats s) + 1)%Z
      else adaptive_delay s' = adaptive_delay s
           /\ circuit_breaker_trips (stats s') = circuit_breaker_trips (stats s)
           /\ rate_limit_hits (stats s') = rate_limit_hits (stats s)).
Proof.
  intros Hn Hvis Hcf w1 Hgate Hget Herr r s'. subst r s'.
  unfold scrape_page. rewrite Hn, (bool_decide_eq_false_2 _ Hvis), Hcf. cbn [negb].
  subst w1.
  destruct (smart_delay (set_visited s ({[n]} ∪ visited s)) w) as [s2 w1] eqn:Hsd.
  pose proof (f_equal fst Hsd) as Hs2. unfold smart_delay in Hs2. cbn [fst] in Hs2.
  cbn [snd] in Hgate, Hget.
  assert (Hcb : cb_server_error s2 = cb_server_error s) by (subst s2; reflexivity).
  unfold CircuitBreaker.call. cbn [snd]. rewrite Hcb, Hgate.
  rewrite (make_request_error url s2 w1 o w2 e Hget Herr).
  subst s2.
  destruct (gate_through _ _ _ Hgate) as [-> | ->];
    (destruct (contains "Circuit breaker is OPEN" (str e));
     [| destruct (contains "429" (str e) || contains "rate limit" (lower (str e)))];
     cbn; repeat split; reflexivity).
Qed.

(** X10. A response with status 429, 522, 503 or 504 is a failure:
    [scrape_page] returns [None], marks the URL failed and the breaker
    counts one more failure. Only 429 is a rate-limit hit that doubles the
    adaptive delay (up to 15); after 522, 503 and 504 the delay and the
    rate-limit counter are unchanged. None of them counts as a breaker
    trip. *)
Theorem throttling_status_handling (url n : string) (s : t) (w : W)
    (response : Response) (w2 : W) :
  normalize_url url = Returned n ->
  n ∉ visited s ->
  can_fetch url w = true ->
  CircuitBreaker.state (cb_server_error s) <> CircuitBreaker.open ->
  session_get url (snd (smart_delay (set_visited s ({[n]} ∪ visited s)) w))
    = (Returned response, w2) ->
  In (status_code response) [429; 522; 503; 504]%Z ->
  let r := scrape_page url s w in
  let s' := snd (fst r) in
  fst (fst r) = Returned None
  /\ snd r = w2
  /\ n ∈ failed_urls s'
  /\ CircuitBreaker.failure_count (cb_server_error s')
     = (CircuitBreaker.failure_count (cb_server_error s) + 1)%Z
  /\ circuit_breaker_trips (stats s') = circuit_breaker_trips (stats s)
  /\ (if (status_code response =? 429)%Z
      then adaptive_delay s' = py_min (adaptive_delay s * 2) 15
           /\ rate_limit_hits (stats s') = (rate_limit_hits (stats s) + 1)%Z
      else adaptive_delay s' = adaptive_delay s
           /\ rate_limit_hits (stats s') = rate_limit_hits (stats s)).
Proof.
  intros Hn Hvis Hcf Hstate Hget Hst r s'. subst r s'.
  unfold scrape_page. rewrite Hn, (bool_decide_eq_false_2 _ Hvis), Hcf. cbn [negb].
  destruct (smart_delay (set_visited s ({[n]} ∪ visited s)) w) as [s2 w1] eqn:Hsd.
  pose proof (f_equal fst Hsd) as Hs2. unfold smart_delay in Hs2. cbn [fst] in Hs2.
  cbn [snd] in Hget.
  unfold CircuitBreaker.call, CircuitBreaker.gate.
  assert (Hcb : cb_server_error s2 = cb_server_error s) by (subst s2; reflexivity).
  rewrite Hcb. unfold _make_request. rewrite Hget.
  assert (Hin : forall x, n ∈ ({[n]} ∪ x : gset string))
    by (intros x; apply elem_of_union_l, elem_of_singleton; reflexivity).
  cbn in Hst.
  destruct (CircuitBreaker.state (cb_server_error s)) eqn:Hstc; [| contradiction |];
    (destruct Hst as [E|[E|[E|[E|[]]]]]; rewrite <- E; subst s2;
     cbn; repeat split; first [reflexivity | apply Hin]).
Qed.

Lemma raise_for_status_ok (response : Response) :
  (status_code response < 400 \/ 600 <= status_code response)%Z ->
  (status_code response =? 429)%Z = false
  /\ existsb (Z.eqb (status_code response)) [522; 503; 504]%Z = false
  /\ raise_for_status response = Returned tt.
Proof.
  intros Hst. unfold raise_for_status. cbn [existsb].
  repeat match goal with
         | |- context [(?a =? ?b)%Z] => destruct (Z.eqb_spec a b); [lia|]
         | |- context [(?a <=? ?b)%Z] => destruct (Z.leb_spec a b)
         | |- context [(?a <? ?b)%Z] => destruct (Z.ltb_spec a b)
         end; cbn; repeat split; reflexivity || lia.
Qed.

(** X11. A response without error status whose content type is not
    HTML yields no page: [process_url] returns [None] and adds no
    summary, the URL is visited but not failed, no link is queued and no
    error is counted, while the request is counted as made, the adaptive
    delay decays as after a success, and the breaker records a success. *)
Theorem non_html_response_is_dropped (url n : string) (s : t) (w : W)
    (response : Response) (w2 : W) :
  normalize_url url = Returned n ->
  n ∉ visited s ->
  can_fetch url w = true ->
  CircuitBreaker.state (cb_server_error s) <> CircuitBreaker.open ->
  session_get url (snd (smart_delay (set_visited s ({[n]} ∪ visited s)) w))
    = (Returned response, w2) ->
  (status_code response < 400 \/ 600 <= status_code response)%Z ->
  contains "text/html" (lower (content_type response)) = false ->
  let r := process_url url s w in
  let s' := snd (fst r) in
  fst (fst r) = Returned None
  /\ snd r = w2
  /\ visited s' = {[n]} ∪ visited s
  /\ failed_urls s' = failed_urls s
  /\ page_summaries s' = page_summaries s
  /\ priority_urls s' = priority_urls s /\ regular_urls s' = regular_urls s
  /\ requests_made (stats s') = (requests_made (stats s) + 1)%Z
  /\ errors_encountered (stats s') = errors_encountered (stats s)
  /\ adaptive_delay s' = py_max (adaptive_delay s * 0.9) (min_delay s)
  /\ cb_server_error s' = CircuitBreaker.on_success (cb_server_error s).
Proof.
  intros Hn Hvis Hcf Hstate Hget Hst Hct r s'. subst r s'.
  destruct (raise_for_status_ok response Hst) as (H429 & H5 & Hok).
  unfold process_url, scrape_page.
  rewrite Hn, (bool_decide_eq_false_2 _ Hvis), Hcf. cbn [negb].
  destruct (smart_delay (set_visited s ({[n]} ∪ visited s)) w) as [s2 w1] eqn:Hsd.
  pose proof (f_equal fst Hsd) as Hs2. unfold smart_delay in Hs2. cbn [fst] in Hs2.
  cbn [snd] in Hget.
  unfold CircuitBreaker.call, CircuitBreaker.gate.
  assert (Hcb : cb_server_error s2 = cb_server_error s) by (subst s2; reflexivity).
  rewrite Hcb. unfold _make_request. rewrite Hget, H429, H5, Hok.
  unfold _process_response. rewrite Hct. cbn [negb].
  destruct (CircuitBreaker.state (cb_server_error s)) eqn:Hstc; [| contradiction |];
    subst s2; cbn; rewrite ?Hstc; repeat split; reflexivity.
Qed.

(** X12. An HTML response without error status yields a page for the
    requested URL whose [links_found] is the number of links that the
    validator accepts; [process_url] returns its summary and appends it to
    [page_summaries]; the URL is visited and not failed, one request and
    no error are counted, and the adaptive delay decays by the factor 0.9
    down to [min_delay]. *)
Theorem html_page_is_recorded (url n : string) (s : t) (w : W)
    (response : Response) (w2 : W) :
  normalize_url url = Returned n ->
  n ∉ visited s ->
  can_fetch url w = true ->
  CircuitBreaker.state (cb_server_error s) <> CircuitBreaker.open ->
  session_get url (snd (smart_delay (set_visited s ({[n]} ∪ visited s)) w))
    = (Returned response, w2) ->
  (status_code response < 400 \/ 600 <= status_code response)%Z ->
  contains "text/html" (lower (content_type response)) = true ->
  let r := process_url url s w in
  let s' := snd (fst r) in
  exists page,
    fst (fst (scrape_page url s w)) = Returned (Some page)
    /\ pd_url page = url
    /\ pd_links_found page
       = Z.of_nat (length (List.filter
           (SmartURLValidator.is_valid_url (url_validator s)) (page_links response)))
    /\ fst (fst r) = Returned (Some (fst (summarize_page page w2)))
    /\ snd r = snd (summarize_page page w2)
    /\ page_summaries s' = page_summaries s ++ [fst (summarize_page page w2)]
    /\ visited s' = {[n]} ∪ visited s
    /\ failed_urls s' = failed_urls s
    /\ requests_made (stats s') = (requests_made (stats s) + 1)%Z
    /\ errors_encountered (stats s') = errors_encountered (stats s)
    /\ adaptive_delay s' = py_max (adaptive_delay s * 0.9) (min_delay s).
Proof.
  intros Hn Hvis Hcf Hstate Hget Hst Hct r s'. subst r s'.
  destruct (raise_for_status_ok response Hst) as (H429 & H5 & Hok).
  unfold process_url, scrape_page.
  rewrite Hn, (bool_decide_eq_false_2 _ Hvis), Hcf. cbn [negb].
  destruct (smart_delay (set_visited s ({[n]} ∪ visited s)) w) as [s2 w1] eqn:Hsd.
  pose proof (f_equal fst Hsd) as Hs2. unfold smart_delay in Hs2. cbn [fst] in Hs2.
  cbn [snd] in Hget.
  unfold CircuitBreaker.call, CircuitBreaker.gate.
  assert (Hcb : cb_server_error s2 = cb_server_error s) by (subst s2; reflexivity).
  rewrite Hcb. unfold _make_request. rewrite Hget, H429, H5, Hok.
  unfold _process_response. rewrite Hct. cbn [negb].
  set (s3 := set_adaptive_delay (set_stats s2 (incr_requests_made (stats s2)))
               (delay_after_success (set_stats s2 (incr_requests_made (stats s2))))).
  pose proof (add_links_returns (page_links response) s3 0) as Hl.
  pose proof (add_links_books (page_links response) s3 0) as Hb.
  pose proof (add_links_delay (page_links response) s3 0) as Hd.
  assert (Hval : url_validator s3 = url_validator s) by (subst s3 s2; reflexivity).
  rewrite Hval in Hl.
  destruct (add_links s3 (page_links response) 0) as [[k|e] s4];
    unfold fst at 1 in Hl; [| discriminate].
  injection Hl as Hk. cbn [snd] in Hb, Hd.
  destruct Hb as (_ & Hsum & Hv & Hf & Hreq & Herr & _).
  eexists.
  destruct (CircuitBreaker.state (cb_server_error s)) eqn:Hstc; [| contradiction |];
    (destruct (summarize_page _ w2) as [summary w3] eqn:Hsum';
     cbn [fst snd]; rewrite ?Hsum';
     cbn [fst snd pd_url pd_links_found page_summaries set_page_summaries
          set_cb_server_error visited failed_urls stats adaptive_delay];
     rewrite Hsum, Hv, Hf, Hreq, Herr, Hd; subst s3 s2; cbn;
     repeat split; try reflexivity; rewrite Hk; lia).
Qed.
End ScrapeWorld.

(** X8 at a concrete input. *)
Lemma scrape_page_with_open_breaker_witness :
  exists s0 : t,
    init "https://example.com" 50 = Returned s0
    /\ (let s := with_breaker s0 opened_breaker in
        let r := scrape_page "https://example.com/" s (Mock.start []) in
        fst (fst r) = Returned None
        /\ Mock.calls (snd r) = 0%nat
        /\ circuit_breaker_trips (stats (snd (fst r))) = 1%Z
        /\ adaptive_delay (snd (fst r)) == 3).
Proof.
  eexists. split; [vm_compute; reflexivity|]. cbv zeta.
  match goal with
  | |- context [scrape_page ?url ?s ?w] =>
      pose proof (scrape_page_with_open_breaker (W := Mock.world Response)
                    url "https://example.com/" s w 1%Q) as Hx
  end.
  cbv zeta in Hx.
  destruct Hx as (Hres & Hw & _ & _ & _ & Htrips & Hdelay & _).
  - vm_compute. reflexivity.
  - apply not_elem_of_empty.
  - reflexivity.
  - vm_compute. reflexivity.
  - vm_compute. reflexivity.
  - vm_compute. discriminate.
  - split; [exact Hres|]. split; [rewrite Hw; vm_compute; reflexivity|].
    split; [rewrite Htrips; vm_compute; reflexivity|].
    rewrite Hdelay. vm_compute. reflexivity.
Defined.

(** X9 at two concrete inputs: a fresh scraper whose request times
    out, and a scraper whose breaker opened at time 1 and lets a request
    through at time 400, which is answered with status 503. *)
Lemma failed_request_handling_witness :
  exists s0 : t,
    init "https://example.com" 50 = Returned s0
    /\ (let w := Mock.start [Raised (OSError "Connection timed out")] in
        let r := scrape_page "https://example.com/" s0 w in
        fst (fst r) = Returned None
        /\ errors_encountered (stats (snd (fst r))) = 1%Z
        /\ CircuitBreaker.failure_count (cb_server_error (snd (fst r))) = 1%Z
        /\ CircuitBreaker.state (cb_server_error (snd (fst r)))
           = CircuitBreaker.closed)
    /\ (let s := with_breaker s0 opened_breaker in
        let w := Mock.mkWorld 400 [Returned (mkResponse 503 "Service Unavailable"
                                               "https://example.com/" "text/html"
                                               None [] "")] 0 [] (Returned []) in
        let r := scrape_page "https://example.com/" s w in
        fst (fst r) = Returned None
        /\ Mock.calls (snd r) = 1%nat
        /\ adaptive_delay (snd (fst r)) == 2
        /\ CircuitBreaker.state (cb_server_error (snd (fst r)))
           = CircuitBreaker.open
        /\ CircuitBreaker.last_failure_time (cb_server_error (snd (fst r)))
           = Some 400%Q).
Proof.
  eexists. split; [vm_compute; reflexivity|]. cbv zeta. split.
  - match goal with
    | |- context [scrape_page ?url ?s ?w] =>
        epose proof (failed_request_handling (W := Mock.world Response)
                       url "https://example.com/" s w _ _ _
                       (OSError "Connection timed out")) as Hx
    end.
    cbv zeta in Hx.
    destruct Hx as (Hres & _ & _ & _ & Herr & _ & _ & Hcount & _ & Hstate & _).
    + vm_compute. reflexivity.
    + apply not_elem_of_empty.
    + reflexivity.
    + vm_compute. reflexivity.
    + vm_compute. reflexivity.
    + reflexivity.
    + split; [exact Hres|].
      split; [rewrite Herr; vm_compute; reflexivity|].
      split; [rewrite Hcount; vm_compute; reflexivity|].
      rewrite Hstate. vm_compute. reflexivity.
  - match goal with
    | |- context [scrape_page ?url ?s ?w] =>
        epose proof (failed_request_handling (W := Mock.world Response)
                       url "https://example.com/" s w _ _ _
                       (Exception "Server error (503)")) as Hx
    end.
    cbv zeta in Hx.
    destruct Hx as (Hres & Hw & _ & _ & _ & _ & _ & _ & Hlast & Hstate & Hdelay & _).
    + vm_compute. reflexivity.
    + apply not_elem_of_empty.
    + reflexivity.
    + vm_compute. reflexivity.
    + vm_compute. reflexivity.
    + vm_compute. reflexivity.
    + split; [exact Hres|].
      split; [rewrite Hw; vm_compute; reflexivity|].
      split; [rewrite Hdelay; vm_compute; reflexivity|].
      split; [rewrite Hstate; vm_compute; reflexivity|].
      rewrite Hlast. vm_compute. reflexivity.
Defined.

(** X10 at a concrete input. *)
Lemma throttling_status_handling_witness :
  exists s0 : t,
    init "https://example.com" 50 = Returned s0
    /\ (let r := scrape_page "https://example.com/" s0 rate_limited_world in
        fst (fst r) = Returned None
        /\ "https://example.com/" ∈ failed_urls (snd (fst r))).
Proof.
  eexists. split; [vm_compute; reflexivity|]. cbv zeta.
  match goal with
  | |- context [scrape_page ?url ?s ?w] =>
      epose proof (throttling_status_handling (W := Mock.world Response)
                     url "https://example.com/" s w _ _) as Hx
  end.
  cbv zeta in Hx.
  destruct Hx as (Hres & _ & Hfail & _).
  - vm_compute. reflexivity.
  - apply not_elem_of_empty.
  - reflexivity.
  - vm_compute. discriminate.
  - vm_compute. reflexivity.
  - vm_compute. left. reflexivity.
  - split; [exact Hres | exact Hfail].
Defined.

(** X11 at a concrete input. *)
Lemma non_html_response_is_dropped_witness :
  exists s0 : t,
    init "https://example.com" 50 = Returned s0
    /\ (let r := process_url "https://example.com/report" s0
                             (Mock.start [Returned pdf_response]) in
        fst (fst r) = Returned None
        /\ failed_urls (snd (fst r)) = failed_urls s0
        /\ page_summaries (snd (fst r)) = page_summaries s0).
Proof.
  eexists. split; [vm_compute; reflexivity|]. cbv zeta.
  match goal with
  | |- context [process_url ?url ?s ?w] =>
      epose proof (non_html_response_is_dropped (W := Mock.world Response)
                     url "https://example.com/report" s w pdf_response _) as Hx
  end.
  cbv zeta in Hx.
  destruct Hx as (Hres & _ & _ & Hfail & Hsum & _).
  - vm_compute. reflexivity.
  - apply not_elem_of_empty.
  - reflexivity.
  - vm_compute. discriminate.
  - vm_compute. reflexivity.
  - left. vm_compute. reflexivity.
  - vm_compute. reflexivity.
  - split; [exact Hres|]. split; [exact Hfail | exact Hsum].
Defined.

(** X12 at a concrete input. *)
Lemma html_page_is_recorded_witness :
  exists s0 : t,
    init "https://example.com" 50 = Returned s0
    /\ (let r := process_url "https://example.com/b" s0
                             (Mock.start [Returned plain_page]) in
        exists page,
          fst (fst (scrape_page "https://example.com/b" s0
                                (Mock.start [Returned plain_page])))
          = Returned (Some page)
          /\ pd_url page = "https://example.com/b"
          /\ length (page_summaries (snd (fst r))) = 1%nat).
Proof.
  eexists. split; [vm_compute; reflexivity|]. cbv zeta.
  match goal with
  | |- context [process_url ?url ?s ?w] =>
      epose proof (html_page_is_recorded (W := Mock.world Response)
                     url "https://example.com/b" s w plain_page _) as Hx
  end.
  cbv zeta in Hx.
  destruct Hx as (page & Hres & Hurl & _ & _ & _ & Hsum & _).
  - vm_compute. reflexivity.
  - apply not_elem_of_empty.
  - reflexivity.
  - vm_compute. discriminate.
  - vm_compute. reflexivity.
  - left. vm_compute. reflexivity.
  - vm_compute. reflexivity.
  - exists page. split; [exact Hres|]. split; [exact Hurl|].
    rewrite Hsum. reflexivity.
Defined.

End ScrapeExtras.

(** ** Further properties: text normalisation and keywords *)

Section TextExtras.
Import PyStr Youtube.
Local Open Scope string_scope.

Lemma append_cons (x : ascii) (a b : string) : String x a ++ b = String x (a ++ b).
Proof. reflexivity. Qed.

Lemma append_nil_l (b : string) : "" ++ b = b.
Proof. reflexivity. Qed.

Lemma append_assoc (a b c : string) : (a ++ b) ++ c = a ++ (b ++ c).
Proof.
  induction a as [|x a IH]; [reflexivity|]. now rewrite !append_cons, IH.
Qed.

Lemma append_nil_r (a : string) : a ++ "" = a.
Proof.
  induction a as [|x a IH]; [reflexivity|]. now rewrite append_cons, IH.
Qed.

Lemma startswith_append (t q : string) : startswith t (t ++ q) = true.
Proof.
  induction t as [|a t IH]; [reflexivity|]. rewrite append_cons. cbn [startswith].
  now rewrite Ascii.eqb_refl, IH.
Qed.

Lemma substring_contains (t s : string) : substring t s -> contains t s = true.
Proof.
  intros (p & q & ->). induction p as [|a p IH].
  - rewrite append_nil_l. destruct (t ++ q) eqn:E; cbn [contains];
      rewrite <- E, startswith_append; reflexivity.
  - rewrite append_cons. cbn [contains]. rewrite IH. apply orb_true_r.
Qed.

Lemma forallb_append (f : ascii -> bool) (a b : string) :
  forallb f (a ++ b) = forallb f a && forallb f b.
Proof.
  induction a as [|x a IH]; [reflexivity|]. rewrite append_cons. cbn [forallb].
  rewrite IH. apply andb_assoc.
Qed.

Lemma forallb_substring (f : ascii -> bool) (t s : string) :
  substring t s -> forallb f s = true -> forallb f t = true.
Proof.
  intros (p & q & ->). rewrite !forallb_append.
  intros H. apply andb_true_iff in H as [_ H]. now apply andb_true_iff in H as [H _].
Qed.

Lemma findall_tokens_spec (s : string) : forall (acc t : string),
  acc = "" \/ token_ok acc ->
  In t (findall_tokens acc s) ->
  (2 <= String.length t)%nat /\ token_ok t /\ substring t (acc ++ s).
Proof.
  induction s as [|a s IH]; intros acc t Hacc Hin; cbn [findall_tokens] in Hin.
  - unfold finish_token in Hin.
    destruct (Nat.leb_spec 2 (String.length acc)) as [Hlen|]; [| destruct Hin].
    destruct Hin as [<-|[]]. split; [exact Hlen|]. split.
    + destruct Hacc as [->|Hok]; [cbn in Hlen; lia | exact Hok].
    + exists "", "". now rewrite append_nil_l, !append_nil_r.
  - destruct (String.eqb_spec acc "") as [->|Hne].
    + destruct (isalpha a) eqn:Ha.
      * apply IH in Hin; [exact Hin|]. right. split; [eauto|].
        cbn [forallb]. unfold token_char. now rewrite Ha.
      * apply IH in Hin; [| now left]. destruct Hin as (Hlen & Hok & (p & q & Hs)).
        split; [exact Hlen|]. split; [exact Hok|].
        exists (String a p), q. rewrite append_nil_l in *. now rewrite append_cons, <- Hs.
    + destruct Hacc as [->|Hok]; [contradiction|].
      destruct (token_char a) eqn:Ha.
      * apply IH in Hin.
        -- rewrite append_assoc in Hin. exact Hin.
        -- right. destruct Hok as ((x & r & -> & Hx) & Hall). split.
           ++ exists x, (r ++ String a ""). split; [reflexivity | exact Hx].
           ++ rewrite forallb_append, Hall. cbn [forallb andb]. now rewrite Ha.
      * apply in_app_or in Hin as [Hin|Hin].
        -- unfold finish_token in Hin.
           destruct (Nat.leb_spec 2 (String.length acc)) as [Hlen|]; [| destruct Hin].
           destruct Hin as [<-|[]]. split; [exact Hlen|]. split; [exact Hok|].
           exists "", (String a s). reflexivity.
        -- apply IH in Hin; [| now left]. destruct Hin as (Hlen & Hok' & (p & q & Hs)).
           split; [exact Hlen|]. split; [exact Hok'|].
           exists (acc ++ String a p), q. rewrite append_nil_l in Hs.
           now rewrite Hs, append_assoc, append_cons.
Qed.

Lemma lower_char_not_upper (c : ascii) : isupper (lower_char c) = false.
Proof.
  destruct c as [[] [] [] [] [] [] [] []]; vm_compute; reflexivity.
Qed.

Lemma lower_not_upper (s : string) :
  forallb (fun c => negb (isupper c)) (lower s) = true.
Proof.
  induction s as [|a s IH]; cbn; [reflexivity|].
  now rewrite lower_char_not_upper, IH.
Qed.

Lemma forallb_and (f g : ascii -> bool) (s : string) :
  forallb f s = true -> forallb g s = true ->
  forallb (fun c => f c && g c) s = true.
Proof.
  induction s as [|a s IH]; cbn; [reflexivity|].
  intros Hf Hg. apply andb_true_iff in Hf as [-> Hf]. apply andb_true_iff in Hg as [-> Hg].
  now rewrite IH.
Qed.

Lemma forallb_impl (f g : ascii -> bool) (s : string) :
  (forall c, f c = true -> g c = true) ->
  forallb f s = true -> forallb g s = true.
Proof.
  intros Hfg. induction s as [|a s IH]; cbn; [reflexivity|].
  intros H. apply andb_true_iff in H as [Ha H]. now rewrite (Hfg _ Ha), IH.
Qed.

(** X13. Every keyword that [extract_keywords] returns has at least
    three characters, consists of lower-case letters and hyphens, starts
    with a letter, is not a stop word, and occurs in the normalised
    lower-case text. *)
Theorem keywords_are_lowercase_words_of_the_text (text : string) :
  Forall (fun k =>
            (3 <= len k)%Z
            /\ forallb (fun c => islower c || Ascii.eqb c "-") k = true
            /\ startswith "-" k = false
            /\ mem k STOPWORDS = false
            /\ contains k (tolc text) = true)
         (extract_keywords text).
Proof.
  apply List.Forall_forall. intros k Hk. unfold extract_keywords in Hk.
  apply List.filter_In in Hk as [Hin Hf].
  apply andb_true_iff in Hf as [Hstop Hlen].
  apply negb_true_iff in Hstop. apply Z.ltb_lt in Hlen.
  apply findall_tokens_spec in Hin as (_ & Hok & Hsub); [| now left].
  destruct Hok as ((a & r & -> & Ha) & Hall).
  rewrite append_nil_l in Hsub.
  split; [lia|]. split; [| split; [| split; [exact Hstop | now apply substring_contains]]].
  - pose proof (forallb_substring _ _ _ Hsub (lower_not_upper (normalize text))) as Hlow.
    pose proof (forallb_and _ _ _ Hall Hlow) as Hboth.
    revert Hboth. apply forallb_impl. intros c Hc.
    apply andb_true_iff in Hc as [Htc Hnu]. unfold token_char, isalpha in Htc.
    destruct (isupper c); [discriminate|]. exact Htc.
  - cbn [startswith]. destruct (Ascii.eqb_spec "-" a) as [<-|]; [discriminate Ha | reflexivity].
Qed.

Lemma collapse_blanks_collapsed (s : string) : collapsed (collapse_blanks s) = true.
Proof.
  induction s as [|a s IH]; [reflexivity|]. cbn [collapse_blanks].
  destruct (isspace a) eqn:Ha.
  - destruct s as [|b s']; [reflexivity|].
    destruct (isspace b) eqn:Hb; [exact IH|].
    cbn [collapse_blanks] in *. rewrite Hb in *. cbn [collapsed] in *.
    rewrite Hb in *. cbn. exact IH.
  - cbn [collapsed]. rewrite Ha. exact IH.
Qed.

Lemma collapsed_fixed (t : string) : collapsed t = true -> collapse_blanks t = t.
Proof.
  induction t as [|a t IH]; [reflexivity|]. cbn [collapsed collapse_blanks].
  intros H. apply andb_true_iff in H as [Ha Ht]. specialize (IH Ht).
  destruct (isspace a); [| now rewrite IH].
  apply andb_true_iff in Ha as [Hsp Hb]. apply Ascii.eqb_eq in Hsp as ->.
  destruct t as [|b t']; [reflexivity|].
  apply negb_true_iff in Hb. rewrite Hb. now rewrite IH.
Qed.

Lemma collapsed_lstrip (t : string) :
  collapsed t = true -> collapsed (lstrip isspace t) = true.
Proof.
  induction t as [|a t IH]; [reflexivity|]. intros H. cbn [lstrip].
  destruct (isspace a) eqn:Ha; [| exact H].
  apply IH. cbn [collapsed] in H. now apply andb_true_iff in H as [_ H].
Qed.

Lemma rstrip_head (p : ascii -> bool) (a : ascii) (t : string) :
  rstrip p (String a t) = "" \/ exists r, rstrip p (String a t) = String a r.
Proof.
  cbn [rstrip]. destruct (rstrip p t); [destruct (p a)|]; eauto.
Qed.

Lemma collapsed_rstrip (t : string) :
  collapsed t = true -> collapsed (rstrip isspace t) = true.
Proof.
  induction t as [|a t IH]; [reflexivity|]. intros H.
  cbn [collapsed] in H. apply andb_true_iff in H as [Ha Ht]. specialize (IH Ht).
  cbn [rstrip]. destruct (rstrip isspace t) as [|b r] eqn:Hr.
  - destruct (isspace a) eqn:Hsa; [reflexivity|]. cbn. now rewrite Hsa.
  - cbn [collapsed]. cbn [collapsed] in IH. rewrite IH, andb_true_r.
    destruct (isspace a); [| reflexivity].
    apply andb_true_iff in Ha as [Hsp Hb]. rewrite Hsp. cbn [andb].
    destruct t as [|b' t']; [discriminate Hr|].
    destruct (rstrip_head isspace b' t') as [E|(r' & E)]; rewrite E in Hr;
      [discriminate|]. injection Hr as <- _. exact Hb.
Qed.

Lemma rstrip_idem (p : ascii -> bool) (t : string) :
  rstrip p (rstrip p t) = rstrip p t.
Proof.
  induction t as [|a t IH]; [reflexivity|]. cbn [rstrip].
  destruct (rstrip p t) as [|b r] eqn:Hr.
  - destruct (p a) eqn:Ha; [reflexivity|]. cbn. now rewrite Ha.
  - cbn [rstrip]. cbn [rstrip] in IH. rewrite IH. reflexivity.
Qed.

Lemma lstrip_head (p : ascii -> bool) (t : string) :
  lstrip p t = "" \/ exists a r, lstrip p t = String a r /\ p a = false.
Proof.
  induction t as [|a t IH]; [now left|]. cbn [lstrip].
  destruct (p a) eqn:Ha; [exact IH | eauto].
Qed.

Lemma strip_idem (t : string) : strip (strip t) = strip t.
Proof.
  unfold strip.
  assert (Hl : lstrip isspace (rstrip isspace (lstrip isspace t))
               = rstrip isspace (lstrip isspace t)).
  { destruct (lstrip_head isspace t) as [->|(a & r & -> & Ha)]; [reflexivity|].
    destruct (rstrip_head isspace a r) as [->|(r' & ->)]; [reflexivity|].
    cbn. now rewrite Ha. }
  rewrite Hl. apply rstrip_idem.
Qed.

Lemma lower_char_isspace (c : ascii) : isspace (lower_char c) = isspace c.
Proof.
  destruct c as [[] [] [] [] [] [] [] []]; vm_compute; reflexivity.
Qed.

Lemma lower_char_idem (c : ascii) : lower_char (lower_char c) = lower_char c.
Proof.
  destruct c as [[] [] [] [] [] [] [] []]; vm_compute; reflexivity.
Qed.

Lemma lower_idem (s : string) : lower (lower s) = lower s.
Proof.
  induction s as [|a s IH]; cbn; [reflexivity|]. now rewrite lower_char_idem, IH.
Qed.

Lemma collapse_blanks_lower (s : string) :
  collapse_blanks (lower s) = lower (collapse_blanks s).
Proof.
  induction s as [|a s IH]; [reflexivity|]. cbn [lower collapse_blanks].
  rewrite lower_char_isspace. destruct (isspace a).
  - destruct s as [|b s']; [reflexivity|]. cbn [lower]. rewrite lower_char_isspace.
    destruct (isspace b); [exact IH|]. cbn [lower] in *. now rewrite IH.
  - cbn [lower]. now rewrite IH.
Qed.

Lemma lstrip_lower (s : string) :
  lstrip isspace (lower s) = lower (lstrip isspace s).
Proof.
  induction s as [|a s IH]; [reflexivity|]. cbn [lower lstrip].
  rewrite lower_char_isspace. destruct (isspace a); [exact IH | reflexivity].
Qed.

Lemma rstrip_lower (s : string) :
  rstrip isspace (lower s) = lower (rstrip isspace s).
Proof.
  induction s as [|a s IH]; [reflexivity|]. cbn [lower rstrip]. rewrite IH.
  destruct (rstrip isspace s); cbn [lower]; [| reflexivity].
  rewrite lower_char_isspace. destruct (isspace a); reflexivity.
Qed.

Lemma normalize_lower (s : string) : normalize (lower s) = lower (normalize s).
Proof.
  unfold normalize, strip. now rewrite collapse_blanks_lower, lstrip_lower, rstrip_lower.
Qed.

Lemma normalize_idem (s : string) : normalize (normalize s) = normalize s.
Proof.
  unfold normalize. rewrite collapsed_fixed.
  - apply strip_idem.
  - apply collapsed_rstrip, collapsed_lstrip, collapse_blanks_collapsed.
Qed.

Lemma collapsed_blank_is_space (t : string) (c : ascii) :
  collapsed t = true -> has_char c t = true -> isspace c = true -> c = " "%char.
Proof.
  induction t as [|a t IH]; [discriminate|]. cbn [collapsed has_char].
  intros H Hc Hsp. apply andb_true_iff in H as [Ha Ht].
  apply orb_true_iff in Hc as [Hc|Hc]; [| now apply IH].
  apply Ascii.eqb_eq in Hc as ->. rewrite Hsp in Ha.
  apply andb_true_iff in Ha as [Ha _]. now apply Ascii.eqb_eq in Ha.
Qed.

Lemma collapsed_no_double_space (t : string) :
  collapsed t = true -> contains "  " t = false.
Proof.
  induction t as [|a t IH]; [reflexivity|]. cbn [collapsed contains startswith].
  intros H. apply andb_true_iff in H as [Ha Ht]. rewrite (IH Ht), orb_false_r.
  destruct (Ascii.eqb_spec " " a) as [<-|]; [| reflexivity].
  cbn [andb]. destruct t as [|b t']; [reflexivity|].
  destruct (Ascii.eqb_spec " " b) as [<-|]; [| reflexivity].
  vm_compute in Ha. discriminate.
Qed.

(** X14. [normalize] is idempotent, and so is [tolc]; [tolc] of a
    normalised text is [tolc] of the text, so the second normalisation
    that [looks_meaningful] and the keyword match apply to a stored
    comment changes nothing. In a normalised text every blank is a space
    and no two spaces are adjacent. *)
Theorem normalize_is_idempotent (s : string) :
  normalize (normalize s) = normalize s
  /\ tolc (normalize s) = tolc s
  /\ tolc (tolc s) = tolc s
  /\ (forall c, has_char c (normalize s) = true -> isspace c = true -> c = " "%char)
  /\ contains "  " (normalize s) = false.
Proof.
  assert (Hc : collapsed (normalize s) = true)
    by apply collapsed_rstrip, collapsed_lstrip, collapse_blanks_collapsed.
  split; [apply normalize_idem|]. split; [unfold tolc; now rewrite normalize_idem|].
  split; [unfold tolc; now rewrite normalize_lower, lower_idem, normalize_idem|].
  split; [intros c; now apply collapsed_blank_is_space|].
  now apply collapsed_no_double_space.
Qed.
End TextExtras.

(** ** Further properties: fragments in [normalize_url] *)

Section NormalizeExtras.
Import PyStr UrlParse SmartWebScraper.
Local Open Scope string_scope.

Lemma lstrip_append (p : ascii -> bool) (c : ascii) (a b : string) :
  p c = false -> lstrip p (a ++ String c b) = lstrip p a ++ String c b.
Proof.
  intros Hc. induction a as [|x a IH].
  - rewrite !append_nil_l. cbn [lstrip]. now rewrite Hc.
  - rewrite append_cons. cbn [lstrip]. destruct (p x); [exact IH|].
    now rewrite append_cons.
Qed.

Lemma remove_append (p : ascii -> bool) (a b : string) :
  remove p (a ++ b) = remove p a ++ remove p b.
Proof.
  induction a as [|x a IH]; [reflexivity|]. rewrite append_cons. cbn [remove].
  destruct (p x); [exact IH|]. now rewrite append_cons, IH.
Qed.

Lemma has_char_lstrip (c : ascii) (p : ascii -> bool) (s : string) :
  has_char c s = false -> has_char c (lstrip p s) = false.
Proof.
  induction s as [|x s IH]; [reflexivity|]. cbn [lstrip]. intros H.
  destruct (p x); [| exact H]. apply IH. cbn [has_char] in H.
  now apply orb_false_iff in H as [_ H].
Qed.

Lemma has_char_remove (c : ascii) (p : ascii -> bool) (s : string) :
  has_char c s = false -> has_char c (remove p s) = false.
Proof.
  induction s as [|x s IH]; [reflexivity|]. cbn [remove has_char]. intros H.
  apply orb_false_iff in H as [Hx H]. destruct (p x); [now apply IH|].
  cbn [has_char]. now rewrite Hx, IH.
Qed.

Lemma partition_append (c : ascii) (s x l r : string) :
  partition c s = Some (l, r) -> partition c (s ++ x) = Some (l, r ++ x).
Proof.
  revert l r. induction s as [|a s IH]; intros l r; [discriminate|].
  rewrite append_cons. cbn [partition]. destruct (Ascii.eqb a c).
  - now intros [= <- <-].
  - destruct (partition c s) as [[l' r']|]; [| discriminate].
    intros [= <- <-]. now rewrite (IH l' r' eq_refl).
Qed.

Lemma partition_none (c : ascii) (s : string) :
  partition c s = None <-> has_char c s = false.
Proof.
  induction s as [|a s IH]; [easy|]. cbn [partition has_char].
  destruct (Ascii.eqb a c); [easy|]. cbn [orb]. rewrite <- IH.
  destruct (partition c s) as [[l r]|]; easy.
Qed.

Lemma partition_at (c : ascii) (s f : string) :
  has_char c s = false -> partition c (s ++ String c f) = Some (s, f).
Proof.
  induction s as [|a s IH]; intros H.
  - rewrite append_nil_l. cbn [partition]. now rewrite Ascii.eqb_refl.
  - cbn [has_char] in H. apply orb_false_iff in H as [Ha H].
    rewrite append_cons. cbn [partition]. now rewrite Ha, (IH H).
Qed.

Lemma partition_parts (c d : ascii) (s l r : string) :
  partition c s = Some (l, r) -> has_char d s = false ->
  has_char d l = false /\ has_char d r = false.
Proof.
  revert l r. induction s as [|a s IH]; intros l r; [discriminate|].
  cbn [partition has_char]. intros Hp Hd. apply orb_false_iff in Hd as [Ha Hd].
  destruct (Ascii.eqb a c).
  - injection Hp as <- <-. now split.
  - destruct (partition c s) as [[l' r']|]; [| discriminate].
    injection Hp as <- <-. destruct (IH l' r' eq_refl Hd) as [Hl Hr].
    cbn [has_char]. now rewrite Ha, Hl.
Qed.

Lemma partition_through (c d : ascii) (u f pre rest : string) :
  Ascii.eqb d c = false ->
  has_char c u = false ->
  partition c (u ++ String d f) = Some (pre, rest) ->
  has_char d pre = true.
Proof.
  intros Hdc. revert pre. induction u as [|a u IH]; intros pre Hu Hp.
  - rewrite append_nil_l in Hp. cbn [partition] in Hp. rewrite Hdc in Hp.
    destruct (partition c f) as [[l r]|]; [| discriminate].
    injection Hp as <- <-. cbn [has_char]. now rewrite Ascii.eqb_refl.
  - cbn [has_char] in Hu. apply orb_false_iff in Hu as [Ha Hu].
    rewrite append_cons in Hp. cbn [partition] in Hp. rewrite Ha in Hp.
    destruct (partition c (u ++ String d f)) as [[l r]|] eqn:E; [| discriminate].
    injection Hp as <- <-. cbn [has_char]. rewrite (IH l Hu eq_refl).
    apply orb_true_r.
Qed.

Lemma scheme_chars_no_hash (pre : string) :
  has_char "#" pre = true -> forallb scheme_char pre = false.
Proof.
  induction pre as [|a pre IH]; [discriminate|]. cbn [has_char forallb].
  intros H. apply orb_true_iff in H as [H|H].
  - apply Ascii.eqb_eq in H as ->. reflexivity.
  - rewrite (IH H). apply andb_false_r.
Qed.

Lemma split_scheme_append (u f : string) :
  has_char "#" u = false ->
  split_scheme (u ++ String "#" f)
  = (fst (split_scheme u), snd (split_scheme u) ++ String "#" f)
  /\ has_char "#" (snd (split_scheme u)) = false.
Proof.
  intros Hu. unfold split_scheme.
  destruct (partition ":" u) as [[pre rest]|] eqn:Hp.
  - rewrite (partition_append _ _ _ _ _ Hp).
    destruct (partition_parts _ "#" _ _ _ Hp Hu) as [_ Hrest].
    destruct pre as [|a pre]; [now split|].
    destruct (isalpha a && forallb scheme_char (String a pre)); now split.
  - cbn [fst snd]. split; [| exact Hu].
    destruct (partition ":" (u ++ String "#" f)) as [[pre rest]|] eqn:Hp2; [| reflexivity].
    apply partition_none in Hp.
    pose proof (partition_through ":" "#" u f pre rest eq_refl Hp Hp2) as Hh.
    destruct pre as [|a pre]; [reflexivity|].
    now rewrite (scheme_chars_no_hash _ Hh), andb_false_r.
Qed.

Lemma splitnetloc_append (r f : string) :
  splitnetloc (r ++ String "#" f)
  = (fst (splitnetloc r), snd (splitnetloc r) ++ String "#" f).
Proof.
  induction r as [|a r IH]; [reflexivity|]. rewrite append_cons. cbn [splitnetloc].
  destruct (is_delim a); [reflexivity|]. rewrite IH.
  destruct (splitnetloc r) as [n r']. reflexivity.
Qed.

Lemma has_char_splitnetloc (c : ascii) (r : string) :
  has_char c r = false -> has_char c (snd (splitnetloc r)) = false.
Proof.
  induction r as [|a r IH]; [reflexivity|]. cbn [splitnetloc]. intros H.
  destruct (is_delim a); [exact H|].
  cbn [has_char] in H. apply orb_false_iff in H as [_ H]. specialize (IH H).
  destruct (splitnetloc r) as [n r']. exact IH.
Qed.

Lemma urlsplit_fragment (url frag : string) :
  has_char "#" url = false ->
  urlsplit (url ++ String "#" frag)
  = match urlsplit url with
    | Raised e => Raised e
    | Returned r => Returned (with_fragment r (remove unsafe_url_byte frag))
    end.
Proof.
  intros Hu. unfold urlsplit.
  rewrite lstrip_append by reflexivity. rewrite remove_append.
  change (remove unsafe_url_byte (String "#" frag))
    with (String "#" (remove unsafe_url_byte frag)).
  set (f := remove unsafe_url_byte frag).
  set (u := remove unsafe_url_byte (lstrip c0_control_or_space url)).
  assert (Hu' : has_char "#" u = false) by now apply has_char_remove, has_char_lstrip.
  destruct (split_scheme_append u f Hu') as [-> Hrest].
  destruct (split_scheme u) as [sch rest]. cbn [fst snd] in *.
  assert (Hfin : forall netloc r,
    has_char "#" r = false ->
    (let '(url0, fragment) :=
       match partition "#" (r ++ String "#" f) with
       | Some (u0, f0) => (u0, f0)
       | None => (r ++ String "#" f, "")
       end in
     let '(url1, query) :=
       match partition "?" url0 with
       | Some (u1, q) => (u1, q)
       | None => (url0, "")
       end in
     Returned {| scheme := sch; netloc := netloc; path := url1; params := "";
                 query := query; fragment := fragment |})
    = match
        (let '(url0, fragment) :=
           match partition "#" r with
           | Some (u0, f0) => (u0, f0)
           | None => (r, "")
           end in
         let '(url1, query) :=
           match partition "?" url0 with
           | Some (u1, q) => (u1, q)
           | None => (url0, "")
           end in
         Returned {| scheme := sch; netloc := netloc; path := url1; params := "";
                     query := query; fragment := fragment |})
      with
      | Raised e => Raised e
      | Returned r0 => Returned (with_fragment r0 f)
      end).
  { intros netloc r Hr. rewrite (partition_at _ _ _ Hr).
    rewrite (proj2 (partition_none "#" r) Hr).
    destruct (partition "?" r) as [[u1 q]|]; reflexivity. }
  destruct rest as [|a rest]; [apply (Hfin "" "" eq_refl)|].
  rewrite append_cons.
  destruct (Ascii.eqb_spec a "/") as [->|Hna].
  2:{ transitivity
        (match Returned ("", String a rest ++ String "#" f) with
         | Raised e => Raised e
         | Returned (netloc, url0) =>
             let '(url1, fragment) :=
               match partition "#" url0 with
               | Some (u0, f0) => (u0, f0)
               | None => (url0, "")
               end in
             let '(url2, query) :=
               match partition "?" url1 with
               | Some (u1, q) => (u1, q)
               | None => (url1, "")
               end in
             Returned {| scheme := sch; netloc := netloc; path := url2; params := "";
                         query := query; fragment := fragment |}
         end : outcome ParseResult).
      { destruct a as [[] [] [] [] [] [] [] []]; try reflexivity. now destruct Hna. }
      rewrite (Hfin "" (String a rest) Hrest).
      destruct a as [[] [] [] [] [] [] [] []]; try reflexivity. now destruct Hna. }
  destruct rest as [|b rest]; [apply (Hfin "" "/" eq_refl)|].
  rewrite append_cons.
  destruct (Ascii.eqb_spec b "/") as [->|Hnb].
  2:{ transitivity
        (match Returned ("", String "/" (String b rest ++ String "#" f)) with
         | Raised e => Raised e
         | Returned (netloc, url0) =>
             let '(url1, fragment) :=
               match partition "#" url0 with
               | Some (u0, f0) => (u0, f0)
               | None => (url0, "")
               end in
             let '(url2, query) :=
               match partition "?" url1 with
               | Some (u1, q) => (u1, q)
               | None => (url1, "")
               end in
             Returned {| scheme := sch; netloc := netloc; path := url2; params := "";
                         query := query; fragment := fragment |}
         end : outcome ParseResult).
      { destruct b as [[] [] [] [] [] [] [] []]; try reflexivity. now destruct Hnb. }
      rewrite <- !append_cons.
      rewrite (Hfin "" (String "/" (String b rest)) Hrest).
      destruct b as [[] [] [] [] [] [] [] []]; try reflexivity. now destruct Hnb. }
  rewrite splitnetloc_append.
  cbn [has_char] in Hrest. change (has_char "#" rest = false) in Hrest.
  pose proof (has_char_splitnetloc "#" rest Hrest) as Hr'.
  destruct (splitnetloc rest) as [n r']. cbn [fst snd] in *.
  destruct (_ || _); [reflexivity|].
  destruct (has_char "[" n && has_char "]" n).
  - destruct (check_bracketed_netloc n); [| reflexivity]. apply (Hfin n r' Hr').
  - apply (Hfin n r' Hr').
Qed.

(** X15. [normalize_url] ignores the fragment: appending [#] and any
    text to a non-empty URL without [#] does not change the canonical
    form. *)
Theorem normalize_url_ignores_fragment (url frag : string) :
  url <> "" ->
  has_char "#" url = false ->
  normalize_url (url ++ String "#" frag) = normalize_url url.
Proof.
  intros Hne Hu. unfold normalize_url.
  destruct (String.eqb_spec url "") as [|_]; [contradiction|].
  destruct (String.eqb_spec (url ++ String "#" frag) "") as [E|_].
  { destruct url; discriminate. }
  unfold urlparse. rewrite (urlsplit_fragment url frag Hu).
  destruct (urlsplit url) as [r|e]; [| reflexivity].
  cbn [with_fragment scheme path netloc query].
  destruct (mem (scheme r) uses_params && has_char ";" (path r)); [| reflexivity].
  destruct (splitparams (path r)) as [p ps]. reflexivity.
Qed.

(** X15 at a concrete input. *)
Lemma normalize_url_ignores_fragment_witness :
  normalize_url ("https://example.com/a?id=3" ++ String "#" "top")
  = normalize_url "https://example.com/a?id=3".
Proof.
  apply (normalize_url_ignores_fragment "https://example.com/a?id=3" "top").
  - discriminate.
  - vm_compute. reflexivity.
Defined.
End NormalizeExtras.

(** ** Further properties: the comment pipeline *)

Section PipelineExtras.
Import PyStr Youtube.

(** X16. With [max_comments <= 0] the rerank loop still returns the
    best qualifying comment: the output is the first element of the
    ranked comments that reach the floor, and it has length 1 as soon as
    one comment qualifies (the cap is tested after the append). *)
Theorem rerank_with_nonpositive_cap (filtered : list comment) (sims : list Q)
    (floor : Q) (cap : Z) :
  (cap <= 0)%Z ->
  rerank filtered sims floor cap
  = map to_scored (firstn 1 (List.filter (above floor)
                                         (sort_desc (combine filtered sims))))
  /\ (forall p, In p (combine filtered sims) -> above floor p = true ->
      length (rerank filtered sims floor cap) = 1%nat).
Proof.
  intros Hcap. rewrite rerank_any_cap. replace (Z.max 1 cap) with 1%Z by lia.
  split; [reflexivity|]. intros p Hin Hp.
  assert (Hq : In p (List.filter (above floor) (sort_desc (combine filtered sims)))).
  { apply List.filter_In. split; [| exact Hp].
    eapply Permutation_in; [symmetry; apply sort_desc_perm | exact Hin]. }
  destruct (List.filter _ _) as [|x l]; [destruct Hq | reflexivity].
Qed.

(** X16 at a concrete input. *)
Lemma rerank_with_nonpositive_cap_witness :
  rerank [durable_comment; durable_comment] [0.3; 0.5]%Q 0.25 0
  = map to_scored
        (firstn 1 (List.filter (above 0.25)
                     (sort_desc (combine [durable_comment; durable_comment]
                                         [0.3; 0.5]%Q)))).
Proof.
  apply (rerank_with_nonpositive_cap [durable_comment; durable_comment]
           [0.3; 0.5]%Q 0.25 0).
  lia.
Defined.

Section WithYouTube.
Context {W : Type} `{YouTube W}.

(** X17. With [tries <= 0] the retry wrapper never executes the
    request: it raises the [TypeError] of [raise None] and leaves the world
    untouched, and [fetch_relevant_comments] returns the empty list
    without any call. *)
Theorem no_tries_no_request (cfg : config) (video_id brand question : string)
    (max_comments : Z) (min_similarity : Q) (tries : Z) (w : W) :
  (tries <= 0)%Z ->
  execute_with_retry yt_sleep (comment_threads video_id) tries 2 w
  = (Raised (TypeError "exceptions must derive from BaseException"), w)
  /\ fetch_relevant_comments cfg video_id brand question
                             max_comments min_similarity tries w
     = (Returned [], w).
Proof.
  intros Htries.
  assert (He : execute_with_retry yt_sleep (comment_threads video_id) tries 2 w
               = (Raised (TypeError "exceptions must derive from BaseException"), w)).
  { unfold execute_with_retry. replace (Z.to_nat tries) with 0%nat by lia. reflexivity. }
  split; [exact He|]. unfold fetch_relevant_comments. rewrite He. reflexivity.
Qed.

Lemma read_item_kept cfg it (w : W) c :
  fst (read_item cfg it w) = Returned (Some c) -> kept cfg [it] c.
Proof.
  unfold read_item. destruct it as [sn|]; [| discriminate].
  destruct (looks_meaningful cfg _) eqn:Hm; cbn [negb]; [| discriminate].
  destruct (detect _ w) as [[lang|e] w1] eqn:Hd.
  - destruct (String.eqb_spec lang "en") as [->|]; cbn [negb fst]; [| discriminate].
    intros [= <-]. unfold kept. cbn [text]. split; [exact Hm|]. split.
    + exists sn. split; [left; reflexivity | reflexivity].
    + exists w. now rewrite Hd.
  - destruct e; discriminate.
Qed.

Lemma kept_weaken cfg items items' c :
  (forall it, In it items -> In it items') -> kept cfg items c -> kept cfg items' c.
Proof.
  intros Hsub (Hm & (sn & Hin & Ht) & Hd). split; [exact Hm|]. split; [| exact Hd].
  exists sn. auto.
Qed.

Lemma collect_raw_kept cfg all items : forall raw (w : W),
  (forall it, In it items -> In it all) ->
  Forall (kept cfg all) raw ->
  Forall (kept cfg all) (fst (collect_raw cfg items raw w)).
Proof.
  induction items as [|it rest IH]; intros raw w Hsub Hraw; cbn [collect_raw];
    [exact Hraw|].
  pose proof (read_item_kept cfg it w) as Hk.
  destruct (read_item cfg it w) as [[[c|]|e] w1]; cbn [fst] in Hk.
  - apply IH; [intros; apply Hsub; now right|].
    apply Forall_app. split; [exact Hraw|]. constructor; [| constructor].
    apply (kept_weaken cfg [it]); [| now apply Hk].
    intros it' [<-|[]]. apply Hsub. now left.
  - apply IH; [intros; apply Hsub; now right | exact Hraw].
  - apply IH; [intros; apply Hsub; now right | exact Hraw].
Qed.

(** X18. What [fetch_relevant_comments] returns: at most
    [max(1, max_comments)] comments, in decreasing order of similarity,
    each with a similarity of at least [min_similarity], each the
    normalised text of an item of the fetched thread that passed
    [looks_meaningful] and in which language detection found English,
    and each containing a keyword of the question. *)
Theorem returned_comments_are_relevant (cfg : config)
    (video_id brand question : string) (max_comments : Z) (min_similarity : Q)
    (tries : Z) (w : W) :
  exists out w' items,
    fetch_relevant_comments cfg video_id brand question
                            max_comments min_similarity tries w
    = (Returned out, w')
    /\ (out <> [] ->
        exists w1, execute_with_retry yt_sleep (comment_threads video_id) tries 2 w
                   = (Returned items, w1))
    /\ (Z.of_nat (length out) <= Z.max 1 max_comments)%Z
    /\ StronglySorted score_order out
    /\ Forall (fun sc =>
         (min_similarity <= similarity_score sc)%Q
         /\ kept cfg items (sc_comment sc)
         /\ exists k, In k (extract_keywords question)
                      /\ contains k (tolc (text (sc_comment sc))) = true) out.
Proof.
  unfold fetch_relevant_comments.
  assert (Hnil : forall (w' : W) (items : list item),
    exists out w'' items',
      (Returned ([] : list scored_comment), w') = (Returned out, w'')
      /\ (out <> [] ->
          exists w1, execute_with_retry yt_sleep (comment_threads video_id) tries 2 w
                     = (Returned items', w1))
      /\ (Z.of_nat (length out) <= Z.max 1 max_comments)%Z
      /\ StronglySorted score_order out
      /\ Forall (fun sc =>
           (min_similarity <= similarity_score sc)%Q
           /\ kept cfg items' (sc_comment sc)
           /\ exists k, In k (extract_keywords question)
                        /\ contains k (tolc (text (sc_comment sc))) = true) out).
  { intros w' items. exists [], w', items. split; [reflexivity|].
    split; [intros Hne; now destruct Hne|]. split; [cbn; lia|].
    split; constructor. }
  destruct (execute_with_retry _ _ _ _ _) as [[items|e] w1] eqn:Hexec.
  2:{ destruct e; apply (Hnil w1 []). }
  pose proof (collect_raw_kept cfg items items [] w1 (fun _ Hin => Hin) (List.Forall_nil _)) as Hraw.
  destruct (collect_raw cfg items [] w1) as [raw w2]. cbn [fst] in Hraw.
  destruct raw as [|c0 raw0]; [apply (Hnil w2 items)|].
  set (raw := c0 :: raw0) in *.
  set (keep := fun c => existsb (fun k => contains k (tolc (text c)))
                                (extract_keywords question)).
  assert (Hfilt : Forall (fun c => kept cfg items c /\ keep c = true)
                         (List.filter keep raw)).
  { apply List.Forall_forall. intros c Hc. apply List.filter_In in Hc as [Hin Hk].
    split; [| exact Hk]. eapply List.Forall_forall in Hraw; eauto. }
  destruct (List.filter keep raw) as [|c1 filt0]; [apply (Hnil w2 items)|].
  set (filtered := c1 :: filt0) in *.
  destruct (cos_sim question (map text filtered) w2) as [[sims|e] w3];
    [| apply (Hnil w3 items)].
  exists (rerank filtered sims min_similarity max_comments), w3, items.
  split; [reflexivity|]. split; [eauto|].
  rewrite rerank_any_cap.
  set (ranked := sort_desc (combine filtered sims)).
  split; [|split].
  - rewrite length_map.
    pose proof (List.firstn_le_length (Z.to_nat (Z.max 1 max_comments))
                  (List.filter (above min_similarity) ranked)). lia.
  - apply StronglySorted_map with (R := score_ge); [intros a b Hab; exact Hab|].
    apply StronglySorted_firstn, StronglySorted_filter, sort_desc_sorted.
  - apply List.Forall_forall. intros sc Hsc.
    apply List.in_map_iff in Hsc as ([c s] & <- & Hp).
    apply In_firstn, List.filter_In in Hp as [Hin Hab].
    unfold above in Hab. cbn [snd] in Hab. apply Qle_bool_iff in Hab.
    assert (Hc : In c filtered).
    { eapply in_combine_l. eapply Permutation_in; [apply sort_desc_perm | exact Hin]. }
    eapply List.Forall_forall in Hfilt as [Hk Hkw]; [| exact Hc].
    cbn [to_scored fst snd similarity_score sc_comment].
    split; [exact Hab|]. split; [exact Hk|].
    unfold keep in Hkw. apply List.existsb_exists in Hkw as (k & Hkin & Hkc). eauto.
Qed.

(** X19. A question from which [extract_keywords] extracts nothing
    (only stop words or short words) never gets a comment:
    [fetch_relevant_comments] returns the empty list whatever the thread
    contains. *)
Theorem question_without_keywords_gets_no_comments (cfg : config)
    (video_id brand question : string) (max_comments : Z) (min_similarity : Q)
    (tries : Z) (w : W) :
  extract_keywords question = [] ->
  fst (fetch_relevant_comments cfg video_id brand question
                               max_comments min_similarity tries w)
  = Returned [].
Proof.
  intros Hq. unfold fetch_relevant_comments. rewrite Hq.
  destruct (execute_with_retry _ _ _ _ _) as [[items|e] w1]; [| destruct e; reflexivity].
  destruct (collect_raw cfg items [] w1) as [raw w2].
  destruct raw as [|c0 raw0]; [reflexivity|].
  replace (List.filter _ (c0 :: raw0)) with (@nil comment); [reflexivity|].
  symmetry. induction (c0 :: raw0) as [|c l IH]; [reflexivity|]. cbn. exact IH.
Qed.

End WithYouTube.

(** X17 at a concrete input. *)
Lemma no_tries_no_request_witness :
  fetch_relevant_comments default_config "video-1" "Acme" durable_question
                          5 0.25 0 detection_failure_world
  = (Returned [], detection_failure_world).
Proof.
  apply (no_tries_no_request default_config "video-1" "Acme" durable_question
           5 0.25 0 detection_failure_world).
  lia.
Defined.

(** X19 at a concrete input. *)
Lemma question_without_keywords_gets_no_comments_witness :
  extract_keywords "What is the price?" = []
  /\ fst (fetch_relevant_comments default_config "video-1" "Acme" "What is the price?"
                                  5 0.25 3 detection_failure_world)
     = Returned [].
Proof.
  assert (Hq : extract_keywords "What is the price?" = []) by (vm_compute; reflexivity).
  split; [exact Hq|].
  exact (question_without_keywords_gets_no_comments default_config "video-1" "Acme"
           "What is the price?" 5 0.25 3 detection_failure_world Hq).
Defined.
End PipelineExtras.

(** ** Further properties: search queries *)

Section SearchQueryExtras.
Import PyStr UrlParse Youtube YoutubeSearch.

(** What the loop of [dedupe_cap] maintains: [seen] is the set of the
    elements of [deduped], which has no repetition. *)
Lemma dedupe_cap_spec (max_q : Z) (queries : list string) :
  forall (seen : gset string) (deduped : list string),
    (forall x, x ∈ seen <-> In x deduped) ->
    List.NoDup deduped ->
    let r := dedupe_cap queries max_q seen deduped in
    List.NoDup r
    /\ (forall x, In x deduped -> In x r)
    /\ (forall x, In x r -> In x deduped \/ In x queries)
    /\ ((max_q <= Z.of_nat (length r))%Z \/ forall x, In x queries -> In x r)
    /\ ((Z.of_nat (length deduped) < max_q)%Z \/ deduped = [] ->
        (Z.of_nat (length r) <= Z.max 1 max_q)%Z).
Proof.
  induction queries as [|q rest IH]; intros seen deduped Hseen Hnd; cbn [dedupe_cap].
  - cbv zeta. split; [exact Hnd|]. split; [auto|]. split; [auto|].
    split; [right; intros x []|]. intros [Hlt| ->]; cbn; lia.
  - set (st := if bool_decide (q ∉ seen) then ({[q]} ∪ seen, deduped ++ [q])
               else (seen, deduped)).
    assert (Hst : (forall x, x ∈ fst st <-> In x (snd st))
                  /\ List.NoDup (snd st)
                  /\ In q (snd st)
                  /\ (forall x, In x deduped -> In x (snd st))
                  /\ (forall x, In x (snd st) -> In x deduped \/ x = q)
                  /\ (length (snd st) <= S (length deduped))%nat
                  /\ snd st <> []).
    { subst st. destruct (bool_decide (q ∉ seen)) eqn:Hq; cbn [fst snd].
      - apply bool_decide_eq_true in Hq.
        split; [intros x; rewrite elem_of_union, elem_of_singleton, Hseen, in_app_iff;
                cbn; intuition congruence|].
        split.
        { apply List.NoDup_app; [exact Hnd | repeat constructor; intros [] |].
          intros x Hx [<-|[]]. apply Hq, Hseen, Hx. }
        split; [apply in_app_iff; right; now left|].
        split; [intros x Hx; apply in_app_iff; now left|].
        split; [intros x Hx; apply in_app_iff in Hx as [|[<-|[]]]; auto|].
        split; [rewrite length_app; cbn; lia|]. now destruct deduped.
      - apply bool_decide_eq_false in Hq.
        assert (Hin : In q deduped) by (apply Hseen; now apply dec_stable).
        split; [exact Hseen|]. split; [exact Hnd|]. split; [exact Hin|].
        split; [auto|]. split; [auto|]. split; [lia|].
        intros ->. destruct Hin. }
    destruct st as [seen' deduped']. cbn [fst snd] in Hst.
    destruct Hst as (Hseen' & Hnd' & Hq & Hmono & Hfrom & Hlen & Hne).
    cbv zeta. destruct (Z.leb_spec max_q (Z.of_nat (length deduped'))) as [Hcap|Hcap].
    + split; [exact Hnd'|]. split; [exact Hmono|].
      split; [intros x Hx; destruct (Hfrom x Hx) as [?| ->]; [auto | right; now left]|].
      split; [now left|]. intros [Hlt| ->]; cbn in *; lia.
    + destruct (IH seen' deduped' Hseen' Hnd') as (Hr1 & Hr2 & Hr3 & Hr4 & Hr5).
      split; [exact Hr1|]. split; [auto|].
      split.
      { intros x Hx. destruct (Hr3 x Hx) as [Hd|Hd]; [| right; now right].
        destruct (Hfrom x Hd) as [?| ->]; [auto | right; now left]. }
      split.
      { destruct Hr4 as [Hr4|Hr4]; [now left | right].
        intros x [<-|Hx]; auto. }
      intros _. apply Hr5. now left.
Qed.

Lemma dedupe_cap_prefix (max_q : Z) (l1 l2 : list string) :
  forall (seen : gset string) (deduped : list string),
    l1 <> [] ->
    (max_q <= Z.of_nat (length (dedupe_cap l1 max_q seen deduped)))%Z ->
    dedupe_cap (l1 ++ l2) max_q seen deduped = dedupe_cap l1 max_q seen deduped.
Proof.
  induction l1 as [|q l1 IH]; intros seen deduped Hne Hcap; [contradiction|].
  cbn [app dedupe_cap] in *.
  destruct (if bool_decide (q ∉ seen) then _ else _) as [seen' deduped'].
  destruct (Z.leb_spec max_q (Z.of_nat (length deduped'))) as [|Hlt]; [reflexivity|].
  destruct l1 as [|q' l1]; [cbn in Hcap; lia|].
  apply IH; [discriminate | exact Hcap].
Qed.

Lemma aliases_nonempty (key : string) :
  dict_get key BRAND_ALIASES [key] <> [].
Proof.
  unfold BRAND_ALIASES. cbn [dict_get].
  repeat match goal with |- context [String.eqb ?a ?b] => destruct (String.eqb a b) end;
    discriminate.
Qed.

Lemma candidate_queries_nonempty (brand website question : string) :
  candidate_queries brand website question <> [].
Proof.
  unfold candidate_queries. cbv zeta.
  pose proof (aliases_nonempty (tolc brand)) as Ha.
  destruct (dict_get (tolc brand) BRAND_ALIASES [tolc brand]) as [|a rest];
    [contradiction|].
  cbn [flat_map]. unfold alias_queries at 1.
  destruct (negb _); intros Hnil;
    repeat (apply app_eq_nil in Hnil as [Hnil ?]); discriminate.
Qed.

(** X20. [build_search_queries] returns between 1 and
    [max(1, max_q)] queries, without repetition, each of them one of the
    candidate queries built from the aliases, the key terms and the
    website domain. *)
Theorem search_queries_are_distinct_and_capped
    (brand website question : string) (max_q : Z) :
  let qs := build_search_queries brand website question max_q in
  NoDup qs
  /\ (1 <= length qs)%nat
  /\ (Z.of_nat (length qs) <= Z.max 1 max_q)%Z
  /\ (forall q, In q qs -> In q (candidate_queries brand website question)).
Proof.
  cbv zeta. unfold build_search_queries.
  destruct (dedupe_cap_spec max_q (candidate_queries brand website question) ∅ [])
    as (Hnd & _ & Hfrom & Hall & Hlen).
  { intros x. rewrite elem_of_empty. cbn. tauto. }
  { constructor. }
  split; [apply NoDup_ListNoDup; exact Hnd|]. split; [| split; [apply Hlen; now right|]].
  - pose proof (candidate_queries_nonempty brand website question) as Hne.
    destruct Hall as [Hcap|Hall].
    + destruct (candidate_queries brand website question) as [|q rest] eqn:Hq;
        [contradiction|].
      cbn [dedupe_cap] in *. rewrite bool_decide_eq_true_2 in * by apply not_elem_of_empty.
      cbn [app length] in *.
      destruct (Z.leb_spec max_q (Z.of_nat 1)); [cbn; lia|].
      destruct (dedupe_cap_spec max_q rest ({[q]} ∪ ∅) [q]) as (_ & Hm & _).
      { intros x. rewrite elem_of_union, elem_of_singleton, elem_of_empty. cbn.
        intuition congruence. }
      { repeat constructor. intros []. }
      specialize (Hm q (or_introl eq_refl)).
      destruct (dedupe_cap rest max_q ({[q]} ∪ ∅) [q]); [destruct Hm | cbn; lia].
    + destruct (candidate_queries brand website question) as [|q rest];
        [contradiction|].
      specialize (Hall q (or_introl eq_refl)).
      destruct (dedupe_cap _ _ _ _); [destruct Hall | cbn; lia].
  - intros q Hq. destruct (Hfrom q Hq) as [[]|]; assumption.
Qed.

Lemma quoted_inj (a x y : string) :
  (dquote ++ a ++ dquote ++ x = dquote ++ a ++ dquote ++ y)%string -> x = y.
Proof.
  intros Heq. apply String.app_inj in Heq. apply String.app_inj in Heq.
  now apply String.app_inj in Heq.
Qed.

(** Six different queries among those of the first alias: the last key
    term, which is one of the category keywords, and the five fixed
    ones. *)
Lemma six_distinct_queries (alias : string) (qk : list string) :
  exists D,
    List.NoDup D /\ length D = 6%nat
    /\ forall x, In x D ->
         In x (alias_queries alias (firstn 8 (firstn 4 qk ++ CATEGORY_KWS))).
Proof.
  assert (Hk : exists kt,
             In kt (firstn 8 (firstn 4 qk ++ CATEGORY_KWS))
             /\ In kt ["earrings"; "jewelry"; "backpack"; "tote"; "wallet"]).
  { unfold CATEGORY_KWS.
    destruct qk as [|k1 [|k2 [|k3 [|k4 qk]]]]; cbn [firstn app];
      [exists "earrings" | exists "jewelry" | exists "backpack" | exists "tote"
       | exists "wallet"];
      split; cbn [In]; repeat (first [left; reflexivity | right]). }
  destruct Hk as (kt & Hin & Hkt).
  exists (map (fun x => (dquote ++ alias ++ dquote ++ x)%string)
              [(" " ++ kt ++ " review")%string; " testimonial"; " customer review";
               " pricing"; " artisan"; " sustainable"]).
  split; [| split; [reflexivity|]].
  - apply Finite.Injective_map_NoDup; [intros x y; apply quoted_inj|].
    cbn in Hkt. destruct Hkt as [<-|[<-|[<-|[<-|[<-|[]]]]]];
      apply NoDup_ListNoDup, (bool_decide_unpack _); vm_compute; exact I.
  - intros x Hx. unfold alias_queries. apply in_app_iff.
    cbn [map In] in Hx. destruct Hx as [<-|Hx].
    + left. apply in_map_iff. exists kt. split; [reflexivity | exact Hin].
    + right. exact Hx.
Qed.

(** X21. For [max_q <= 6], which includes the default 6 that
    every caller uses, the result of [build_search_queries] does not
    depend on the website: the first alias alone yields six different
    queries, so the cap is reached before the query with the website's
    domain, which is appended last. *)
Theorem website_is_not_used_up_to_six_queries
    (brand website website' question : string) (max_q : Z) :
  (max_q <= 6)%Z ->
  build_search_queries brand website question max_q
  = build_search_queries brand website' question max_q.
Proof.
  intros Hmax. unfold build_search_queries, candidate_queries. cbv zeta.
  pose proof (aliases_nonempty (tolc brand)) as Ha.
  destruct (dict_get (tolc brand) BRAND_ALIASES [tolc brand]) as [|a rest];
    [contradiction|].
  cbn [flat_map].
  set (key_terms := firstn 8 (firstn 4 (extract_keywords question) ++ CATEGORY_KWS)).
  set (Q1 := alias_queries a key_terms).
  assert (Hne : Q1 <> []).
  { unfold Q1, alias_queries. intros Hnil. apply app_eq_nil in Hnil as [_ ?]. discriminate. }
  assert (Hcap : (max_q <= Z.of_nat (length (dedupe_cap Q1 max_q ∅ [])))%Z).
  { destruct (six_distinct_queries a (extract_keywords question)) as (D & HD & Hlen & Hsub).
    destruct (dedupe_cap_spec max_q Q1 ∅ []) as (_ & _ & _ & [Hc|Hall] & _);
      [intros x; rewrite elem_of_empty; cbn; tauto | constructor | exact Hc |].
    assert (Hle : (length D <= length (dedupe_cap Q1 max_q ∅ []))%nat).
    { apply List.NoDup_incl_length; [exact HD|]. intros x Hx. apply Hall, Hsub, Hx. }
    lia. }
  assert (Hpre : forall tail, dedupe_cap (Q1 ++ tail) max_q ∅ [] = dedupe_cap Q1 max_q ∅ [])
    by (intros tail; now apply dedupe_cap_prefix).
  destruct (negb (String.eqb (domain_from_url website) ""));
    destruct (negb (String.eqb (domain_from_url website') ""));
    rewrite <- ?app_assoc, !Hpre; reflexivity.
Qed.

(** X21 at a concrete input. *)
Lemma website_is_not_used_up_to_six_queries_witness :
  build_search_queries "Soko" "https://shopsoko.com" "How durable is the bag?" 6
  = build_search_queries "Soko" "" "How durable is the bag?" 6.
Proof.
  apply (website_is_not_used_up_to_six_queries "Soko" "https://shopsoko.com" ""
           "How durable is the bag?" 6).
  lia.
Defined.

End SearchQueryExtras.

(** ** Further properties: topic filter and website domain *)

Section TopicExtras.
Import PyStr UrlParse Youtube YoutubeSearch.
Local Open Scope string_scope.

Lemma startswith_prefix (t s : string) :
  startswith t s = true -> exists q, s = t ++ q.
Proof.
  revert s. induction t as [|a t IH]; intros s H; [exists s; reflexivity|].
  destruct s as [|b s]; [discriminate|]. cbn [startswith] in H.
  apply andb_true_iff in H as [Hab H]. apply Ascii.eqb_eq in Hab as ->.
  destruct (IH s H) as (q & ->). exists q. reflexivity.
Qed.

Lemma contains_substring (t s : string) : contains t s = true -> substring t s.
Proof.
  induction s as [|a s IH]; cbn [contains]; intros H.
  - rewrite orb_false_r in H. destruct (startswith_prefix _ _ H) as (q & ->).
    exists "", q. reflexivity.
  - apply orb_true_iff in H as [H|H].
    + destruct (startswith_prefix _ _ H) as (q & ->). exists "", q. reflexivity.
    + destruct (IH H) as (p & q & ->). exists (String a p), q. reflexivity.
Qed.

Lemma contains_append_l (t a b : string) :
  contains t a = true -> contains t (a ++ b) = true.
Proof.
  intros H. apply substring_contains. apply contains_substring in H as (p & q & ->).
  exists p, (q ++ b). now rewrite !append_assoc.
Qed.

Lemma contains_empty (s : string) : contains "" s = true.
Proof. destruct s; reflexivity. Qed.

Lemma dict_get_absent {A} (key : string) (d : list (string * A)) (dflt : A) :
  mem key (map fst d) = false -> dict_get key d dflt = dflt.
Proof.
  induction d as [|[k v] d IH]; [reflexivity|]. cbn [map fst mem existsb dict_get].
  intros H. apply orb_false_iff in H as [Hk H]. rewrite String.eqb_sym, Hk. now apply IH.
Qed.

(** X22. [is_video_on_topic]: a negative keyword of the brand in the
    title vetoes the video; for a brand without an alias entry, the
    normalised lower-case brand in the title is enough to accept it; and
    a brand that normalises to the empty text accepts every video. *)
Theorem topic_filter_behaviour (video_snippet : video_snippet) (brand : string) :
  let title := tolc (default "" (vs_title video_snippet)) in
  (forall neg,
      In neg (dict_get (tolc brand) NEGATIVE_KWS []) ->
      contains neg title = true ->
      is_video_on_topic video_snippet brand = false)
  /\ (mem (tolc brand) (map fst BRAND_ALIASES) = false ->
      contains (tolc brand) title = true ->
      is_video_on_topic video_snippet brand = true)
  /\ (tolc brand = "" -> is_video_on_topic video_snippet brand = true).
Proof.
  cbv zeta. unfold is_video_on_topic.
  set (title := tolc (default "" (vs_title video_snippet))).
  set (text := title ++ " " ++ tolc (default "" (vs_description video_snippet))
               ++ " " ++ tolc (default "" (vs_channelTitle video_snippet))).
  assert (Hnoneg : mem (tolc brand) (map fst BRAND_ALIASES) = false ->
                   dict_get (tolc brand) NEGATIVE_KWS [] = []).
  { intros Hm. apply dict_get_absent.
    unfold BRAND_ALIASES, NEGATIVE_KWS in *. cbn [map fst mem existsb] in *.
    repeat (apply orb_false_iff in Hm as [? Hm]).
    repeat (apply orb_false_iff; split); assumption. }
  split; [| split].
  - intros neg Hin Hc. destruct (negb _); [reflexivity|].
    replace (existsb _ (dict_get (tolc brand) NEGATIVE_KWS [])) with true; [reflexivity|].
    symmetry. apply List.existsb_exists. exists neg. split; [exact Hin|].
    now apply contains_append_l.
  - intros Hm Hc. rewrite (dict_get_absent _ _ _ Hm), (Hnoneg Hm).
    assert (Ht : contains (tolc brand) text = true) by now apply contains_append_l.
    cbn [existsb]. rewrite Ht. reflexivity.
  - intros Hb.
    assert (Hm : mem (tolc brand) (map fst BRAND_ALIASES) = false)
      by (rewrite Hb; reflexivity).
    rewrite (dict_get_absent _ _ _ Hm), (Hnoneg Hm), Hb.
    cbn [existsb]. rewrite contains_empty. reflexivity.
Qed.

Lemma split_no_separator (c : ascii) (s : string) :
  Forall (fun w => has_char c w = false) (split c s).
Proof.
  induction s as [|a s IH]; cbn [split]; [repeat constructor|].
  destruct (Ascii.eqb a c) eqn:Ha; [constructor; [reflexivity | exact IH]|].
  destruct (split c s) as [|w ws]; [repeat constructor; cbn; now rewrite Ha|].
  apply Forall_cons in IH as [Hw Hws]. constructor; [| exact Hws].
  cbn [has_char]. now rewrite Ha, Hw.
Qed.

Lemma count_append (p : ascii -> bool) (a b : string) :
  count p (a ++ b) = (count p a + count p b)%nat.
Proof.
  induction a as [|x a IH]; [reflexivity|]. rewrite append_cons. cbn [count].
  rewrite IH. lia.
Qed.

Lemma count_absent (c : ascii) (s : string) :
  has_char c s = false -> count (fun ch => Ascii.eqb ch c) s = 0%nat.
Proof.
  induction s as [|a s IH]; [reflexivity|]. cbn [has_char count]. intros H.
  apply orb_false_iff in H as [-> H]. now rewrite IH.
Qed.

Lemma split_nonempty (c : ascii) (s : string) : split c s <> [].
Proof.
  destruct s as [|a s]; cbn [split]; [discriminate|].
  destruct (Ascii.eqb a c); [discriminate|]. destruct (split c s); discriminate.
Qed.

Lemma concat_cons (sep x : string) (l : list string) :
  l <> [] -> String.concat sep (x :: l) = x ++ sep ++ String.concat sep l.
Proof. destruct l; [contradiction | reflexivity]. Qed.

Lemma join_split (c : ascii) (s : string) :
  String.concat (String c "") (split c s) = s.
Proof.
  induction s as [|a s IH]; [reflexivity|]. cbn [split].
  pose proof (split_nonempty c s) as Hne.
  destruct (Ascii.eqb_spec a c) as [->|Hac].
  - rewrite concat_cons by assumption. now rewrite IH.
  - destruct (split c s) as [|w ws]; [contradiction|].
    destruct ws as [|w' ws]; cbn [String.concat] in *; [now rewrite IH|].
    rewrite append_cons. now rewrite IH.
Qed.

Lemma concat_app (sep : string) (l1 l2 : list string) :
  l1 <> [] -> l2 <> [] ->
  String.concat sep (l1 ++ l2)%list
  = String.concat sep l1 ++ sep ++ String.concat sep l2.
Proof.
  intros H1 H2. induction l1 as [|x l1 IH]; [contradiction|].
  destruct l1 as [|y l1].
  - cbn [app]. now apply concat_cons.
  - change ((x :: y :: l1) ++ l2)%list with (x :: ((y :: l1) ++ l2))%list.
    rewrite concat_cons by discriminate. rewrite IH by discriminate.
    rewrite (concat_cons sep x (y :: l1)) by discriminate.
    now rewrite !append_assoc.
Qed.

(** X23. [domain_from_url] returns a text with at most one dot;
    when it is not empty, the URL parses, has a host name, and the result
    is a suffix of that (lower-case) host name. *)
Theorem domain_is_a_suffix_of_the_host (url : string) :
  (count (fun ch => Ascii.eqb ch ".") (domain_from_url url) <= 1)%nat
  /\ (domain_from_url url <> "" ->
      exists parsed host p,
        urlparse url = Returned parsed
        /\ hostname parsed = Some host
        /\ host = p ++ domain_from_url url).
Proof.
  unfold domain_from_url. split.
  - destruct (urlparse url) as [parsed|e]; [| cbn; lia].
    destruct (hostname parsed) as [host|]; [| cbn; lia].
    pose proof (split_no_separator "." host) as Hs.
    unfold last_two.
    assert (Hd : Forall (fun w => has_char "." w = false)
                        (skipn (length (split "." host) - 2) (split "." host)))
      by now apply Forall_drop.
    assert (Hl : (length (skipn (length (split "." host) - 2) (split "." host)) <= 2)%nat)
      by (rewrite length_skipn; lia).
    destruct (skipn _ _) as [|a [|b [|c l]]]; cbn [String.concat length] in *;
      [cbn; lia | | | lia].
    + apply Forall_cons in Hd as [Ha _]. rewrite (count_absent _ _ Ha). lia.
    + apply Forall_cons in Hd as [Ha Hd]. apply Forall_cons in Hd as [Hb _].
      rewrite !count_append, (count_absent _ _ Ha), (count_absent _ _ Hb). cbn. lia.
  - destruct (urlparse url) as [parsed|e] eqn:Hp; [| intros []; reflexivity].
    destruct (hostname parsed) as [host|] eqn:Hh; [| intros []; reflexivity].
    intros _. exists parsed, host.
    pose proof (join_split "." host) as Hjoin.
    pose proof (split_nonempty "." host) as Hne.
    unfold last_two.
    rewrite <- (firstn_skipn (length (split "." host) - 2) (split "." host)) in Hjoin.
    assert (Hlast : skipn (length (split "." host) - 2) (split "." host) <> []).
    { intros Hnil. apply (f_equal (@length string)) in Hnil.
      rewrite length_skipn in Hnil. cbn in Hnil.
      destruct (split "." host); [contradiction | cbn in Hnil; lia]. }
    destruct (firstn (length (split "." host) - 2) (split "." host)) as [|l ls] eqn:Hf.
    + exists "". split; [reflexivity|]. split; [exact Hh|]. symmetry. exact Hjoin.
    + rewrite concat_app in Hjoin by (assumption || discriminate).
      exists (String.concat "." (l :: ls) ++ "."). split; [reflexivity|].
      split; [exact Hh|]. rewrite append_assoc. symmetry. exact Hjoin.
Qed.

End TopicExtras.

(** ** Further properties: video search and video details *)

Section VideoSearchExtras.
Import PyStr Youtube YoutubeSearch.

Lemma fromkeys_spec (l : list string) : forall (seen : gset string),
  List.NoDup (fromkeys seen l)
  /\ forall x, In x (fromkeys seen l) -> (x ∉ seen) /\ In x l.
Proof.
  induction l as [|a l IH]; intros seen; cbn [fromkeys].
  - split; [constructor | intros x []].
  - destruct (bool_decide (a ∈ seen)) eqn:Ha.
    + destruct (IH seen) as [Hnd Hin]. split; [exact Hnd|].
      intros x Hx. destruct (Hin x Hx). split; [assumption | now right].
    + apply bool_decide_eq_false in Ha.
      destruct (IH ({[a]} ∪ seen)) as [Hnd Hin]. split.
      * constructor; [| exact Hnd]. intros Hx. destruct (Hin a Hx) as [Hn _].
        apply Hn, elem_of_union_l, elem_of_singleton. reflexivity.
      * intros x [<-|Hx]; [split; [exact Ha | now left]|].
        destruct (Hin x Hx) as [Hn Hl]. split; [| now right].
        intros Hs. apply Hn, elem_of_union_r, Hs.
Qed.

Lemma NoDup_firstn {A} (n : nat) (l : list A) :
  List.NoDup l -> List.NoDup (firstn n l).
Proof.
  revert l. induction n as [|n IH]; intros l Hnd; [constructor|].
  destruct l as [|a l]; [constructor|]. cbn [firstn].
  apply List.NoDup_cons_iff in Hnd as [Ha Hnd]. constructor; [| now apply IH].
  intros Hin. apply Ha. eapply In_firstn, Hin.
Qed.

Lemma slice_to_spec {A} (l : list A) (n : Z) :
  (List.NoDup l -> List.NoDup (slice_to l n))
  /\ ((0 <= n)%Z -> (Z.of_nat (length (slice_to l n)) <= n)%Z)
  /\ (forall x, In x (slice_to l n) -> In x l).
Proof.
  unfold slice_to. split; [| split].
  - intros Hnd. destruct (n <? 0)%Z; now apply NoDup_firstn.
  - intros Hn. destruct (Z.ltb_spec n 0); [lia|].
    rewrite length_firstn. lia.
  - intros x. destruct (n <? 0)%Z; apply In_firstn.
Qed.

Section WithVideoApi.
Context {W : Type} `{VideoApi W}.

Lemma execute_without_tries {A} (request : callable W A) (tries : Z) (w : W) :
  (tries <= 0)%Z ->
  execute_with_retry va_sleep request tries 2 w
  = (Raised (TypeError "exceptions must derive from BaseException"), w).
Proof.
  intros Ht. unfold execute_with_retry.
  replace (Z.to_nat tries) with 0%nat by lia. reflexivity.
Qed.

Lemma search_loop_without_tries (queries : list string) (brand : string)
      (max_results tries : Z) (found : list string) (w : W) :
  (tries <= 0)%Z ->
  search_loop queries brand max_results tries found w = (found, w).
Proof.
  intros Ht. induction queries as [|q rest IH]; [reflexivity|].
  cbn [search_loop]. rewrite execute_without_tries by assumption. exact IH.
Qed.

(** X24. [search_video_ids] returns video ids without repetition,
    at most [max_results] of them when [max_results] is not negative, and
    with [tries <= 0] it returns the empty list without any request. *)
Theorem search_video_ids_dedupes_and_caps (queries : list string) (brand : string)
    (max_results tries : Z) (w : W) :
  let r := search_video_ids queries brand max_results tries w in
  NoDup (fst r)
  /\ ((0 <= max_results)%Z -> (Z.of_nat (length (fst r)) <= max_results)%Z)
  /\ ((tries <= 0)%Z -> r = ([], w)).
Proof.
  cbv zeta. unfold search_video_ids.
  split; [| split].
  - destruct (search_loop _ _ _ _ _ _) as [found w1].
    destruct (match found with [] => _ | _ :: _ => _ end) as [found' w2].
    cbn [fst]. apply NoDup_ListNoDup, slice_to_spec, fromkeys_spec.
  - intros Hmax. destruct (search_loop _ _ _ _ _ _) as [found w1].
    destruct (match found with [] => _ | _ :: _ => _ end) as [found' w2].
    cbn [fst]. now apply slice_to_spec.
  - intros Ht. rewrite search_loop_without_tries by assumption.
    rewrite execute_without_tries by assumption. cbn [fromkeys].
    unfold slice_to. now rewrite !firstn_nil, Tauto.if_same.
Qed.

Lemma insert_by_views_perm (x : video) (l : list video) :
  Permutation (insert_by_views x l) (x :: l).
Proof.
  induction l as [|y l IH]; cbn [insert_by_views]; [reflexivity|].
  destruct (viewCount x <? viewCount y)%Z; [| reflexivity].
  rewrite IH. apply perm_swap.
Qed.

Lemma sort_by_views_perm (l : list video) : Permutation (sort_by_views l) l.
Proof.
  induction l as [|x l IH]; cbn; [reflexivity|].
  rewrite insert_by_views_perm. now constructor.
Qed.

Lemma insert_by_views_sorted (x : video) (l : list video) :
  StronglySorted (fun a b => (viewCount b <= viewCount a)%Z) l ->
  StronglySorted (fun a b => (viewCount b <= viewCount a)%Z) (insert_by_views x l).
Proof.
  induction l as [|y l IH]; intros Hs; cbn [insert_by_views].
  - repeat constructor.
  - apply StronglySorted_inv in Hs as [Hs Hy].
    destruct (Z.ltb_spec (viewCount x) (viewCount y)) as [Hlt|Hge].
    + constructor; [now apply IH|].
      apply List.Forall_forall. intros z Hz.
      eapply Permutation_in in Hz; [| apply insert_by_views_perm].
      destruct Hz as [<-|Hz]; [lia|]. eapply List.Forall_forall in Hy; eauto.
    + constructor; [constructor; assumption|].
      constructor; [lia|]. apply List.Forall_forall. intros z Hz.
      eapply List.Forall_forall in Hy; eauto. cbn in Hy. lia.
Qed.

Lemma sort_by_views_sorted (l : list video) :
  StronglySorted (fun a b => (viewCount b <= viewCount a)%Z) (sort_by_views l).
Proof.
  induction l as [|x l IH]; cbn; [constructor|]. now apply insert_by_views_sorted.
Qed.

Lemma videos_of_raises (items : list video_item) (it : video_item) :
  In it items -> is_raised (video_of it) = true -> is_raised (videos_of items) = true.
Proof.
  induction items as [|a items IH]; [intros []|]. cbn [videos_of].
  intros [->|Hin] Hr.
  - destruct (video_of it); [discriminate | reflexivity].
  - destruct (video_of a); [| reflexivity]. specialize (IH Hin Hr).
    destruct (videos_of items); [discriminate | reflexivity].
Qed.

(** X25. When [fetch_video_details] returns, the videos are in
    decreasing order of view count; without ids, or when the request
    fails, the list is empty; otherwise it is a permutation of the videos
    built from the items of the response. *)
Theorem video_details_sorted_by_views (video_ids : list string) (tries : Z) (w : W)
    (out : list video) (w' : W) :
  fetch_video_details video_ids tries w = (Returned out, w') ->
  StronglySorted (fun a b => (viewCount b <= viewCount a)%Z) out
  /\ (video_ids = [] -> out = [] /\ w' = w)
  /\ (video_ids <> [] ->
      forall e w1,
        execute_with_retry va_sleep (videos_list video_ids) tries 2 w = (Raised e, w1) ->
        out = [] /\ w' = w1)
  /\ (video_ids <> [] ->
      forall items w1,
        execute_with_retry va_sleep (videos_list video_ids) tries 2 w
        = (Returned items, w1) ->
        exists vs, videos_of items = Returned vs /\ Permutation out vs /\ w' = w1).
Proof.
  unfold fetch_video_details. destruct video_ids as [|v ids].
  - intros [= <- <-]. split; [constructor|]. split; [auto|].
    split; intros Hne; now destruct Hne.
  - destruct (execute_with_retry _ _ _ _ _) as [[items|e] w1].
    + destruct (videos_of items) as [vs|e] eqn:Hvs; [| discriminate].
      intros [= <- <-]. split; [apply sort_by_views_sorted|].
      split; [discriminate|]. split; [intros _ e w2; discriminate|].
      intros _ items' w2 [= <- <-]. exists vs.
      split; [exact Hvs|]. split; [apply sort_by_views_perm | reflexivity].
    + intros [= <- <-]. split; [constructor|]. split; [discriminate|].
      split; [intros _ e' w2 [= _ <-]; auto | intros _ items w2; discriminate].
Qed.

(** X26. [fetch_video_details] converts the items outside its
    [try]: one item without [id], or with a view, like or comment count
    that [int] rejects, makes the whole call raise. *)
Theorem malformed_video_item_propagates (video_ids : list string) (tries : Z) (w : W)
    (items : list video_item) (w1 : W) (it : video_item) :
  video_ids <> [] ->
  execute_with_retry va_sleep (videos_list video_ids) tries 2 w = (Returned items, w1) ->
  In it items ->
  vi_id it = None
  \/ is_raised (count_of (vi_viewCount it)) = true
  \/ is_raised (count_of (vi_likeCount it)) = true
  \/ is_raised (count_of (vi_commentCount it)) = true ->
  exists e, fetch_video_details video_ids tries w = (Raised e, w1).
Proof.
  intros Hne Hexec Hin Hbad. unfold fetch_video_details.
  destruct video_ids as [|v ids]; [contradiction|]. rewrite Hexec.
  assert (Hr : is_raised (video_of it) = true).
  { unfold video_of. destruct (vi_id it); [| reflexivity].
    destruct Hbad as [Hb|[Hb|[Hb|Hb]]]; [discriminate| | |];
      repeat match goal with
             | |- context [match count_of ?x with _ => _ end] =>
                 destruct (count_of x); try reflexivity; try discriminate
             end. }
  pose proof (videos_of_raises items it Hin Hr) as Hvs.
  destruct (videos_of items) as [vs|e]; [discriminate | eauto].
Qed.

End WithVideoApi.

(** X25 at a concrete input. *)
Lemma video_details_sorted_by_views_witness :
  exists out w',
    fetch_video_details ["a1"; "b2"] 3 (Mock.start [Returned [small_video; big_video]])
    = (Returned out, w')
    /\ map video_id out = ["b2"; "a1"]
    /\ StronglySorted (fun a b => (viewCount b <= viewCount a)%Z) out.
Proof.
  eexists. eexists.
  assert (Hf : fetch_video_details ["a1"; "b2"] 3
                 (Mock.start [Returned [small_video; big_video]])
               = (Returned _, _)) by (vm_compute; reflexivity).
  split; [exact Hf|]. split; [reflexivity|].
  exact (proj1 (video_details_sorted_by_views _ _ _ _ _ Hf)).
Defined.

(** X26 at a concrete input. *)
Lemma malformed_video_item_propagates_witness :
  exists e w1,
    fetch_video_details ["a1"; "c3"] 3 (Mock.start [Returned [small_video; odd_video]])
    = (Raised e, w1).
Proof.
  epose proof (malformed_video_item_propagates ["a1"; "c3"] 3
                 (Mock.start [Returned [small_video; odd_video]])
                 [small_video; odd_video] _ odd_video) as Hx.
  destruct Hx as (e & He).
  - discriminate.
  - vm_compute. reflexivity.
  - right. left. reflexivity.
  - right. left. vm_compute. reflexivity.
  - eauto.
Defined.

(** A run of [search_video_ids] on two queries: the off-topic result
    is left out, the repeated id is returned once, and the fallback
    search is not made. *)
Example search_video_ids_example :
  let r := search_video_ids ["q1"; "q2"] "Acme" 5 3 acme_search_world in
  fst r = ["v1"; "v2"] /\ Mock.calls (snd r) = 2%nat.
Proof. vm_compute. split; reflexivity. Qed.

End VideoSearchExtras.
